(** * collectd daemon core (src/daemon/collectd.c): scheduler, signals,
      PID file, readiness notification, daemonization.

    The C code is embedded shallowly.  Values of C integer types are [Z]
    with their wrap-around written out; calls that leave the process
    (system calls, the plugin subsystem) are recorded in a trace of
    [action]s, and what the outside world answers is an explicit input of
    the model (an [event] for the scheduler loop, a field of [answers] for
    [main]). *)

From Stdlib Require Import ZArith List Ascii String Lia.
From Stdlib Require Import DecimalString DecimalZ DecimalPos.
From stdpp Require Import base gmap strings list.

Local Open Scope Z_scope.

(** ** C integer types *)

(** [int] is 32 bits wide on every platform collectd builds for.  The C
    standard leaves signed overflow undefined; the compiled increment wraps
    in two's complement, which is what [int_wrap] writes out. *)
Definition INT_MAX : Z := 2 ^ 31 - 1.
Definition INT_MIN : Z := - 2 ^ 31.
Definition int_wrap (x : Z) : Z := (x + 2 ^ 31) mod 2 ^ 32 - 2 ^ 31.

(** Modelled from the spec: [cdtime_t], the scheduler's time stamp and
    duration type, is declared in utils_time.h, which is not part of the
    sources at hand.  collectd declares it as [uint64_t]; arithmetic on it
    wraps modulo 2^64. *)
Definition cdtime_modulus : Z := 2 ^ 64.
Definition cdtime_wrap (x : Z) : Z := x mod cdtime_modulus.
Definition cdtime_add (a b : Z) : Z := cdtime_wrap (a + b).
Definition cdtime_sub (a b : Z) : Z := cdtime_wrap (a - b).
Definition is_cdtime (x : Z) : Prop := 0 <= x < cdtime_modulus.

(** [errno] values (Linux). *)
Definition ENOENT : Z := 2.
Definition EINTR : Z := 4.
Definition EACCES : Z := 13.
Definition EINVAL : Z := 22.

(** What a system call returns: a value, or -1 with [errno] set. *)
Inductive answer := Ok (value : Z) | Err (errno : Z).

Definition ret_of (a : answer) : Z :=
  match a with Ok v => v | Err _ => -1 end.

Definition errno_of (a : answer) : Z :=
  match a with Ok _ => 0 | Err e => e end.

(** ** Signals *)

Inductive signal := SIGINT | SIGTERM | SIGUSR1 | SIGPIPE | SIGCHLD | SIGSTOP.

(** ** What the process does to the outside world *)

Inductive severity := LOG_ERR | LOG_WARNING | LOG_NOTICE | LOG_INFO.

(** The messages of the ERROR / WARNING / NOTICE / INFO calls the model
    covers, with the values their format strings print. *)
Inductive message :=
| Msg_not_sleeping (past : Z)
    (* "Not sleeping because the next interval is %.3f seconds in the past!" *)
| Msg_nanosleep_failed (errno : Z)             (* "nanosleep failed: %s" *)
| Msg_fopen_failed (file : string) (errno : Z) (* "fopen (%s): %s" *)
| Msg_unexpected_upstart_job (value : string)
    (* "Environment specifies unexpected UPSTART_JOB=..." *)
| Msg_upstart_detected  (* "Upstart detected, stopping now to signal readyness." *)
| Msg_invalid_notify_socket (value : string)
    (* "invalid notification socket NOTIFY_SOCKET=...: path must be absolute" *)
| Msg_systemd_detected  (* "Systemd detected, trying to signal readyness." *)
| Msg_socket_failed (errno : Z)  (* "creating UNIX socket failed: %s" *)
| Msg_sendto_failed (value : string) (errno : Z) (* "sendto(...) failed: %s" *)
| Msg_strdup_failed (errno : Z)  (* "strdup failed: %s" *)
| Msg_chdir_failed (dir : string) (errno : Z)  (* "change_basedir: chdir (%s): %s" *)
| Msg_mkdir_failed (dir : string) (errno : Z)  (* "change_basedir: mkdir (%s): %s" *)
| Msg_stdin_not_connected (status : Z)
| Msg_stdout_not_connected (status : Z)
| Msg_stderr_not_connected (status : Z)
| Msg_sigaction_failed (sig : signal) (errno : Z)
| Msg_setlocale_failed  (* "setlocale (...) failed." *)
| Msg_init_failed       (* "Error: one or more plugin init callbacks failed." *)
| Msg_read_failed       (* "Error: one or more plugin read callbacks failed." *)
| Msg_shutdown_failed   (* "Error: one or more plugin shutdown callbacks failed." *)
| Msg_entering_read_loop (* "Initialization complete, entering read-loop." *)
| Msg_exiting_normally   (* "Exiting normally." *)
| Msg_flushing | Msg_finished_flushing
| Msg_lookup_failed.
    (* "Looking up ... failed. You have set the FQDNLookup option, but ..." *)

(** Messages [main] prints on stderr with fprintf. *)
Inductive stderr_message :=
| Err_config_failed | Err_no_basedir | Err_change_basedir (dir : string)
| Err_fork (errno : Z)
| Err_no_hostname   (* "`gethostname' failed and no hostname was configured." *)
| Err_bad_timeout.  (* "Cannot set the timeout to a correct value." *)

Inductive handler := SIG_IGN | Handler_sig_int | Handler_sig_term | Handler_sig_usr1.

Inductive action :=
| Log (sev : severity) (m : message)
| Stderr (m : stderr_message)
| Print_usage
| Plugin_read_all
| Nanosleep (request : Z)
| Raise (sig : signal)
| Unsetenv (name : string)
| Socket
| Sendto (fd : Z) (payload : string) (sun_path : list ascii) (su_size : Z)
| Close (fd : Z)
| Fork
| Setsid
| Open (path : string)
| Dup (fd : Z)
| Fopen (path : string)
| Fprintf (text : string)
| Fclose
| Unlink (path : string)
| Chdir (path : string)
| Mkdir (path : string) (mode : Z)
| Sigaction (sig : signal) (h : handler)
| Plugin_init_ctx
| Cf_read (configfile : string)
| Init_global_variables
| Setlocale
| Setenv (name value : string)
| Plugin_init_all
| Plugin_read_all_once
| Plugin_shutdown_all
| Pthread_create_do_flush
| Enter_pidfile_create
| Enter_pidfile_remove
| Call_gethostname
| Call_getaddrinfo (node : list ascii)
| Call_freeaddrinfo.

(** ** Signal controller (lines 77-115) *)

(** [static int loop = 0;] is the stop flag: the scheduler runs while it is
    zero.  The handlers of SIGINT and SIGTERM increment it. *)
Definition sig_int_handler (loop : Z) : Z := int_wrap (loop + 1).
Definition sig_term_handler (loop : Z) : Z := int_wrap (loop + 1).

Definition stop_requested (loop : Z) : bool := negb (loop =? 0).

(** ** Interval scheduler: [do_loop] (lines 358-404) *)

(** The loop talks to the outside at four places (two clock readings, the
    read-all call, nanosleep) and reads [loop], which a signal handler may
    change between any two of its instructions.  It is therefore a
    transition system over program points; an [event] is either a signal
    delivery or one instruction of [do_loop] together with the answer the
    outside gives to it. *)
Inductive program_point :=
| At_entry       (* line 363, before cdtime () *)
| At_loop_test   (* line 365, while (loop == 0) *)
| In_read_all    (* line 375, inside plugin_read_all () *)
| At_now         (* line 377, now = cdtime () *)
| At_sleep_test  (* line 390, (loop == 0) && ... *)
| In_nanosleep   (* line 390, inside nanosleep (&ts_wait, &ts_wait) *)
| Returned (status : Z).

Record sched := {
  loop : Z;               (* the file-scope stop flag *)
  flush_threads : nat;    (* detached do_flush threads that came to run *)
  pc : program_point;
  interval : Z;           (* cf_get_default_interval () *)
  wait_until : Z;
  ts_wait : Z;            (* the sleep request, kept in cdtime_t units *)
  trace : list action
}.

Inductive sleep_result :=
| Sleep_done                                  (* nanosleep returned 0 *)
| Sleep_failed (errno : Z) (remaining : Z).   (* returned -1; [remaining] is
                                                 what it stored on EINTR *)

Inductive event :=
| Deliver (s : signal) (thread : answer)
    (* the signal is delivered; [thread] is what pthread_create answers in
       the handler of SIGUSR1 (0, or an error number and no thread), and of
       no account for the other signals *)
| Clock (t : Z)                 (* cdtime () returns t *)
| Test                          (* the loop condition at hand is evaluated *)
| Read_returns (status : Z)     (* plugin_read_all () returns *)
| Sleep_returns (r : sleep_result).

Definition set_loop (v : Z) (s : sched) : sched :=
  {| loop := v; flush_threads := flush_threads s; pc := pc s;
     interval := interval s; wait_until := wait_until s;
     ts_wait := ts_wait s; trace := trace s |}.

Definition set_pc (p : program_point) (s : sched) : sched :=
  {| loop := loop s; flush_threads := flush_threads s; pc := p;
     interval := interval s; wait_until := wait_until s;
     ts_wait := ts_wait s; trace := trace s |}.

Definition set_wait_until (w : Z) (s : sched) : sched :=
  {| loop := loop s; flush_threads := flush_threads s; pc := pc s;
     interval := interval s; wait_until := w;
     ts_wait := ts_wait s; trace := trace s |}.

Definition set_ts_wait (d : Z) (s : sched) : sched :=
  {| loop := loop s; flush_threads := flush_threads s; pc := pc s;
     interval := interval s; wait_until := wait_until s;
     ts_wait := d; trace := trace s |}.

Definition emit (a : action) (s : sched) : sched :=
  {| loop := loop s; flush_threads := flush_threads s; pc := pc s;
     interval := interval s; wait_until := wait_until s;
     ts_wait := ts_wait s; trace := trace s ++ [a] |}.

(** [sig_usr1_handler] calls pthread_create for a detached thread that
    runs [do_flush], and drops what the call returns: a thread is there
    only if the call succeeded, and the handler goes on alike. *)
Definition sig_usr1_handler (thread : answer) (s : sched) : sched :=
  emit Pthread_create_do_flush
    {| loop := loop s;
       flush_threads := match thread with
                        | Ok _ => S (flush_threads s)
                        | Err _ => flush_threads s
                        end;
       pc := pc s;
       interval := interval s; wait_until := wait_until s;
       ts_wait := ts_wait s; trace := trace s |}.

(** Delivery of a signal under the dispositions [main] installs: handlers
    for SIGINT, SIGTERM and SIGUSR1, SIG_IGN for SIGPIPE and SIGCHLD.
    SIGSTOP cannot be caught and leaves the program state as it is. *)
Definition deliver (sg : signal) (thread : answer) (s : sched) : sched :=
  match sg with
  | SIGINT => set_loop (sig_int_handler (loop s)) s
  | SIGTERM => set_loop (sig_term_handler (loop s)) s
  | SIGUSR1 => sig_usr1_handler thread s
  | SIGPIPE | SIGCHLD | SIGSTOP => s
  end.

Definition do_loop_step (e : event) (s : sched) : option sched :=
  match e, pc s with
  | Deliver sg thread, _ => Some (deliver sg thread s)
  | Clock t, At_entry =>
      (* wait_until = cdtime () + interval; *)
      Some (set_pc At_loop_test (set_wait_until (cdtime_add t (interval s)) s))
  | Test, At_loop_test =>
      if loop s =? 0
      then Some (set_pc In_read_all (emit Plugin_read_all s))
      else Some (set_pc (Returned 0) s)
  | Read_returns _, In_read_all => Some (set_pc At_now s)
  | Clock now, At_now =>
      if wait_until s <=? now
      then (* WARNING; wait_until = now + interval; continue; *)
        Some (set_pc At_loop_test
               (set_wait_until (cdtime_add now (interval s))
                 (emit (Log LOG_WARNING
                          (Msg_not_sleeping (cdtime_sub now (wait_until s)))) s)))
      else (* CDTIME_T_TO_TIMESPEC (wait_until - now, &ts_wait);
              wait_until = wait_until + interval; *)
        Some (set_pc At_sleep_test
               (set_wait_until (cdtime_add (wait_until s) (interval s))
                 (set_ts_wait (cdtime_sub (wait_until s) now) s)))
  | Test, At_sleep_test =>
      if loop s =? 0
      then Some (set_pc In_nanosleep (emit (Nanosleep (ts_wait s)) s))
      else Some (set_pc At_loop_test s)
  | Sleep_returns Sleep_done, In_nanosleep => Some (set_pc At_loop_test s)
  | Sleep_returns (Sleep_failed errno remaining), In_nanosleep =>
      if errno =? EINTR
      then Some (set_pc At_sleep_test (set_ts_wait remaining s))
      else Some (set_pc (Returned (-1))
                  (emit (Log LOG_ERR (Msg_nanosleep_failed errno)) s))
  | _, _ => None
  end.

Fixpoint do_loop_run (es : list event) (s : sched) : option sched :=
  match es with
  | [] => Some s
  | e :: es' =>
      match do_loop_step e s with
      | Some s' => do_loop_run es' s'
      | None => None
      end
  end.

(** The state in which [main] calls [do_loop]. *)
Definition do_loop_enter (loop0 : Z) (interval0 : Z) : sched :=
  {| loop := loop0; flush_threads := 0; pc := At_entry;
     interval := interval0; wait_until := 0; ts_wait := 0; trace := [] |}.

(** The nanosleep requests made in a trace. *)
Definition nanosleep_requests (t : list action) : list Z :=
  omap (fun a => match a with Nanosleep d => Some d | _ => None end) t.

(** ** The process and its surroundings, as [main] sees them *)

(** The answers of the outside world, one per call site of [main] and of
    the functions it calls.  The configuration store (configfile.c), the
    plugin subsystem (plugin.c), the resolver and what the headers and libc
    define are outside the daemon core; only their results appear. *)
Record answers := {
  cf_read_answer : string -> gmap string string -> Z * gmap string string;
  default_interval : Z;                 (* cf_get_default_interval () *)
  name_len : nat;                       (* DATA_MAX_NAME_LEN (plugin.h) *)
  is_false : option string -> bool;     (* the macro IS_FALSE (collectd.h) *)
  libc_atoi : string -> Z;              (* atoi *)
  gethostname_result : option string;   (* None: gethostname failed *)
  getaddrinfo_result : option (list (option string));
    (* None: a status other than 0; else ai_canonname along the list *)
  strdup_answer : answer;
  chdir_answer : answer;                (* line 222 *)
  mkdir_answer : answer;                (* line 237 *)
  chdir_again_answer : answer;          (* line 247 *)
  socket_answer : answer;
  sendto_answer : answer;
  fork_answer : answer;
  getpid_answer : Z;
  fopen_answer : answer;                (* Ok _: a stream; Err e: NULL *)
  unlink_fault : option Z;              (* a failure other than ENOENT *)
  open_answer : answer;                 (* open ("/dev/null", O_RDWR) *)
  dup_stdout_answer : answer;           (* line 777 *)
  dup_stderr_answer : answer;           (* line 784 *)
  sigaction_int_answer : answer;
  sigaction_term_answer : answer;
  sigaction_usr1_answer : answer;
  setlocale_answer : bool;              (* false: setlocale returned NULL *)
  plugin_init_all_status : Z;
  plugin_read_all_once_status : Z;
  plugin_shutdown_all_status : Z;
  loop_events : list event              (* what happens while do_loop runs *)
}.

Record world := {
  environ : gmap string string;    (* the process environment *)
  options : gmap string string;    (* the global option store *)
  files : gmap string string;      (* regular files, by path *)
  stream : option string;          (* the path behind the open FILE, if any *)
  cwd : string;
  stop_flag : Z;                   (* the file-scope variable [loop] *)
  history : list action
}.

Definition with_environ (e : gmap string string) (w : world) : world :=
  {| environ := e; options := options w; files := files w;
     stream := stream w; cwd := cwd w; stop_flag := stop_flag w;
     history := history w |}.

Definition with_options (o : gmap string string) (w : world) : world :=
  {| environ := environ w; options := o; files := files w;
     stream := stream w; cwd := cwd w; stop_flag := stop_flag w;
     history := history w |}.

Definition with_files (f : gmap string string) (w : world) : world :=
  {| environ := environ w; options := options w; files := f;
     stream := stream w; cwd := cwd w; stop_flag := stop_flag w;
     history := history w |}.

Definition with_stream (s : option string) (w : world) : world :=
  {| environ := environ w; options := options w; files := files w;
     stream := s; cwd := cwd w; stop_flag := stop_flag w;
     history := history w |}.

Definition with_cwd (d : string) (w : world) : world :=
  {| environ := environ w; options := options w; files := files w;
     stream := stream w; cwd := d; stop_flag := stop_flag w;
     history := history w |}.

Definition with_stop_flag (l : Z) (w : world) : world :=
  {| environ := environ w; options := options w; files := files w;
     stream := stream w; cwd := cwd w; stop_flag := l;
     history := history w |}.

Definition record (a : list action) (w : world) : world :=
  {| environ := environ w; options := options w; files := files w;
     stream := stream w; cwd := cwd w; stop_flag := stop_flag w;
     history := history w ++ a |}.

(** A computation of the process either yields a value, ends the process
    with an exit status ([exit], or [return] from [main]), ends it in
    [abort ()] after a failed [assert], has no defined behaviour, or is still
    inside [do_loop] when the script of events ends (or stops fitting the
    program). *)
Inductive outcome (A : Type) : Type :=
| Ret (a : A)
| Exit (status : Z)
| Undefined
| Blocked
| Aborted.

Arguments Ret {A} a.
Arguments Exit {A} status.
Arguments Undefined {A}.
Arguments Blocked {A}.
Arguments Aborted {A}.

Definition M (A : Type) : Type := world -> outcome A * world.

Definition ret {A : Type} (a : A) : M A := fun w => (Ret a, w).

Definition bind {A B : Type} (m : M A) (k : A -> M B) : M B :=
  fun w =>
    match m w with
    | (Ret a, w') => k a w'
    | (Exit st, w') => (Exit st, w')
    | (Undefined, w') => (Undefined, w')
    | (Blocked, w') => (Blocked, w')
    | (Aborted, w') => (Aborted, w')
    end.

Declare Scope proc_scope.
Delimit Scope proc_scope with proc.
Notation "x <- m ;; k" := (bind m (fun x => k))
  (at level 100, m at next level, right associativity) : proc_scope.
Notation "m ;; k" := (bind m (fun _ => k))
  (at level 100, right associativity) : proc_scope.

Local Open Scope proc_scope.

Definition exit_with {A : Type} (status : Z) : M A := fun w => (Exit status, w).
Definition undefined {A : Type} : M A := fun w => (Undefined, w).
Definition act (a : action) : M unit := fun w => (Ret tt, record [a] w).
Definition log (sev : severity) (m : message) : M unit := act (Log sev m).

Definition getenv (name : string) : M (option string) :=
  fun w => (Ret (environ w !! name), w).

Definition unsetenv (name : string) : M unit :=
  fun w => (Ret tt, record [Unsetenv name] (with_environ (delete name (environ w)) w)).

Definition setenv (name value : string) : M unit :=
  fun w => (Ret tt, record [Setenv name value]
                      (with_environ (<[name := value]> (environ w)) w)).

Definition global_option_get (key : string) : M (option string) :=
  fun w => (Ret (options w !! key), w).

Definition global_option_set (key value : string) : M unit :=
  fun w => (Ret tt, with_options (<[key := value]> (options w)) w).

(** ** Build-time constants *)

(** The model is the build with COLLECT_DAEMON, KERNEL_LINUX and
    HAVE_SETLOCALE, without HAVE_KEEPALIVE_GLIB, HAVE_LIBKSTAT and
    HAVE_LIBSTATGRAB: the one in which [do_loop], the PID file and both
    readiness handshakes are compiled. *)
Definition CONFIGFILE : string := "/etc/collectd.conf".
Definition COLLECTD_LOCALE : string := "C".

(** <sys/un.h> on Linux. *)
Definition sizeof_sa_family_t : Z := 2.
Definition sizeof_sun_path : nat := 108.
Definition sizeof_sockaddr_un : Z := 110.

(** S_IRWXU | S_IRWXG | S_IRWXO *)
Definition S_IRWXUGO : Z := Z.lor (Z.lor 448 56) 7.

Definition newline : string := String (ascii_of_nat 10) EmptyString.

(** The text printf's "%i" conversion produces. *)
Definition decimal (n : Z) : string := NilZero.string_of_int (Z.to_int n).

(** Modelled from the spec: [sstrncpy] is defined in common.c, which is not
    part of the sources at hand.  It is [strncpy] followed by a terminating
    null byte in the last place of the destination; with a destination that
    was zeroed before, the [n] bytes of the destination are the first
    [n - 1] bytes of the source, then null bytes. *)
Definition sstrncpy (src : string) (n : nat) : list ascii :=
  let body := take (n - 1)%nat (list_ascii_of_string src) in
  body ++ replicate (n - List.length body)%nat zero.

(** [dirlen] after the loop at lines 214-215. *)
Fixpoint strip_trailing_slashes (dir : list ascii) (dirlen : nat) : nat :=
  match dirlen with
  | O => O
  | S n =>
      match dir !! n with
      | Some c => if Ascii.eqb c "/" then strip_trailing_slashes dir n else dirlen
      | None => dirlen
      end
  end.

(** ** Command line *)

(** What getopt returns, call after call. *)
Inductive cli_option :=
| Opt_C (file : string) | Opt_t | Opt_T | Opt_P (file : string) | Opt_f
| Opt_h | Opt_unknown.

Record cli := {
  configfile : string;
  test_config : bool;
  test_readall : bool;
  daemonize : bool
}.

(** ** Global variables: [init_hostname], [init_global_variables]
       (lines 117-196) *)

Module Globals.

(** What these two functions ask of the outside. *)
Inductive call :=
| Gethostname
| Getaddrinfo (node : list ascii)
| Freeaddrinfo
| Stderr_no_hostname        (* "`gethostname' failed and no hostname was configured." *)
| Error_lookup_failed       (* "Looking up ... failed. ..." *)
| Stderr_bad_timeout.       (* "Cannot set the timeout to a correct value." *)

(** [hostname_g] is the array itself, [DATA_MAX_NAME_LEN] bytes. *)
Record globals := {
  hostname_g : list ascii;
  interval_g : Z;
  timeout_g : Z
}.

Record lookups := {
  gethostname_answer : option string;     (* None: gethostname failed *)
  getaddrinfo_answer : option (list (option string));
    (* None: a status other than 0; else ai_canonname along the list,
       None for a null pointer *)
  cf_get_default_interval : Z
}.

(** How a function ends: with a [return], or in a failed [assert]. *)
Inductive ending := Return (status : Z) | Assertion_failed.

Definition is_Gethostname (c : call) : bool :=
  match c with Gethostname => true | _ => false end.
Definition is_Getaddrinfo (c : call) : bool :=
  match c with Getaddrinfo _ => true | _ => false end.
Definition is_Freeaddrinfo (c : call) : bool :=
  match c with Freeaddrinfo => true | _ => false end.
Definition is_complaint (c : call) : bool :=
  match c with
  | Stderr_no_hostname | Error_lookup_failed | Stderr_bad_timeout => true
  | _ => false
  end.

Section WithConstants.

(** [DATA_MAX_NAME_LEN] (plugin.h), the macro [IS_FALSE] (collectd.h) and
    libc's [atoi] are not part of the sources at hand. *)
Variable DATA_MAX_NAME_LEN : nat.
Variable IS_FALSE : option string -> bool.
Variable atoi : string -> Z.

Variable look : lookups.

(** gethostname (hostname_g, sizeof (hostname_g)) on the zeroed array: the
    name and null bytes after it, cut at the size of the array. *)
Definition gethostname_fill (name : string) : list ascii :=
  take DATA_MAX_NAME_LEN
    (list_ascii_of_string name ++ replicate DATA_MAX_NAME_LEN zero).

(** The three globals when the process starts: static storage, zeroed. *)
Definition at_start : globals :=
  {| hostname_g := replicate DATA_MAX_NAME_LEN zero;
     interval_g := 0; timeout_g := 0 |}.

(** The loop of lines 158-165: [hostname_g] after it. *)
Fixpoint scan_ai_list (ai_list : list (option string)) (hostname : list ascii)
    : list ascii :=
  match ai_list with
  | [] => hostname
  | None :: ai_next => scan_ai_list ai_next hostname          (* continue *)
  | Some canonname :: _ => sstrncpy canonname DATA_MAX_NAME_LEN   (* break *)
  end.

Definition init_hostname (options : gmap string string) (g : globals)
    : Z * globals * list call :=
  let set_hostname h :=
    {| hostname_g := h; interval_g := interval_g g; timeout_g := timeout_g g |} in
  match options !! "Hostname" with
  | Some str => (0, set_hostname (sstrncpy str DATA_MAX_NAME_LEN), [])
  | None =>
      match gethostname_answer look with
      | None => (-1, g, [Gethostname; Stderr_no_hostname])
      | Some name =>
          let h := gethostname_fill name in
          if IS_FALSE (options !! "FQDNLookup")
          then (0, set_hostname h, [Gethostname])
          else
            match getaddrinfo_answer look with
            | None =>
                (-1, set_hostname h,
                 [Gethostname; Getaddrinfo h; Error_lookup_failed])
            | Some ai_list =>
                (0, set_hostname (scan_ai_list ai_list h),
                 [Gethostname; Getaddrinfo h; Freeaddrinfo])
            end
      end
  end.

Definition init_global_variables (options : gmap string string) (g : globals)
    : ending * globals * list call :=
  let g1 := {| hostname_g := hostname_g g;
               interval_g := cf_get_default_interval look;
               timeout_g := timeout_g g |} in
  if negb (0 <? interval_g g1)
  then (Assertion_failed, g1, [])
  else
    let str := match options !! "Timeout" with
               | Some s => s
               | None => "2"%string
               end in
    let g2 := {| hostname_g := hostname_g g1; interval_g := interval_g g1;
                 timeout_g := int_wrap (atoi str) |} in
    if timeout_g g2 <=? 1
    then (Return (-1), g2, [Stderr_bad_timeout])
    else
      let '(status, g3, t) := init_hostname options g2 in
      if negb (status =? 0)
      then (Return (-1), g3, t)
      else (Return 0, g3, t).

End WithConstants.

End Globals.

(** The calls and messages of these two functions among the actions of the
    process. *)
Definition action_of_call (c : Globals.call) : action :=
  match c with
  | Globals.Gethostname => Call_gethostname
  | Globals.Getaddrinfo node => Call_getaddrinfo node
  | Globals.Freeaddrinfo => Call_freeaddrinfo
  | Globals.Stderr_no_hostname => Stderr Err_no_hostname
  | Globals.Error_lookup_failed => Log LOG_ERR Msg_lookup_failed
  | Globals.Stderr_bad_timeout => Stderr Err_bad_timeout
  end.

Section Process.

Variable ans : answers.

(** ** PID file (lines 414-440) *)

Definition fopen_w (file : string) : M bool :=
  fun w =>
    match fopen_answer ans with
    | Ok _ =>
        (Ret true,
         record [Fopen file]
           (with_stream (Some file)
              (with_files (<[file := EmptyString]> (files w)) w)))
    | Err _ => (Ret false, record [Fopen file] w)
    end.

Definition fprintf (text : string) : M unit :=
  fun w =>
    match stream w with
    | Some f =>
        (Ret tt,
         record [Fprintf text]
           (with_files
              (<[f := (default EmptyString (files w !! f) ++ text)%string]> (files w)) w))
    | None => (Undefined, w)
    end.

Definition fclose : M unit :=
  fun w => (Ret tt, record [Fclose] (with_stream None w)).

Definition unlink (file : string) : M Z :=
  fun w =>
    match unlink_fault ans, files w !! file with
    | None, Some _ =>
        (Ret 0, record [Unlink file] (with_files (delete file (files w)) w))
    | _, _ => (Ret (-1), record [Unlink file] w)
    end.

Definition pidfile_create : M Z :=
  act Enter_pidfile_create ;;
  file <- global_option_get "PIDFile" ;;
  match file with
  | None => undefined            (* fopen (NULL, "w") *)
  | Some f =>
      fh <- fopen_w f ;;
      if fh : bool
      then
        fprintf (decimal (int_wrap (getpid_answer ans)) ++ newline)%string ;;
        fclose ;;
        ret 0
      else
        log LOG_ERR (Msg_fopen_failed f (errno_of (fopen_answer ans))) ;;
        ret 1
  end.

Definition pidfile_remove : M Z :=
  act Enter_pidfile_remove ;;
  file <- global_option_get "PIDFile" ;;
  match file with
  | None => ret 0
  | Some f => unlink f
  end.

(** ** Readiness notification (lines 444-531) *)

Definition notify_upstart : M Z :=
  upstart_job <- getenv "UPSTART_JOB" ;;
  match upstart_job with
  | None => ret 0
  | Some v =>
      if negb (String.eqb v "collectd")
      then log LOG_WARNING (Msg_unexpected_upstart_job v) ;; ret 0
      else
        log LOG_NOTICE Msg_upstart_detected ;;
        act (Raise SIGSTOP) ;;
        unsetenv "UPSTART_JOB" ;;
        ret 1
  end.

Definition first_char_is (c : ascii) (s : string) : bool :=
  match s with
  | String c' _ => Ascii.eqb c' c
  | EmptyString => false
  end.

(** [su.sun_path] and [su_size] as lines 498-517 compute them. *)
Definition notify_address (notifysocket : string) : list ascii * Z :=
  if negb (first_char_is "@" notifysocket)
  then (sstrncpy notifysocket sizeof_sun_path, sizeof_sockaddr_un)
  else
    let su_size := sizeof_sa_family_t + Z.of_nat (String.length notifysocket) in
    (<[0%nat := zero]> (sstrncpy notifysocket sizeof_sun_path),
     if sizeof_sockaddr_un <? su_size then sizeof_sockaddr_un else su_size).

Definition notify_systemd : M Z :=
  notifysocket <- getenv "NOTIFY_SOCKET" ;;
  match notifysocket with
  | None => ret 0
  | Some v =>
      if (String.length v <? 2)%nat
         || (negb (first_char_is "@" v) && negb (first_char_is "/" v))
      then log LOG_ERR (Msg_invalid_notify_socket v) ;; ret 0
      else
        log LOG_NOTICE Msg_systemd_detected ;;
        unsetenv "NOTIFY_SOCKET" ;;
        act Socket ;;
        let fd := ret_of (socket_answer ans) in
        if fd <? 0
        then log LOG_ERR (Msg_socket_failed (errno_of (socket_answer ans))) ;; ret 0
        else
          let '(sun_path, su_size) := notify_address v in
          act (Sendto fd ("READY=1" ++ newline)%string sun_path su_size) ;;
          if ret_of (sendto_answer ans) <? 0
          then
            log LOG_ERR (Msg_sendto_failed v (errno_of (sendto_answer ans))) ;;
            act (Close fd) ;;
            ret 0
          else
            unsetenv "NOTIFY_SOCKET" ;;
            act (Close fd) ;;
            ret 1
  end.

(** ** Working directory (lines 198-259) *)

Definition chdir (dir : string) (a : answer) : M Z :=
  fun w =>
    match a with
    | Ok _ => (Ret 0, record [Chdir dir] (with_cwd dir w))
    | Err _ => (Ret (-1), record [Chdir dir] w)
    end.

Definition mkdir (dir : string) (mode : Z) : M Z :=
  act (Mkdir dir mode) ;;
  ret (match mkdir_answer ans with Ok _ => 0 | Err _ => -1 end).

Definition change_basedir (orig_dir : string) : M Z :=
  match strdup_answer ans with
  | Err e => log LOG_ERR (Msg_strdup_failed e) ;; ret (-1)
  | Ok _ =>
      let chars := list_ascii_of_string orig_dir in
      let dirlen := strip_trailing_slashes chars (List.length chars) in
      let dir := string_of_list_ascii (take dirlen chars) in
      if (dirlen =? 0)%nat
      then ret (-1)
      else
        status <- chdir dir (chdir_answer ans) ;;
        if status =? 0
        then ret 0
        else if negb (errno_of (chdir_answer ans) =? ENOENT)
        then
          log LOG_ERR (Msg_chdir_failed dir (errno_of (chdir_answer ans))) ;;
          ret (-1)
        else
          status <- mkdir dir S_IRWXUGO ;;
          if negb (status =? 0)
          then
            log LOG_ERR (Msg_mkdir_failed dir (errno_of (mkdir_answer ans))) ;;
            ret (-1)
          else
            status <- chdir dir (chdir_again_answer ans) ;;
            if negb (status =? 0)
            then
              log LOG_ERR (Msg_chdir_failed dir (errno_of (chdir_again_answer ans))) ;;
              ret (-1)
            else ret 0
  end.

(** ** Initialisation, scheduler and shutdown as [main] calls them *)

Definition do_init : M Z :=
  act Setlocale ;;
  (if setlocale_answer ans then ret tt
   else log LOG_WARNING Msg_setlocale_failed) ;;
  unsetenv "LC_ALL" ;;
  setenv "LC_NUMERIC" COLLECTD_LOCALE ;;
  act Plugin_init_all ;;
  ret (plugin_init_all_status ans).

(** [do_loop] run against the script [loop_events]: it starts with the stop
    flag as the process has it and leaves it as the handlers left it. *)
Definition do_loop : M Z :=
  fun w =>
    match do_loop_run (loop_events ans)
            (do_loop_enter (stop_flag w) (default_interval ans)) with
    | Some s =>
        (match pc s with Returned status => Ret status | _ => Blocked end,
         record (trace s) (with_stop_flag (loop s) w))
    | None => (Blocked, w)
    end.

Definition do_shutdown : M Z :=
  act Plugin_shutdown_all ;;
  ret (plugin_shutdown_all_status ans).

Definition cf_read (file : string) : M Z :=
  fun w =>
    let '(status, o) := cf_read_answer ans file (options w) in
    (Ret status, record [Cf_read file] (with_options o w)).

(** [init_global_variables] (lines 171-196) as [main] calls it: the
    function of [Globals] on the option store, with its calls and messages
    in the history; a failed [assert] ends the process.  The three globals
    it sets are read by the plugins and, in this file, by these two
    functions alone, and the process state keeps none of them. *)
Definition init_global_variables : M Z :=
  fun w =>
    let '(e, _, t) :=
      Globals.init_global_variables (name_len ans) (is_false ans) (libc_atoi ans)
        {| Globals.gethostname_answer := gethostname_result ans;
           Globals.getaddrinfo_answer := getaddrinfo_result ans;
           Globals.cf_get_default_interval := default_interval ans |}
        (options w) (Globals.at_start (name_len ans)) in
    let w' := record (Init_global_variables :: map action_of_call t) w in
    match e with
    | Globals.Return status => (Ret status, w')
    | Globals.Assertion_failed => (Aborted, w')
    end.

Definition sigaction (sig : signal) (h : handler) (a : answer) : M Z :=
  act (Sigaction sig h) ;;
  ret (match a with Ok _ => 0 | Err _ => -1 end).

(** ** [main] (lines 614-922) *)

Definition exit_usage {A : Type} (status : Z) : M A :=
  act Print_usage ;; exit_with status.

(** The option loop, lines 632-675. *)
Fixpoint read_options (opts : list cli_option) (c : cli) : M cli :=
  match opts with
  | [] => ret c
  | Opt_C file :: rest =>
      read_options rest
        {| configfile := file; test_config := test_config c;
           test_readall := test_readall c; daemonize := daemonize c |}
  | Opt_t :: rest =>
      read_options rest
        {| configfile := configfile c; test_config := true;
           test_readall := test_readall c; daemonize := daemonize c |}
  | Opt_T :: rest =>
      global_option_set "ReadThreads" "-1" ;;
      read_options rest
        {| configfile := configfile c; test_config := test_config c;
           test_readall := true; daemonize := false |}
  | Opt_P file :: rest =>
      global_option_set "PIDFile" file ;;
      read_options rest c
  | Opt_f :: rest =>
      read_options rest
        {| configfile := configfile c; test_config := test_config c;
           test_readall := test_readall c; daemonize := false |}
  | Opt_h :: _ => exit_usage 0
  | Opt_unknown :: _ => exit_usage 1
  end.

(** The condition of line 734-738, with C's short-circuit evaluation. *)
Definition not_supervised (daemonize : bool) : M bool :=
  if daemonize
  then
    u <- notify_upstart ;;
    if u =? 0
    then s <- notify_systemd ;; ret (s =? 0)
    else ret false
  else ret false.

(** The body of the [if], lines 739-790. *)
Definition fork_off_child : M unit :=
  act Fork ;;
  let pid := ret_of (fork_answer ans) in
  if pid =? -1
  then act (Stderr (Err_fork (errno_of (fork_answer ans)))) ;; exit_with 1
  else if negb (pid =? 0)
  then exit_with 0                                   (* parent *)
  else
    act Setsid ;;
    created <- pidfile_create ;;
    if negb (created =? 0)
    then exit_with 2
    else
      act (Close 2) ;;
      act (Close 1) ;;
      act (Close 0) ;;
      act (Open "/dev/null") ;;
      let status := ret_of (open_answer ans) in
      if negb (status =? 0)
      then log LOG_ERR (Msg_stdin_not_connected status) ;; exit_with 1
      else
        act (Dup 0) ;;
        let status := ret_of (dup_stdout_answer ans) in
        if negb (status =? 1)
        then log LOG_ERR (Msg_stdout_not_connected status) ;; exit_with 1
        else
          act (Dup 0) ;;
          let status := ret_of (dup_stderr_answer ans) in
          if negb (status =? 2)
          then log LOG_ERR (Msg_stderr_not_connected status) ;; exit_with 1
          else ret tt.

(** Lines 722-791. *)
Definition daemonization (daemonize : bool) : M unit :=
  act (Sigaction SIGCHLD SIG_IGN) ;;
  go <- not_supervised daemonize ;;
  if go : bool then fork_off_child else ret tt.

(** Lines 793-825. *)
Definition install_signal_handlers : M unit :=
  act (Sigaction SIGPIPE SIG_IGN) ;;
  r <- sigaction SIGINT Handler_sig_int (sigaction_int_answer ans) ;;
  if negb (r =? 0)
  then
    log LOG_ERR (Msg_sigaction_failed SIGINT (errno_of (sigaction_int_answer ans))) ;;
    exit_with 1
  else
    r <- sigaction SIGTERM Handler_sig_term (sigaction_term_answer ans) ;;
    if negb (r =? 0)
    then
      log LOG_ERR (Msg_sigaction_failed SIGTERM (errno_of (sigaction_term_answer ans))) ;;
      exit_with 1
    else
      r <- sigaction SIGUSR1 Handler_sig_usr1 (sigaction_usr1_answer ans) ;;
      if negb (r =? 0)
      then
        log LOG_ERR (Msg_sigaction_failed SIGUSR1 (errno_of (sigaction_usr1_answer ans))) ;;
        exit_with 1
      else ret tt.

(** Lines 827-921; the value is [exit_status]. *)
Definition run_and_shut_down (c : cli) : M Z :=
  i <- do_init ;;
  exit_status <- (if negb (i =? 0)
                  then log LOG_ERR Msg_init_failed ;; ret 1
                  else ret 0) ;;
  exit_status <- (if test_readall c
                  then
                    act Plugin_read_all_once ;;
                    if negb (plugin_read_all_once_status ans =? 0)
                    then log LOG_ERR Msg_read_failed ;; ret 1
                    else ret exit_status
                  else
                    log LOG_INFO Msg_entering_read_loop ;;
                    do_loop ;;                      (* the value is dropped *)
                    ret exit_status) ;;
  log LOG_INFO Msg_exiting_normally ;;
  d <- do_shutdown ;;
  exit_status <- (if negb (d =? 0)
                  then log LOG_ERR Msg_shutdown_failed ;; ret 1
                  else ret exit_status) ;;
  (if daemonize c then pidfile_remove ;; ret tt else ret tt) ;;
  ret exit_status.

Definition main (opts : list cli_option) (extra_arguments : bool) : M Z :=
  c <- read_options opts
         {| configfile := CONFIGFILE; test_config := false;
            test_readall := false; daemonize := true |} ;;
  (if extra_arguments : bool then exit_usage 1 else ret tt) ;;
  act Plugin_init_ctx ;;
  r <- cf_read (configfile c) ;;
  if negb (r =? 0)
  then act (Stderr Err_config_failed) ;; exit_with 1
  else
    basedir <- global_option_get "BaseDir" ;;
    match basedir with
    | None => act (Stderr Err_no_basedir) ;; exit_with 1
    | Some dir =>
        r <- change_basedir dir ;;
        if negb (r =? 0)
        then act (Stderr (Err_change_basedir dir)) ;; exit_with 1
        else
          r <- init_global_variables ;;
          if negb (r =? 0)
          then exit_with 1
          else if test_config c
          then exit_with 0
          else
            daemonization (daemonize c) ;;
            install_signal_handlers ;;
            exit_status <- run_and_shut_down c ;;
            exit_with exit_status
    end.

End Process.

(** The process at start-up: nothing done yet, stop flag clear. *)
Definition boot (env opt fs : gmap string string) (dir : string) : world :=
  {| environ := env; options := opt; files := fs; stream := None;
     cwd := dir; stop_flag := 0; history := [] |}.

(** How often an action occurs in a trace. *)
Definition is_pidfile_create (a : action) : bool :=
  match a with Enter_pidfile_create => true | _ => false end.
Definition is_pidfile_remove (a : action) : bool :=
  match a with Enter_pidfile_remove => true | _ => false end.
Definition is_sendto (a : action) : bool :=
  match a with Sendto _ _ _ _ => true | _ => false end.
Definition count (p : action -> bool) (t : list action) : nat :=
  List.length (List.filter p t).

(** ** Scripts of events *)

(** Signals delivered one after the other, each with the answer of
    pthread_create in its handler. *)
Definition deliver_all (sigs : list (signal * answer)) (s : sched) : sched :=
  fold_left (fun s' d => deliver (fst d) (snd d) s') sigs s.

Definition is_terminate (sg : signal) : bool :=
  match sg with SIGINT | SIGTERM => true | _ => false end.

(** The terminate signals in a sequence of deliveries, and the deliveries
    of terminate signals in a script. *)
Definition terminate_signals (sigs : list (signal * answer)) : nat :=
  List.length (List.filter (fun d => is_terminate (fst d)) sigs).

Definition is_termination (e : event) : bool :=
  match e with Deliver sg _ => is_terminate sg | _ => false end.

Definition terminations (es : list event) : nat :=
  List.length (List.filter is_termination es).

(** One undisturbed tick that reads [now] before its deadline: loop test,
    read-all, clock, sleep test, a nanosleep that runs to its end. *)
Definition on_time_tick (now : Z) : list event :=
  [Test; Read_returns 0; Clock now; Test; Sleep_returns Sleep_done].

(** Every tick of [nows] reads its clock before the deadline it has then,
    the first deadline being [w]. *)
Fixpoint on_time (w i : Z) (nows : list Z) : Prop :=
  match nows with
  | [] => True
  | now :: rest => 0 <= now < w /\ on_time (cdtime_add w i) i rest
  end.

(** The clock readings of line 377 in the run of a script from [s], each
    with the deadline it is compared to. *)
Fixpoint clock_readings (es : list event) (s : sched) : list (Z * Z) :=
  match es with
  | [] => []
  | e :: es' =>
      match do_loop_step e s with
      | Some s' =>
          match e, pc s with
          | Clock now, At_now => (now, wait_until s) :: clock_readings es' s'
          | _, _ => clock_readings es' s'
          end
      | None => []
      end
  end.

(** A reading that is before its deadline. *)
Definition before_deadline (r : Z * Z) : Prop := fst r < snd r.

(** [n] deadlines, each one interval after the one before it. *)
Fixpoint deadlines_from (w i : Z) (n : nat) : list Z :=
  match n with
  | O => []
  | S n' => w :: deadlines_from (cdtime_add w i) i n'
  end.

(** The sleep requests of such ticks. *)
Fixpoint on_time_sleeps (w i : Z) (nows : list Z) : list Z :=
  match nows with
  | [] => []
  | now :: rest => (w - now) :: on_time_sleeps (cdtime_add w i) i rest
  end.

(** A sleep that is interrupted once for every element of [remainders]
    and then runs to its end. *)
Definition interrupted_sleep (remainders : list Z) : list event :=
  concat (map (fun r => [Test; Sleep_returns (Sleep_failed EINTR r)]) remainders)
  ++ [Test; Sleep_returns Sleep_done].

(** Two scheduler states that differ in the value of [loop] at most. *)
Definition same_but_loop (a b : sched) : Prop :=
  flush_threads a = flush_threads b /\ pc a = pc b /\
  interval a = interval b /\ wait_until a = wait_until b /\
  ts_wait a = ts_wait b /\ trace a = trace b.

(** ** Sample surroundings *)

Definition default_options : gmap string string :=
  <["BaseDir" := "/var/lib/collectd"]>
    (<["PIDFile" := "/var/run/collectd.pid"]>
       (<["Hostname" := "localhost"]> ∅)).

(** A reading of decimal numbers for [atoi]. *)
Definition decimal_atoi (str : string) : Z :=
  match NilZero.int_of_string str with
  | Some i => Z.of_int i
  | None => 0
  end.

(** Every call succeeds; the child side of fork; descriptors come out as
    0, 1, 2; [do_loop] sees the events [evs]. *)
Definition calm (evs : list event) : answers :=
  {| cf_read_answer := fun _ o => (0, o ∪ default_options);
     default_interval := 10;
     name_len := 64;
     is_false := fun _ => false;
     libc_atoi := decimal_atoi;
     gethostname_result := Some "localhost"%string;
     getaddrinfo_result := Some [Some "localhost.localdomain"%string];
     strdup_answer := Ok 0;
     chdir_answer := Ok 0;
     mkdir_answer := Ok 0;
     chdir_again_answer := Ok 0;
     socket_answer := Ok 3;
     sendto_answer := Ok 8;
     fork_answer := Ok 0;
     getpid_answer := 4711;
     fopen_answer := Ok 0;
     unlink_fault := None;
     open_answer := Ok 0;
     dup_stdout_answer := Ok 1;
     dup_stderr_answer := Ok 2;
     sigaction_int_answer := Ok 0;
     sigaction_term_answer := Ok 0;
     sigaction_usr1_answer := Ok 0;
     setlocale_answer := true;
     plugin_init_all_status := 0;
     plugin_read_all_once_status := 0;
     plugin_shutdown_all_status := 0;
     loop_events := evs |}.

(** [a], except that the plugin shutdown fails. *)
Definition with_failing_shutdown (a : answers) : answers :=
  {| cf_read_answer := cf_read_answer a;
     default_interval := default_interval a;
     name_len := name_len a;
     is_false := is_false a;
     libc_atoi := libc_atoi a;
     gethostname_result := gethostname_result a;
     getaddrinfo_result := getaddrinfo_result a;
     strdup_answer := strdup_answer a;
     chdir_answer := chdir_answer a;
     mkdir_answer := mkdir_answer a;
     chdir_again_answer := chdir_again_answer a;
     socket_answer := socket_answer a;
     sendto_answer := sendto_answer a;
     fork_answer := fork_answer a;
     getpid_answer := getpid_answer a;
     fopen_answer := fopen_answer a;
     unlink_fault := unlink_fault a;
     open_answer := open_answer a;
     dup_stdout_answer := dup_stdout_answer a;
     dup_stderr_answer := dup_stderr_answer a;
     sigaction_int_answer := sigaction_int_answer a;
     sigaction_term_answer := sigaction_term_answer a;
     sigaction_usr1_answer := sigaction_usr1_answer a;
     setlocale_answer := setlocale_answer a;
     plugin_init_all_status := plugin_init_all_status a;
     plugin_read_all_once_status := plugin_read_all_once_status a;
     plugin_shutdown_all_status := 1;
     loop_events := loop_events a |}.

(** The computation [m] extends the history, and what it adds holds at
    most [c] entries into [pidfile_create] and [r] into [pidfile_remove]. *)
Definition calls_at_most {A : Type} (c r : nat) (m : M A) : Prop :=
  forall w : world,
    exists t : list action,
      history (snd (m w)) = history w ++ t /\
      (count is_pidfile_create t <= c)%nat /\
      (count is_pidfile_remove t <= r)%nat.

(** ** Measures on scripts and traces *)

(** The instructions of [do_loop] in a script, as opposed to deliveries. *)
Definition is_program_step (e : event) : bool :=
  match e with Deliver _ _ => false | _ => true end.

Definition program_steps (es : list event) : nat :=
  List.length (List.filter is_program_step es).

(** How many instructions [do_loop] is away from its [return] at most,
    once the stop flag is set. *)
Definition steps_to_return (p : program_point) : nat :=
  match p with
  | Returned _ => 0
  | At_loop_test => 1
  | At_entry | At_sleep_test => 2
  | At_now | In_nanosleep => 3
  | In_read_all => 4
  end.

(** The calls with which a tick starts work: the read-all and the sleep. *)
Definition starts_work (a : action) : bool :=
  match a with Plugin_read_all | Nanosleep _ => true | _ => false end.

Definition is_success (a : answer) : bool :=
  match a with Ok _ => true | Err _ => false end.

Definition is_pthread_create (a : action) : bool :=
  match a with Pthread_create_do_flush => true | _ => false end.

(** The deliveries of SIGUSR1 in a script, and those among them in which
    pthread_create succeeds. *)
Definition is_flush_request (e : event) : bool :=
  match e with Deliver SIGUSR1 _ => true | _ => false end.

Definition is_flush_start (e : event) : bool :=
  match e with Deliver SIGUSR1 thread => is_success thread | _ => false end.

(** The events that bear on the schedule: the instructions of [do_loop]
    and the deliveries of SIGINT and SIGTERM. *)
Definition bears_on_schedule (e : event) : bool :=
  match e with Deliver sg _ => is_terminate sg | _ => true end.

(** Two scheduler states that differ at most in what the handler of
    SIGUSR1 leaves behind: the thread count and the pthread_create calls in
    the trace. *)
Definition same_but_flush (a b : sched) : Prop :=
  loop a = loop b /\ pc a = pc b /\ interval a = interval b /\
  wait_until a = wait_until b /\ ts_wait a = ts_wait b /\
  List.filter (fun x => negb (is_pthread_create x)) (trace a) =
  List.filter (fun x => negb (is_pthread_create x)) (trace b).

(** Reading a trace for its pacing: [Some armed] while no read-all has
    followed another one without a nanosleep call or a not-sleeping warning
    in between ([armed]: the next read-all may come), [None] once that has
    happened. *)
Definition pace_step (st : option bool) (a : action) : option bool :=
  match st with
  | None => None
  | Some armed =>
      match a with
      | Plugin_read_all => if armed then Some false else None
      | Nanosleep _ => Some true
      | Log LOG_WARNING (Msg_not_sleeping _) => Some true
      | _ => Some armed
      end
  end.

Definition pace (t : list action) : option bool :=
  fold_left pace_step t (Some true).

(** What the program point says about the pacing of the trace so far. *)
Definition paced_at (s : sched) : Prop :=
  0 <= loop s /\
  match pc s with
  | At_entry => pace (trace s) = Some true
  | At_loop_test => exists armed, pace (trace s) = Some armed /\
                                  (loop s = 0 -> armed = true)
  | In_nanosleep => pace (trace s) = Some true
  | _ => exists armed, pace (trace s) = Some armed
  end.

Definition is_close (a : action) : bool :=
  match a with Close _ => true | _ => false end.
Definition is_socket (a : action) : bool :=
  match a with Socket => true | _ => false end.
Definition is_raise (a : action) : bool :=
  match a with Raise _ => true | _ => false end.
Definition is_mkdir (a : action) : bool :=
  match a with Mkdir _ _ => true | _ => false end.

(** ** What a computation adds to the history, and how it ends *)

(** A condition on outcomes: [Qret] on the value returned, [Qexit] on an
    exit status, [Qabort] after a failed assertion, [Qother] if the
    computation is undefined or blocked. *)
Definition post {A : Type} (Qret : A -> Prop) (Qexit : Z -> Prop)
    (Qabort Qother : Prop) (o : outcome A) : Prop :=
  match o with
  | Ret a => Qret a
  | Exit status => Qexit status
  | Aborted => Qabort
  | Undefined | Blocked => Qother
  end.

(** [m] only adds actions that satisfy [P] to the history, and its outcome
    satisfies [Q]. *)
Definition adds_only {A : Type} (P : action -> bool) (Q : outcome A -> Prop)
    (m : M A) : Prop :=
  forall w : world,
    exists t : list action,
      history (snd (m w)) = history w ++ t /\ forallb P t = true /\ Q (fst (m w)).

(** The actions of start-up before the fork: usage, configuration, working
    directory, global variables, and messages. *)
Definition is_startup_action (a : action) : bool :=
  match a with
  | Print_usage | Plugin_init_ctx | Cf_read _ | Stderr _ | Log _ _
  | Chdir _ | Mkdir _ _ | Init_global_variables
  | Call_gethostname | Call_getaddrinfo _ | Call_freeaddrinfo => true
  | _ => false
  end.

(** The actions of start-up that come before [init_global_variables]. *)
Definition is_before_init (a : action) : bool :=
  match a with
  | Print_usage | Plugin_init_ctx | Cf_read _ | Stderr _ | Log _ _
  | Chdir _ | Mkdir _ _ => true
  | _ => false
  end.

(** [m] either ends the process with an exit status or comes to the call
    of [init_global_variables], and what it has added to the history by
    then are actions of the start-up before that call. *)
Definition exits_or_reaches_init (ans : answers) (m : M Z) : Prop :=
  forall w : world,
    (exists (status : Z) (w1 : world) (t : list action),
       m w = (Exit status, w1) /\ history w1 = history w ++ t /\
       forallb is_before_init t = true) \/
    (exists (k : Z -> M Z) (w1 : world) (t : list action),
       history w1 = history w ++ t /\ forallb is_before_init t = true /\
       m w = bind (init_global_variables ans) k w1).

(** The actions of a foreground run that neither daemonizes nor talks to a
    supervisor nor enters the scheduler loop. *)
Definition is_foreground_test_action (a : action) : bool :=
  match a with
  | Fork | Setsid | Enter_pidfile_create | Enter_pidfile_remove
  | Fopen _ | Fprintf _ | Fclose | Unlink _ | Raise _ | Socket
  | Sendto _ _ _ _ | Close _ | Open _ | Dup _ | Plugin_read_all
  | Nanosleep _ => false
  | _ => true
  end.

(** The calls into the plugins that do work. *)
Definition is_plugin_work (a : action) : bool :=
  match a with
  | Plugin_init_all | Plugin_read_all | Plugin_read_all_once
  | Plugin_shutdown_all => true
  | _ => false
  end.

(** The option loop read off the list of options: the status of the usage
    exit it ends in, if any, and the last of the [-C] arguments. *)
Fixpoint usage_exit (opts : list cli_option) : option Z :=
  match opts with
  | [] => None
  | Opt_h :: _ => Some 0
  | Opt_unknown :: _ => Some 1
  | _ :: rest => usage_exit rest
  end.

Fixpoint last_configfile (opts : list cli_option) (file : string) : string :=
  match opts with
  | [] => file
  | Opt_C f :: rest => last_configfile rest f
  | _ :: rest => last_configfile rest file
  end.

Fixpoint last_pidfile (opts : list cli_option) (file : option string)
    : option string :=
  match opts with
  | [] => file
  | Opt_P f :: rest => last_pidfile rest (Some f)
  | _ :: rest => last_pidfile rest file
  end.

Definition is_Opt_t (o : cli_option) : bool :=
  match o with Opt_t => true | _ => false end.
Definition is_Opt_T (o : cli_option) : bool :=
  match o with Opt_T => true | _ => false end.
Definition is_Opt_f (o : cli_option) : bool :=
  match o with Opt_f => true | _ => false end.

Definition is_failure (a : answer) : bool :=
  match a with Err _ => true | Ok _ => false end.

(** [a], except that the handler for SIGTERM cannot be installed. *)
Definition with_failing_term (a : answers) : answers :=
  {| cf_read_answer := cf_read_answer a;
     default_interval := default_interval a;
     name_len := name_len a;
     is_false := is_false a;
     libc_atoi := libc_atoi a;
     gethostname_result := gethostname_result a;
     getaddrinfo_result := getaddrinfo_result a;
     strdup_answer := strdup_answer a;
     chdir_answer := chdir_answer a;
     mkdir_answer := mkdir_answer a;
     chdir_again_answer := chdir_again_answer a;
     socket_answer := socket_answer a;
     sendto_answer := sendto_answer a;
     fork_answer := fork_answer a;
     getpid_answer := getpid_answer a;
     fopen_answer := fopen_answer a;
     unlink_fault := unlink_fault a;
     open_answer := open_answer a;
     dup_stdout_answer := dup_stdout_answer a;
     dup_stderr_answer := dup_stderr_answer a;
     sigaction_int_answer := sigaction_int_answer a;
     sigaction_term_answer := Err EINVAL;
     sigaction_usr1_answer := sigaction_usr1_answer a;
     setlocale_answer := setlocale_answer a;
     plugin_init_all_status := plugin_init_all_status a;
     plugin_read_all_once_status := plugin_read_all_once_status a;
     plugin_shutdown_all_status := plugin_shutdown_all_status a;
     loop_events := loop_events a |}.

(** ** The keepalive variant of the scheduler: [do_shot] (lines 584-610) *)

Module Keepalive.

Inductive call :=
| Info_called | Info_skipped | Read_all | Background_activity_wait.

Section WithConstants.

(** [CDTIME_T_TO_DOUBLE (d) < 1.0] for a duration [d]; the macro
    (utils_time.h) is not part of the sources at hand. *)
Variable under_one_second : Z -> bool.

(** One call of [do_shot] with the clock at [now]: what it does and the
    value of the static variable [last_call] after it. *)
Definition do_shot (now : Z) (last_call : Z) : list call * Z :=
  if (now <=? last_call) || under_one_second (cdtime_sub now last_call)
  then ([Info_called; Info_skipped], last_call)
  else ([Info_called; Read_all; Background_activity_wait], now).

(** A sequence of calls, the clock reading [nows] one after the other:
    the clock values at which the plugins were read, and [last_call] at the
    end. *)
Fixpoint do_shots (nows : list Z) (last_call : Z) : list Z * Z :=
  match nows with
  | [] => ([], last_call)
  | now :: rest =>
      let '(t, last_call') := do_shot now last_call in
      let '(reads, final) := do_shots rest last_call' in
      (if existsb (fun c => match c with Read_all => true | _ => false end) t
       then now :: reads else reads,
       final)
  end.

(** Each clock value of [reads] is later than the one before it, [prev]
    first, and not under one second after it. *)
Fixpoint spaced (prev : Z) (reads : list Z) : Prop :=
  match reads with
  | [] => True
  | t :: rest =>
      prev < t /\ under_one_second (cdtime_sub t prev) = false /\ spaced t rest
  end.

End WithConstants.

End Keepalive.

(** * Properties *)

(** ** Arithmetic of the two integer types *)

Lemma int_wrap_small (x : Z) : INT_MIN <= x <= INT_MAX -> int_wrap x = x.
Proof.
  unfold INT_MIN, INT_MAX, int_wrap. intros H.
  rewrite Z.mod_small; lia.
Qed.

Lemma cdtime_wrap_small (x : Z) : is_cdtime x -> cdtime_wrap x = x.
Proof. unfold is_cdtime, cdtime_wrap. intros H. apply Z.mod_small. exact H. Qed.

Lemma cdtime_wrap_is_cdtime (x : Z) : is_cdtime (cdtime_wrap x).
Proof.
  unfold is_cdtime, cdtime_wrap. apply Z.mod_pos_bound. reflexivity.
Qed.

Lemma cdtime_sub_exact (a b : Z) :
  is_cdtime a -> is_cdtime b -> b <= a -> cdtime_sub a b = a - b.
Proof.
  unfold is_cdtime, cdtime_sub, cdtime_wrap. intros Ha Hb Hle.
  apply Z.mod_small. lia.
Qed.

(** ** The scheduler loop *)

Lemma nanosleep_requests_app (t u : list action) :
  nanosleep_requests (t ++ u) = nanosleep_requests t ++ nanosleep_requests u.
Proof. unfold nanosleep_requests. apply omap_app. Qed.

(** What the clock reading at line 377 does when the deadline has passed. *)
Lemma step_overrun (s : sched) (now : Z) :
  pc s = At_now -> wait_until s <= now ->
  do_loop_step (Clock now) s =
    Some (set_pc At_loop_test
           (set_wait_until (cdtime_add now (interval s))
             (emit (Log LOG_WARNING
                      (Msg_not_sleeping (cdtime_sub now (wait_until s)))) s))).
Proof.
  intros Hpc Hle. unfold do_loop_step. rewrite Hpc.
  destruct (Z.leb_spec (wait_until s) now) as [_ | Hlt]; [reflexivity | lia].
Qed.

(** What it does when the deadline is still ahead. *)
Lemma step_on_time (s : sched) (now : Z) :
  pc s = At_now -> now < wait_until s ->
  do_loop_step (Clock now) s =
    Some (set_pc At_sleep_test
           (set_wait_until (cdtime_add (wait_until s) (interval s))
             (set_ts_wait (cdtime_sub (wait_until s) now) s))).
Proof.
  intros Hpc Hlt. unfold do_loop_step. rewrite Hpc.
  destruct (Z.leb_spec (wait_until s) now) as [Hle | _]; [lia | reflexivity].
Qed.

(** C1.  In [do_loop], whenever the clock read after the read-all call is
    at or past the deadline ([now >= wait_until]), the loop logs a warning
    that carries the overrun [now - wait_until], sets the deadline to
    [now + interval] (not to the previous deadline plus the interval) and
    goes straight back to the loop test without a nanosleep: with the stop
    flag clear the next read-all starts at once, and a following tick that
    finishes before the new deadline goes to sleep instead of reading
    again, so the ticks that were overrun are dropped, not queued. *)
Theorem do_loop_overrun_drops_tick :
  forall (s : sched) (now : Z),
    pc s = At_now ->
    is_cdtime now -> is_cdtime (wait_until s) ->
    wait_until s <= now ->
    exists s',
      do_loop_step (Clock now) s = Some s' /\
      trace s' =
        trace s ++ [Log LOG_WARNING (Msg_not_sleeping (now - wait_until s))] /\
      wait_until s' = cdtime_add now (interval s) /\
      (0 <= interval s -> now + interval s < cdtime_modulus ->
       wait_until s' = now + interval s) /\
      pc s' = At_loop_test /\
      nanosleep_requests (trace s') = nanosleep_requests (trace s) /\
      loop s' = loop s /\ interval s' = interval s /\
      (loop s = 0 ->
       do_loop_step Test s' = Some (set_pc In_read_all (emit Plugin_read_all s'))) /\
      (loop s = 0 ->
       forall status now', now' < wait_until s' ->
         exists s'',
           do_loop_run [Test; Read_returns status; Clock now'] s' = Some s'' /\
           pc s'' = At_sleep_test /\
           ts_wait s'' = cdtime_sub (wait_until s') now' /\
           nanosleep_requests (trace s'') = nanosleep_requests (trace s)).
Proof.
  intros s now Hpc Hnow Hw Hle.
  eexists. split; [apply step_overrun; assumption |].
  rewrite (cdtime_sub_exact now (wait_until s)) by assumption.
  cbn [trace wait_until pc loop interval set_pc set_wait_until emit].
  repeat split.
  - intros Hi Hsum. apply cdtime_wrap_small. unfold is_cdtime in *. lia.
  - rewrite nanosleep_requests_app. cbn. apply app_nil_r.
  - intros Hloop. unfold do_loop_step. cbn [pc loop set_pc set_wait_until emit].
    rewrite Hloop. reflexivity.
  - intros Hloop status now' Hlt.
    eexists. split.
    + cbn [do_loop_run]. unfold do_loop_step at 1.
      cbn [pc loop set_pc set_wait_until emit]. rewrite Hloop. cbn [Z.eqb].
      unfold do_loop_step at 1. cbn [pc loop set_pc set_wait_until emit].
      rewrite step_on_time; [reflexivity | reflexivity | exact Hlt].
    + cbn [trace wait_until pc loop interval ts_wait
             set_pc set_wait_until set_ts_wait emit].
      repeat split.
      rewrite !nanosleep_requests_app. cbn. rewrite !app_nil_r. reflexivity.
Qed.

Lemma do_loop_overrun_drops_tick_witness :
  exists s',
    do_loop_step (Clock 130)
      {| loop := 0; flush_threads := 0; pc := At_now; interval := 50;
         wait_until := 100; ts_wait := 0; trace := [Plugin_read_all] |} = Some s' /\
    trace s' = [Plugin_read_all] ++ [Log LOG_WARNING (Msg_not_sleeping (130 - 100))] /\
    wait_until s' = cdtime_add 130 50.
Proof.
  destruct (do_loop_overrun_drops_tick
              {| loop := 0; flush_threads := 0; pc := At_now; interval := 50;
                 wait_until := 100; ts_wait := 0; trace := [Plugin_read_all] |}
              130 eq_refl)
    as (s' & Hstep & Htrace & Hwait & _).
  - unfold is_cdtime, cdtime_modulus. lia.
  - unfold is_cdtime, cdtime_modulus. cbn. lia.
  - cbn. lia.
  - exists s'. repeat split; assumption.
Defined.

Lemma do_loop_run_app (es es' : list event) (s : sched) :
  do_loop_run (es ++ es') s =
    match do_loop_run es s with
    | Some s' => do_loop_run es' s'
    | None => None
    end.
Proof.
  revert s. induction es as [| e es IH]; intros s; cbn [do_loop_run app].
  - reflexivity.
  - destruct (do_loop_step e s) as [s' |]; [apply IH | reflexivity].
Qed.

(** One undisturbed tick that reads the clock before its deadline. *)
Lemma on_time_tick_run (s : sched) (now : Z) :
  pc s = At_loop_test -> loop s = 0 ->
  is_cdtime (wait_until s) -> 0 <= now < wait_until s ->
  do_loop_run (on_time_tick now) s =
    Some {| loop := 0; flush_threads := flush_threads s; pc := At_loop_test;
            interval := interval s;
            wait_until := cdtime_add (wait_until s) (interval s);
            ts_wait := wait_until s - now;
            trace := (trace s ++ [Plugin_read_all])
                       ++ [Nanosleep (wait_until s - now)] |}.
Proof.
  destruct s as [l f p i w t tr]. cbn [pc loop wait_until interval flush_threads
                                        ts_wait trace].
  intros -> -> Hw Hnow.
  unfold on_time_tick. cbn [do_loop_run].
  unfold do_loop_step at 1. cbn.
  destruct (Z.leb_spec w now) as [Hle | _]; [lia |].
  cbn. rewrite cdtime_sub_exact; [reflexivity | assumption | | lia].
  unfold is_cdtime in *. lia.
Qed.

(** Consecutive undisturbed on-time ticks: every deadline is the one before
    plus the interval, whatever the clock read in between. *)
Lemma on_time_ticks_run (nows : list Z) :
  forall s : sched,
    pc s = At_loop_test -> loop s = 0 -> is_cdtime (wait_until s) ->
    on_time (wait_until s) (interval s) nows ->
    exists s',
      do_loop_run (concat (map on_time_tick nows)) s = Some s' /\
      pc s' = At_loop_test /\ loop s' = 0 /\ interval s' = interval s /\
      wait_until s' =
        cdtime_wrap (wait_until s + Z.of_nat (List.length nows) * interval s) /\
      nanosleep_requests (trace s') =
        nanosleep_requests (trace s)
          ++ on_time_sleeps (wait_until s) (interval s) nows.
Proof.
  induction nows as [| now rest IH]; intros s Hpc Hloop Hw Hon.
  - exists s. cbn [map concat do_loop_run List.length on_time_sleeps].
    repeat split; try assumption.
    + rewrite Z.mul_0_l, Z.add_0_r. symmetry. apply cdtime_wrap_small. exact Hw.
    + symmetry. apply app_nil_r.
  - destruct Hon as [Hnow Hrest].
    cbn [map concat]. rewrite do_loop_run_app.
    rewrite (on_time_tick_run s now Hpc Hloop Hw Hnow).
    match goal with |- context [do_loop_run _ ?s1] => set (s1' := s1) end.
    destruct (IH s1') as (s' & Hrun & Hpc' & Hloop' & Hint' & Hwait' & Hreq');
      try reflexivity.
    + apply cdtime_wrap_is_cdtime.
    + exact Hrest.
    + exists s'. split; [exact Hrun |]. repeat split; try assumption.
      * rewrite Hwait'. subst s1'. cbn [wait_until interval List.length].
        rewrite Nat2Z.inj_succ. unfold cdtime_add, cdtime_wrap.
        rewrite Zplus_mod_idemp_l. f_equal. lia.
      * rewrite Hreq'. subst s1'. cbn [trace wait_until interval on_time_sleeps].
        rewrite !nanosleep_requests_app. cbn. rewrite !app_nil_r.
        rewrite <- app_assoc. reflexivity.
Qed.

(** A tick whose read-all is over before the deadline (the clock reads 5,
    the deadline is 10) but during which SIGTERM arrived: the sleep test
    finds the stop flag set, nanosleep is never called, and the loop
    returns; it has slept for 0, not for 10 - 5. *)
Lemma do_loop_stopped_tick_does_not_sleep :
  do_loop_run
    [Clock 0; Test; Deliver SIGTERM (Ok 0); Read_returns 0; Clock 5; Test; Test]
    (do_loop_enter 0 10)
  = Some {| loop := 1; flush_threads := 0; pc := Returned 0; interval := 10;
            wait_until := 20; ts_wait := 5; trace := [Plugin_read_all] |}
  /\ 5 < 10
  /\ nanosleep_requests [Plugin_read_all] = [].
Proof. repeat split. Qed.

(** Over any script, whatever is delivered and however the sleeps end: as
    long as every clock reading of line 377 is before its deadline, the
    deadlines the readings are compared to are one interval apart, and so
    is the deadline at the end. *)
Lemma on_time_deadlines (es : list event) :
  forall s s' : sched,
    pc s <> At_entry -> is_cdtime (wait_until s) ->
    do_loop_run es s = Some s' ->
    Forall before_deadline (clock_readings es s) ->
    map snd (clock_readings es s) =
      deadlines_from (wait_until s) (interval s)
        (List.length (clock_readings es s)) /\
    wait_until s' =
      cdtime_wrap (wait_until s
                   + Z.of_nat (List.length (clock_readings es s)) * interval s).
Proof.
  induction es as [| e es IH]; intros s s' Hpc Hw Hrun Hon.
  - injection Hrun as <-. cbn. split; [reflexivity |].
    rewrite Z.add_0_r. symmetry. apply cdtime_wrap_small. exact Hw.
  - cbn [do_loop_run clock_readings] in *.
    destruct (do_loop_step e s) as [s1 |] eqn:Hstep; [| discriminate Hrun].
    assert (Hkeep : (exists now, e = Clock now /\ pc s = At_now) \/
                    (pc s1 <> At_entry /\ wait_until s1 = wait_until s /\
                     interval s1 = interval s /\
                     clock_readings (e :: es) s = clock_readings es s1)).
    { cbn [clock_readings]. rewrite Hstep. unfold do_loop_step in Hstep.
      destruct e as [sg a | t | | st | [| errno rem]];
        destruct (pc s) eqn:Hp; try discriminate Hstep;
        try (left; eexists; split; reflexivity);
        try congruence;
        right;
        try (destruct (loop s =? 0));
        try (destruct (errno =? EINTR));
        injection Hstep as <-;
        try (destruct sg);
        cbn [pc wait_until interval deliver set_loop set_pc set_wait_until
               set_ts_wait emit sig_usr1_handler];
        rewrite ?Hp; repeat split; congruence. }
    destruct Hkeep as [(now & -> & Hp) | (Hpc1 & Hw1 & Hi1 & Hcr)].
    + rewrite Hp in Hon |- *.
      apply Forall_cons in Hon. destruct Hon as [Hnow Hon].
      unfold before_deadline in Hnow. cbn [fst snd] in Hnow.
      rewrite step_on_time in Hstep by assumption.
      injection Hstep as <-.
      match type of Hrun with do_loop_run es ?s2 = _ => set (s1 := s2) in * end.
      destruct (IH s1 s') as [Hd Hend]; try assumption.
      * subst s1. cbn. discriminate.
      * subst s1. cbn. apply cdtime_wrap_is_cdtime.
      * cbn [map snd List.length deadlines_from]. split.
        -- f_equal. exact Hd.
        -- rewrite Hend. subst s1. cbn [wait_until interval set_pc set_wait_until
                                           set_ts_wait].
           rewrite Nat2Z.inj_succ. unfold cdtime_add, cdtime_wrap.
           rewrite Zplus_mod_idemp_l. f_equal. lia.
    + cbn [clock_readings] in Hcr. rewrite Hstep in Hcr.
      rewrite Hcr in Hon |- *.
      destruct (IH s1 s') as [Hd Hend]; try assumption.
      * rewrite Hw1. exact Hw.
      * rewrite Hw1, Hi1 in Hd, Hend. split; assumption.
Qed.

(** C2 (amended).  In [do_loop], every iteration that reads the clock
    before its deadline ([now < wait_until]) requests a sleep of exactly
    [wait_until - now], which is carried out, in one nanosleep call of
    that length, when the stop flag is still clear at the sleep test and
    nanosleep runs to its end; and the next deadline is
    [wait_until + interval], anchored to the previous deadline and not to
    the wake time, the first deadline being the clock at loop entry plus
    the interval.  Hence across consecutive on-time ticks the deadlines
    advance by exactly one interval each, with no cumulative drift,
    whatever the clock reads within each tick: so it is for undisturbed
    ticks, with the sleeps they make, and so it is over any script of
    events, whatever signals are delivered and whether the sleeps run to
    their end, are interrupted or are skipped.  (The sums are those of
    cdtime_t, modulo 2^64, and the plain sums as long as these do not
    overflow.) *)
Theorem do_loop_on_time_anchored :
  forall (s : sched) (now : Z),
    pc s = At_now ->
    is_cdtime (wait_until s) -> 0 <= now < wait_until s ->
    (exists s1,
       do_loop_step (Clock now) s = Some s1 /\
       pc s1 = At_sleep_test /\
       ts_wait s1 = wait_until s - now /\
       wait_until s1 = cdtime_add (wait_until s) (interval s) /\
       (0 <= interval s -> wait_until s + interval s < cdtime_modulus ->
        wait_until s1 = wait_until s + interval s) /\
       trace s1 = trace s /\
       (loop s = 0 ->
        exists s3,
          do_loop_run [Test; Sleep_returns Sleep_done] s1 = Some s3 /\
          pc s3 = At_loop_test /\
          trace s3 = trace s ++ [Nanosleep (wait_until s - now)] /\
          wait_until s3 = cdtime_add (wait_until s) (interval s))) /\
    (forall l i t,
       do_loop_step (Clock t) (do_loop_enter l i) =
         Some (set_pc At_loop_test
                 (set_wait_until (cdtime_add t i) (do_loop_enter l i)))) /\
    (forall (s0 : sched) (nows : list Z),
       pc s0 = At_loop_test -> loop s0 = 0 -> is_cdtime (wait_until s0) ->
       on_time (wait_until s0) (interval s0) nows ->
       exists s',
         do_loop_run (concat (map on_time_tick nows)) s0 = Some s' /\
         wait_until s' =
           cdtime_wrap (wait_until s0
                        + Z.of_nat (List.length nows) * interval s0) /\
         nanosleep_requests (trace s') =
           nanosleep_requests (trace s0)
             ++ on_time_sleeps (wait_until s0) (interval s0) nows) /\
    (forall (es : list event) (s0 s' : sched),
       pc s0 <> At_entry -> is_cdtime (wait_until s0) ->
       do_loop_run es s0 = Some s' ->
       Forall before_deadline (clock_readings es s0) ->
       map snd (clock_readings es s0) =
         deadlines_from (wait_until s0) (interval s0)
           (List.length (clock_readings es s0)) /\
       wait_until s' =
         cdtime_wrap (wait_until s0
                      + Z.of_nat (List.length (clock_readings es s0))
                        * interval s0) /\
       (0 <= interval s0 ->
        wait_until s0
        + Z.of_nat (List.length (clock_readings es s0)) * interval s0
        < cdtime_modulus ->
        wait_until s' =
          wait_until s0
          + Z.of_nat (List.length (clock_readings es s0)) * interval s0)) /\
    (forall (es : list event) (l i t0 : Z) (s' : sched),
       let readings := clock_readings (Clock t0 :: es) (do_loop_enter l i) in
       do_loop_run (Clock t0 :: es) (do_loop_enter l i) = Some s' ->
       Forall before_deadline readings ->
       map snd readings =
         deadlines_from (cdtime_add t0 i) i (List.length readings) /\
       wait_until s' =
         cdtime_wrap (t0 + i + Z.of_nat (List.length readings) * i)).
Proof.
  intros s now Hpc Hw Hnow. split; [| split; [| split; [| split]]].
  - eexists. split; [apply step_on_time; [assumption | lia] |].
    cbn [pc ts_wait wait_until trace loop interval set_pc set_wait_until
           set_ts_wait].
    rewrite cdtime_sub_exact by (unfold is_cdtime in *; lia).
    repeat split.
    { intros Hi Hsum. apply cdtime_wrap_small. unfold is_cdtime in *. lia. }
    intros Hloop. eexists. split.
    + cbn [do_loop_run]. unfold do_loop_step at 1.
      cbn [pc loop set_pc set_wait_until set_ts_wait]. rewrite Hloop.
      cbn [Z.eqb]. unfold do_loop_step.
      cbn [pc loop set_pc set_wait_until set_ts_wait emit]. reflexivity.
    + cbn [pc ts_wait wait_until trace loop set_pc set_wait_until
             set_ts_wait emit]. repeat split.
  - intros l i t. reflexivity.
  - intros s0 nows Hpc0 Hloop0 Hw0 Hon.
    destruct (on_time_ticks_run nows s0 Hpc0 Hloop0 Hw0 Hon)
      as (s' & Hrun & _ & _ & _ & Hwait & Hreq).
    exists s'. repeat split; assumption.
  - intros es s0 s' Hpc0 Hw0 Hrun Hon.
    destruct (on_time_deadlines es s0 s' Hpc0 Hw0 Hrun Hon) as [Hd Hend].
    split; [exact Hd |]. split; [exact Hend |].
    intros Hi Hsum. rewrite Hend. apply cdtime_wrap_small.
    unfold is_cdtime in *. nia.
  - intros es l i t0 s'. cbv zeta.
    change (clock_readings (Clock t0 :: es) (do_loop_enter l i))
      with (clock_readings es
              (set_pc At_loop_test
                 (set_wait_until (cdtime_add t0 i) (do_loop_enter l i)))).
    change (do_loop_run (Clock t0 :: es) (do_loop_enter l i))
      with (do_loop_run es
              (set_pc At_loop_test
                 (set_wait_until (cdtime_add t0 i) (do_loop_enter l i)))).
    intros Hrun Hon.
    pose proof (on_time_deadlines es
                  (set_pc At_loop_test
                     (set_wait_until (cdtime_add t0 i) (do_loop_enter l i))) s')
      as Hgen.
    cbn [pc wait_until interval set_pc set_wait_until do_loop_enter] in Hgen.
    destruct Hgen as [Hd Hend];
      [discriminate | apply cdtime_wrap_is_cdtime | exact Hrun | exact Hon |].
    split; [exact Hd |].
    rewrite Hend. unfold cdtime_add, cdtime_wrap.
    rewrite Zplus_mod_idemp_l. reflexivity.
Qed.

Lemma do_loop_on_time_anchored_witness :
  exists s1,
    do_loop_step (Clock 70)
      {| loop := 0; flush_threads := 0; pc := At_now; interval := 50;
         wait_until := 100; ts_wait := 0; trace := [Plugin_read_all] |} = Some s1 /\
    ts_wait s1 = 100 - 70 /\
    wait_until s1 = cdtime_add 100 50.
Proof.
  destruct (do_loop_on_time_anchored
              {| loop := 0; flush_threads := 0; pc := At_now; interval := 50;
                 wait_until := 100; ts_wait := 0; trace := [Plugin_read_all] |}
              70 eq_refl)
    as [(s1 & Hstep & _ & Hts & Hwait & _) _].
  - unfold is_cdtime, cdtime_modulus. cbn. lia.
  - cbn. lia.
  - exists s1. repeat split; assumption.
Defined.

(** ** The stop flag *)

Lemma int_wrap_range (x : Z) : INT_MIN <= int_wrap x <= INT_MAX.
Proof.
  unfold INT_MIN, INT_MAX, int_wrap.
  pose proof (Z.mod_pos_bound (x + 2 ^ 31) (2 ^ 32) eq_refl). lia.
Qed.

Lemma int_wrap_add_l (x y : Z) : int_wrap (int_wrap x + y) = int_wrap (x + y).
Proof.
  unfold int_wrap.
  replace ((x + 2 ^ 31) mod 2 ^ 32 - 2 ^ 31 + y + 2 ^ 31)
    with ((x + 2 ^ 31) mod 2 ^ 32 + y) by lia.
  replace (x + y + 2 ^ 31) with ((x + 2 ^ 31) + y) by lia.
  rewrite Zplus_mod_idemp_l. reflexivity.
Qed.

Lemma loop_deliver (sg : signal) (a : answer) (s : sched) :
  loop (deliver sg a s) = if is_terminate sg then int_wrap (loop s + 1) else loop s.
Proof. destruct sg; reflexivity. Qed.

Lemma deliver_all_cons (d : signal * answer) (sigs : list (signal * answer))
    (s : sched) :
  deliver_all (d :: sigs) s = deliver_all sigs (deliver (fst d) (snd d) s).
Proof. reflexivity. Qed.

Lemma terminate_signals_cons (d : signal * answer) (sigs : list (signal * answer)) :
  terminate_signals (d :: sigs) =
    if is_terminate (fst d) then S (terminate_signals sigs)
    else terminate_signals sigs.
Proof.
  unfold terminate_signals. cbn [List.filter].
  destruct (is_terminate (fst d)); reflexivity.
Qed.

Lemma terminations_cons (e : event) (es : list event) :
  terminations (e :: es) =
    if is_termination e then S (terminations es) else terminations es.
Proof.
  unfold terminations. cbn [List.filter]. destruct (is_termination e); reflexivity.
Qed.

(** The flag after a run of deliveries: the number of terminate signals
    added to it, wrapped. *)
Lemma loop_deliver_all (sigs : list (signal * answer)) :
  forall s : sched,
    INT_MIN <= loop s <= INT_MAX ->
    loop (deliver_all sigs s) =
      int_wrap (loop s + Z.of_nat (terminate_signals sigs)).
Proof.
  induction sigs as [| d sigs IH]; intros s Hr.
  - cbn. rewrite Z.add_0_r. symmetry. apply int_wrap_small. exact Hr.
  - rewrite deliver_all_cons, IH.
    + rewrite loop_deliver, terminate_signals_cons.
      destruct (is_terminate (fst d)).
      * rewrite int_wrap_add_l, Nat2Z.inj_succ. f_equal. lia.
      * reflexivity.
    + rewrite loop_deliver. destruct (is_terminate (fst d));
        [apply int_wrap_range | exact Hr].
Qed.

Lemma terminate_signals_repeat_SIGTERM (a : answer) (n : nat) :
  terminate_signals (repeat (SIGTERM, a) n) = n.
Proof.
  induction n as [| n IH]; [reflexivity |].
  cbn [repeat]. rewrite terminate_signals_cons. cbn. now rewrite IH.
Qed.

(** Under the bound that keeps [loop++] from overflowing, deliveries keep a
    non-negative flag non-negative and never lower it. *)
Lemma loop_deliver_all_bounded (sigs : list (signal * answer)) (s : sched) :
  0 <= loop s -> loop s + Z.of_nat (terminate_signals sigs) <= INT_MAX ->
  loop (deliver_all sigs s) = loop s + Z.of_nat (terminate_signals sigs).
Proof.
  intros H0 Hmax.
  rewrite loop_deliver_all by (unfold INT_MIN, INT_MAX in *; lia).
  apply int_wrap_small. unfold INT_MIN, INT_MAX in *. lia.
Qed.

Lemma same_but_loop_step (e : event) (a b : sched) :
  same_but_loop a b -> loop a <> 0 -> loop b <> 0 ->
  match do_loop_step e a, do_loop_step e b with
  | Some a', Some b' =>
      same_but_loop a' b' /\
      loop a' = (if is_termination e then int_wrap (loop a + 1) else loop a) /\
      loop b' = (if is_termination e then int_wrap (loop b + 1) else loop b)
  | None, None => True
  | _, _ => False
  end.
Proof.
  destruct a as [la fa pa ia wa ta tra], b as [lb fb pb ib wb tb trb].
  unfold same_but_loop. cbn [loop flush_threads pc interval wait_until ts_wait trace].
  intros (-> & -> & -> & -> & -> & ->) Ha Hb.
  unfold do_loop_step. cbn [pc loop].
  destruct e as [sg thr | t | | st | [| errno rem]]; destruct pb;
    try exact I;
    cbn [loop wait_until interval ts_wait is_termination];
    rewrite ?(proj2 (Z.eqb_neq la 0) Ha), ?(proj2 (Z.eqb_neq lb 0) Hb);
    try (destruct sg; cbn; repeat split; reflexivity);
    try (destruct (wb <=? t); cbn; repeat split; reflexivity);
    try (destruct (errno =? EINTR); cbn; repeat split; reflexivity);
    cbn; repeat split; reflexivity.
Qed.

(** Two runs of the same script from states that differ only in a
    positive stop flag go through the same program points and actions. *)
Lemma same_but_loop_run (es : list event) :
  forall a b : sched,
    same_but_loop a b ->
    0 < loop a -> loop a + Z.of_nat (terminations es) <= INT_MAX ->
    0 < loop b -> loop b + Z.of_nat (terminations es) <= INT_MAX ->
    match do_loop_run es a, do_loop_run es b with
    | Some a', Some b' => same_but_loop a' b'
    | None, None => True
    | _, _ => False
    end.
Proof.
  induction es as [| e es IH]; intros a b Hab Ha Hamax Hb Hbmax.
  - exact Hab.
  - cbn [do_loop_run].
    pose proof (same_but_loop_step e a b Hab ltac:(lia) ltac:(lia)) as Hstep.
    destruct (do_loop_step e a) as [a' |], (do_loop_step e b) as [b' |];
      try contradiction; [| exact I].
    destruct Hstep as (Hab' & Hla & Hlb).
    rewrite terminations_cons in Hamax, Hbmax.
    unfold INT_MIN, INT_MAX in *.
    apply IH; [exact Hab' | rewrite Hla | rewrite Hla | rewrite Hlb | rewrite Hlb];
      destruct (is_termination e); try lia;
      rewrite int_wrap_small by (unfold INT_MIN, INT_MAX; lia); lia.
Qed.

(** How [do_loop] can come to return. *)
Lemma do_loop_return_points (e : event) (s s' : sched) (status : Z) :
  do_loop_step e s = Some s' ->
  (forall status0, pc s <> Returned status0) ->
  pc s' = Returned status ->
  (status = 0 /\ e = Test /\ pc s = At_loop_test /\ loop s <> 0) \/
  (status = -1 /\ pc s = In_nanosleep /\
   exists errno remaining,
     e = Sleep_returns (Sleep_failed errno remaining) /\ errno <> EINTR).
Proof.
  intros Hstep Hnot Hret. unfold do_loop_step in Hstep.
  destruct e as [sg thr | t | | st | [| errno rem]]; destruct (pc s) eqn:Hpc;
    try discriminate Hstep;
    try (exfalso; eapply Hnot; reflexivity).
  all: try (injection Hstep as <-; destruct sg; cbn in Hret;
            rewrite Hpc in Hret; discriminate Hret).
  all: try (injection Hstep as <-; cbn in Hret; discriminate Hret).
  - destruct (wait_until s <=? t); injection Hstep as <-; cbn in Hret;
      discriminate Hret.
  - destruct (Z.eqb_spec (loop s) 0) as [Heq | Hne];
      injection Hstep as <-; cbn in Hret; [discriminate Hret |].
    injection Hret as <-. left. repeat split. exact Hne.
  - destruct (loop s =? 0); injection Hstep as <-; cbn in Hret;
      discriminate Hret.
  - destruct (Z.eqb_spec errno EINTR) as [Heq | Hne];
      injection Hstep as <-; cbn in Hret; [discriminate Hret |].
    injection Hret as <-. right. repeat split. exists errno, rem. split;
      [reflexivity | exact Hne].
Qed.

Lemma existsb_filter_length {A : Type} (p : A -> bool) (l : list A) :
  existsb p l = true -> (0 < List.length (List.filter p l))%nat.
Proof.
  induction l as [| x l IH]; cbn; [discriminate |].
  destruct (p x); cbn; [lia | exact IH].
Qed.

Lemma same_but_loop_deliver_terminate (sg : signal) (a : answer) (s : sched) :
  is_terminate sg = true -> same_but_loop s (deliver sg a s).
Proof. destruct sg; try discriminate; intros _; repeat split. Qed.

(** From the initial value 0, one SIGINT sets the stop flag, and
    2^32 - 1 further SIGTERM deliveries bring [loop] back to 0: the stop
    condition [loop != 0] holds and then no longer holds.  And a run in
    which the first nanosleep fails with EINVAL leaves the loop from inside
    the sleep, stop flag clear, not at the test at the top. *)
Lemma stop_flag_wraps_to_zero :
  stop_requested (loop (deliver SIGINT (Ok 0) (do_loop_enter 0 10))) = true /\
  stop_requested
    (loop (deliver_all (repeat (SIGTERM, Ok 0) (Z.to_nat (2 ^ 32 - 1)))
             (deliver SIGINT (Ok 0) (do_loop_enter 0 10)))) = false /\
  do_loop_run
    [Clock 0; Test; Read_returns 0; Clock 5; Test;
     Sleep_returns (Sleep_failed EINVAL 0)]
    (do_loop_enter 0 10)
  = Some {| loop := 0; flush_threads := 0; pc := Returned (-1);
            interval := 10; wait_until := 20; ts_wait := 5;
            trace := [Plugin_read_all; Nanosleep 5;
                      Log LOG_ERR (Msg_nanosleep_failed EINVAL)] |}.
Proof.
  split; [reflexivity |]. split; [| reflexivity].
  rewrite loop_deliver_all.
  - rewrite terminate_signals_repeat_SIGTERM, Z2Nat.id by lia.
    reflexivity.
  - rewrite loop_deliver. apply int_wrap_range.
Qed.

(** C3 (amended).  As long as [loop] does not overflow (it is not negative
    and the terminate signals still to come keep it at or below INT_MAX,
    however many other signals are delivered), the stop condition is
    monotonic under every sequence of deliveries of the handled signals:
    once it holds it continues to hold, and it holds after any sequence
    that contains SIGINT or SIGTERM.  Under the same bound two consecutive
    terminate signals have the same effect on [do_loop] as one: on every
    script of events the two runs go through the same program points with
    the same actions and differ in the value of [loop] at most.  [do_loop]
    returns 0 only from the test at the top of an iteration, with the flag
    set; its one other return is -1 after a nanosleep failure that is not
    EINTR; from inside the read-all call the only way on is the return of
    that call. *)
Theorem stop_flag_monotone_and_idempotent :
  (forall (s : sched) (sigs : list (signal * answer)),
     0 <= loop s -> loop s + Z.of_nat (terminate_signals sigs) <= INT_MAX ->
     (stop_requested (loop s) = true ->
      stop_requested (loop (deliver_all sigs s)) = true) /\
     (existsb (fun d => is_terminate (fst d)) sigs = true ->
      stop_requested (loop (deliver_all sigs s)) = true)) /\
  (forall (s : sched) (sg1 sg2 : signal) (a1 a2 : answer) (es : list event),
     is_terminate sg1 = true -> is_terminate sg2 = true ->
     0 <= loop s -> loop s + 2 + Z.of_nat (terminations es) <= INT_MAX ->
     stop_requested (loop (deliver sg1 a1 s)) = true /\
     stop_requested (loop (deliver sg2 a2 (deliver sg1 a1 s))) = true /\
     match do_loop_run es (deliver sg1 a1 s),
           do_loop_run es (deliver sg2 a2 (deliver sg1 a1 s)) with
     | Some a, Some b => same_but_loop a b
     | None, None => True
     | _, _ => False
     end) /\
  (forall (e : event) (s s' : sched) (status : Z),
     do_loop_step e s = Some s' ->
     (forall status0, pc s <> Returned status0) ->
     pc s' = Returned status ->
     (status = 0 /\ e = Test /\ pc s = At_loop_test /\ loop s <> 0) \/
     (status = -1 /\ pc s = In_nanosleep /\
      exists errno remaining,
        e = Sleep_returns (Sleep_failed errno remaining) /\ errno <> EINTR)) /\
  (forall (e : event) (s s' : sched),
     pc s = In_read_all -> do_loop_step e s = Some s' ->
     (pc s' = In_read_all /\ exists sg a, e = Deliver sg a) \/
     (pc s' = At_now /\ exists status, e = Read_returns status)).
Proof.
  split; [| split; [| split]].
  - intros s sigs H0 Hmax.
    pose proof (loop_deliver_all_bounded sigs s H0 Hmax) as Hl.
    unfold stop_requested. rewrite Hl. split.
    + intros Hs. apply negb_true_iff in Hs. apply Z.eqb_neq in Hs.
      apply negb_true_iff. apply Z.eqb_neq. lia.
    + intros Hex. apply existsb_filter_length in Hex.
      apply negb_true_iff. apply Z.eqb_neq. unfold terminate_signals. lia.
  - intros s sg1 sg2 a1 a2 es H1 H2 H0 Hmax.
    assert (Hl1 : loop (deliver sg1 a1 s) = loop s + 1).
    { rewrite loop_deliver, H1. apply int_wrap_small.
      unfold INT_MIN, INT_MAX in *. lia. }
    assert (Hl2 : loop (deliver sg2 a2 (deliver sg1 a1 s)) = loop s + 2).
    { rewrite loop_deliver, H2, Hl1. rewrite int_wrap_small;
        unfold INT_MIN, INT_MAX in *; lia. }
    split; [| split].
    + unfold stop_requested. rewrite Hl1.
      apply negb_true_iff. apply Z.eqb_neq. lia.
    + unfold stop_requested. rewrite Hl2.
      apply negb_true_iff. apply Z.eqb_neq. lia.
    + apply same_but_loop_run.
      * apply same_but_loop_deliver_terminate. exact H2.
      * lia.
      * lia.
      * lia.
      * lia.
  - intros e s s' status. apply do_loop_return_points.
  - intros e s s' Hpc Hstep. unfold do_loop_step in Hstep. rewrite Hpc in Hstep.
    destruct e as [sg thr | t | | st | [| errno rem]]; try discriminate Hstep;
      injection Hstep as <-.
    + left. split; [| exists sg, thr; reflexivity].
      destruct sg; cbn; exact Hpc.
    + right. split; [reflexivity | exists st; reflexivity].
Qed.

Lemma stop_flag_monotone_and_idempotent_witness :
  stop_requested
    (loop (deliver_all [(SIGINT, Ok 0); (SIGUSR1, Err 11); (SIGUSR1, Ok 0);
                        (SIGTERM, Ok 0)]
             (do_loop_enter 0 10))) = true.
Proof.
  destruct stop_flag_monotone_and_idempotent as [Hmono _].
  destruct (Hmono (do_loop_enter 0 10)
              [(SIGINT, Ok 0); (SIGUSR1, Err 11); (SIGUSR1, Ok 0);
               (SIGTERM, Ok 0)]) as [_ Hset].
  - cbn. lia.
  - unfold INT_MAX. cbn. lia.
  - apply Hset. reflexivity.
Defined.

(** ** Interrupted and failed sleeps *)

(** nanosleep interrupted by a signal: the loop is back at the sleep test
    with the remaining time as its request.  With the stop flag clear it
    calls nanosleep again for exactly that time; with the flag set it
    leaves the sleep and returns 0 at the top of the loop. *)
Lemma do_loop_sleep_interrupted (s : sched) (remaining : Z) :
  pc s = In_nanosleep ->
  exists s1,
    do_loop_step (Sleep_returns (Sleep_failed EINTR remaining)) s = Some s1 /\
    pc s1 = At_sleep_test /\ ts_wait s1 = remaining /\
    trace s1 = trace s /\ wait_until s1 = wait_until s /\
    (loop s = 0 ->
     exists s2,
       do_loop_step Test s1 = Some s2 /\ pc s2 = In_nanosleep /\
       trace s2 = trace s ++ [Nanosleep remaining]) /\
    (loop s <> 0 ->
     exists s2,
       do_loop_run [Test; Test] s1 = Some s2 /\ pc s2 = Returned 0 /\
       trace s2 = trace s).
Proof.
  intros Hpc. eexists. split.
  - unfold do_loop_step. rewrite Hpc. cbn. reflexivity.
  - cbn [pc ts_wait trace wait_until loop set_pc set_ts_wait]. repeat split.
    + intros Hloop. eexists. split.
      * unfold do_loop_step. cbn [pc loop set_pc set_ts_wait].
        rewrite Hloop. cbn. reflexivity.
      * split; reflexivity.
    + intros Hloop. apply Z.eqb_neq in Hloop. eexists. split.
      * cbn [do_loop_run]. unfold do_loop_step at 1.
        cbn [pc loop set_pc set_ts_wait]. rewrite Hloop.
        unfold do_loop_step. cbn [pc loop set_pc set_ts_wait].
        rewrite Hloop. reflexivity.
      * split; reflexivity.
Qed.

(** A sleep interrupted any number of times, with the stop flag clear
    throughout: every new request is the remainder the call before it
    reported. *)
Lemma interrupted_sleep_run (remainders : list Z) :
  forall s : sched,
    pc s = At_sleep_test -> loop s = 0 ->
    exists s',
      do_loop_run (interrupted_sleep remainders) s = Some s' /\
      pc s' = At_loop_test /\ loop s' = 0 /\
      wait_until s' = wait_until s /\
      nanosleep_requests (trace s') =
        nanosleep_requests (trace s) ++ ts_wait s :: remainders.
Proof.
  induction remainders as [| r rest IH]; intros s Hpc Hloop.
  - eexists. split.
    + unfold interrupted_sleep. cbn [map concat app do_loop_run].
      unfold do_loop_step at 1. rewrite Hpc, Hloop. cbn [Z.eqb].
      unfold do_loop_step. cbn [pc set_pc emit]. reflexivity.
    + cbn [pc loop wait_until trace set_pc emit]. repeat split; try assumption.
      rewrite nanosleep_requests_app. reflexivity.
  - unfold interrupted_sleep. cbn [map concat]. rewrite <- app_assoc.
    cbn [app do_loop_run].
    unfold do_loop_step at 1. rewrite Hpc, Hloop. cbn [Z.eqb].
    unfold do_loop_step at 1. cbn [pc set_pc emit]. cbn [Z.eqb Pos.eqb EINTR].
    match goal with |- context [do_loop_run _ ?s1] => set (s1' := s1) end.
    destruct (IH s1') as (s' & Hrun & Hpc' & Hloop' & Hwait' & Hreq').
    + reflexivity.
    + subst s1'. cbn. exact Hloop.
    + exists s'. split; [exact Hrun |]. repeat split; try assumption.
      rewrite Hreq'. subst s1'.
      cbn [trace ts_wait set_pc set_ts_wait emit].
      rewrite nanosleep_requests_app. cbn. rewrite <- app_assoc. reflexivity.
Qed.

(** Any other nanosleep failure: an ERROR line, and [do_loop] returns -1
    from inside the loop. *)
Lemma do_loop_sleep_failed (s : sched) (errno remaining : Z) :
  pc s = In_nanosleep -> errno <> EINTR ->
  do_loop_step (Sleep_returns (Sleep_failed errno remaining)) s =
    Some (set_pc (Returned (-1))
            (emit (Log LOG_ERR (Msg_nanosleep_failed errno)) s)).
Proof.
  intros Hpc Hne. unfold do_loop_step. rewrite Hpc.
  apply Z.eqb_neq in Hne. rewrite Hne. reflexivity.
Qed.

(** A foreground run ([-f]) whose first sleep fails with EINVAL:
    [do_loop] logs the failure and returns -1, and [main] goes on to the
    shutdown.  The value of [do_loop ()] has no part in [exit_status],
    which the failures of [do_init], [plugin_read_all_once] and
    [do_shutdown] set to 1: this run exits with status 0, and with status
    1 if the shutdown fails as well. *)
Lemma failed_sleep_run :
  let evs := [Clock 0; Test; Read_returns 0; Clock 5; Test;
              Sleep_returns (Sleep_failed EINVAL 0)] in
  let run := main (calm evs) [Opt_f] false (boot ∅ ∅ ∅ "/") in
  (exists s, do_loop_run evs (do_loop_enter 0 10) = Some s /\
             pc s = Returned (-1)) /\
  fst run = Exit 0 /\
  fst (main (with_failing_shutdown (calm evs)) [Opt_f] false (boot ∅ ∅ ∅ "/"))
    = Exit 1 /\
  history (snd run) =
    [Plugin_init_ctx; Cf_read "/etc/collectd.conf"; Chdir "/var/lib/collectd";
     Init_global_variables; Sigaction SIGCHLD SIG_IGN;
     Sigaction SIGPIPE SIG_IGN; Sigaction SIGINT Handler_sig_int;
     Sigaction SIGTERM Handler_sig_term; Sigaction SIGUSR1 Handler_sig_usr1;
     Setlocale; Unsetenv "LC_ALL"; Setenv "LC_NUMERIC" "C"; Plugin_init_all;
     Log LOG_INFO Msg_entering_read_loop; Plugin_read_all; Nanosleep 5;
     Log LOG_ERR (Msg_nanosleep_failed EINVAL);
     Log LOG_INFO Msg_exiting_normally; Plugin_shutdown_all].
Proof.
  cbv zeta. split; [| split; [| split]].
  - eexists. split; [vm_compute; reflexivity | reflexivity].
  - vm_compute. reflexivity.
  - vm_compute. reflexivity.
  - vm_compute. reflexivity.
Qed.

(** Whatever [do_loop] returns, the exit status [main] computes after the
    loop depends on [do_init] and [do_shutdown] alone. *)
Lemma run_and_shut_down_status (ans : answers) (c : cli) (w w' : world) (status : Z) :
  test_readall c = false ->
  run_and_shut_down ans c w = (Ret status, w') ->
  status = (if negb (plugin_init_all_status ans =? 0)
               || negb (plugin_shutdown_all_status ans =? 0)
            then 1 else 0).
Proof.
  intros Hread. unfold run_and_shut_down. rewrite Hread.
  unfold do_init, do_shutdown, do_loop, pidfile_remove, unlink, log, act,
    unsetenv, setenv, global_option_get, bind, ret.
  cbn [fst snd].
  destruct (setlocale_answer ans); cbn [stop_flag record with_environ with_stop_flag];
    destruct (negb (plugin_init_all_status ans =? 0));
    destruct (do_loop_run (loop_events ans) _) as [s |]; try discriminate;
    try (destruct (pc s); try discriminate);
    destruct (negb (plugin_shutdown_all_status ans =? 0));
    destruct (daemonize c); cbn;
    repeat match goal with
           | |- context [match ?x with _ => _ end] => destruct x; cbn
           end;
    intros H; inversion H; reflexivity.
Qed.

Lemma count_app (p : action -> bool) (t u : list action) :
  count p (t ++ u) = (count p t + count p u)%nat.
Proof. unfold count. rewrite List.filter_app, length_app. reflexivity. Qed.

(** The trace of a run only grows. *)
Lemma do_loop_run_trace (es : list event) :
  forall s s' : sched,
    do_loop_run es s = Some s' -> exists t, trace s' = trace s ++ t.
Proof.
  induction es as [| e es IH]; intros s s' Hrun; cbn [do_loop_run] in Hrun.
  - injection Hrun as <-. exists []. symmetry. apply app_nil_r.
  - destruct (do_loop_step e s) as [s1 |] eqn:Hstep; [| discriminate Hrun].
    destruct (IH s1 s' Hrun) as (t2 & Ht2).
    assert (Ht1 : exists t1, trace s1 = trace s ++ t1).
    { unfold do_loop_step in Hstep.
      destruct e as [sg thr | t | | st | [| errno rem]]; destruct (pc s);
        try discriminate Hstep;
        repeat match type of Hstep with
               | context [if ?b then _ else _] => destruct b
               end;
        injection Hstep as <-; try (destruct sg);
        cbn [trace set_pc set_wait_until set_ts_wait emit deliver set_loop
               sig_usr1_handler];
        first [ exists []; symmetry; apply app_nil_r | eexists; reflexivity ]. }
    destruct Ht1 as (t1 & Ht1).
    exists (t1 ++ t2). rewrite Ht2, Ht1, app_assoc. reflexivity.
Qed.

(** After its return only deliveries can follow, and they leave the
    return where it is. *)
Lemma returned_stays (es : list event) :
  forall (s s' : sched) (status : Z),
    pc s = Returned status -> do_loop_run es s = Some s' ->
    pc s' = Returned status.
Proof.
  induction es as [| e es IH]; intros s s' status Hpc Hrun;
    cbn [do_loop_run] in Hrun.
  - injection Hrun as <-. exact Hpc.
  - destruct (do_loop_step e s) as [s1 |] eqn:Hstep; [| discriminate].
    apply (IH s1 s' status); [| exact Hrun].
    unfold do_loop_step in Hstep. rewrite Hpc in Hstep.
    destruct e as [sg thr | | | | r]; try discriminate Hstep.
    + injection Hstep as <-. destruct sg; exact Hpc.
    + destruct r; discriminate Hstep.
Qed.

(** A run that ends in the return of -1 has logged the nanosleep
    failure that ended it. *)
Lemma do_loop_failure_is_logged (es : list event) :
  forall s s' : sched,
    (forall status, pc s <> Returned status) ->
    do_loop_run es s = Some s' -> pc s' = Returned (-1) ->
    exists errno,
      errno <> EINTR /\ In (Log LOG_ERR (Msg_nanosleep_failed errno)) (trace s').
Proof.
  induction es as [| e es IH]; intros s s' Hnot Hrun Hret;
    cbn [do_loop_run] in Hrun.
  - injection Hrun as <-. exfalso. exact (Hnot _ Hret).
  - destruct (do_loop_step e s) as [s1 |] eqn:Hstep; [| discriminate Hrun].
    destruct (pc s1) as [| | | | | | status1] eqn:Hpc1.
    7: { destruct (do_loop_return_points e s s1 status1 Hstep Hnot Hpc1)
           as [(-> & _) | (-> & Hpc & errno & rem & -> & Hne)].
         - rewrite (returned_stays es s1 s' 0 Hpc1 Hrun) in Hret.
           discriminate Hret.
         - rewrite (do_loop_sleep_failed s errno rem Hpc Hne) in Hstep.
           injection Hstep as <-.
           destruct (do_loop_run_trace es _ s' Hrun) as (t & Ht).
           exists errno. split; [exact Hne |].
           rewrite Ht. cbn [trace set_pc emit]. apply in_or_app. left.
           apply in_or_app. right. left. reflexivity. }
    all: apply (IH s1 s'); [rewrite Hpc1; discriminate | exact Hrun | exact Hret].
Qed.

(** What [pidfile_remove] adds to the history. *)
Lemma pidfile_remove_history (ans : answers) (w : world) :
  exists (r : Z) (w' : world),
    pidfile_remove ans w = (Ret r, w') /\
    history w' =
      history w ++
        Enter_pidfile_remove ::
        match options w !! "PIDFile" with
        | Some file => [Unlink file]
        | None => []
        end.
Proof.
  unfold pidfile_remove, bind, act, global_option_get, unlink, ret.
  cbn [options record files].
  destruct (options w !! "PIDFile") as [f |]; cbn [record files].
  - destruct (unlink_fault ans), (files w !! f);
      eexists _, _; (split; [reflexivity |]);
      cbn [history record with_files]; rewrite <- app_assoc; reflexivity.
  - eexists _, _. split; reflexivity.
Qed.

(** C4.  While the scheduler sleeps: a nanosleep interrupted by a signal
    (EINTR) brings the loop back to the test of the stop flag, and if the
    flag is still clear the sleep goes on for the time that remained (if
    it is set, the loop leaves the sleep and returns at the top).  Any
    other nanosleep failure ends the loop there and then: the failure is
    logged as an error and [do_loop] returns -1 to [main], and nothing
    that follows brings the loop back.  [main] then goes on to the
    shutdown: after the actions of the loop, the error among them, come
    the exit notice and the call of the plugin shutdown. *)
Theorem sleep_interrupted_or_failed :
  (forall (s : sched) (remaining : Z),
     pc s = In_nanosleep ->
     exists s1,
       do_loop_step (Sleep_returns (Sleep_failed EINTR remaining)) s = Some s1 /\
       pc s1 = At_sleep_test /\ ts_wait s1 = remaining /\
       trace s1 = trace s /\ wait_until s1 = wait_until s /\
       (loop s = 0 ->
        exists s2,
          do_loop_step Test s1 = Some s2 /\ pc s2 = In_nanosleep /\
          trace s2 = trace s ++ [Nanosleep remaining]) /\
       (loop s <> 0 ->
        exists s2,
          do_loop_run [Test; Test] s1 = Some s2 /\ pc s2 = Returned 0 /\
          trace s2 = trace s)) /\
  (forall (s : sched) (errno remaining : Z),
     pc s = In_nanosleep -> errno <> EINTR ->
     exists s1,
       do_loop_step (Sleep_returns (Sleep_failed errno remaining)) s = Some s1 /\
       pc s1 = Returned (-1) /\
       trace s1 = trace s ++ [Log LOG_ERR (Msg_nanosleep_failed errno)] /\
       (forall es s2, do_loop_run es s1 = Some s2 ->
          pc s2 = Returned (-1) /\
          count starts_work (trace s2) = count starts_work (trace s))) /\
  (forall (ans : answers) (c : cli) (w : world) (s : sched),
     test_readall c = false ->
     do_loop_run (loop_events ans)
       (do_loop_enter (stop_flag w) (default_interval ans)) = Some s ->
     pc s = Returned (-1) ->
     (exists errno,
        errno <> EINTR /\
        In (Log LOG_ERR (Msg_nanosleep_failed errno)) (trace s)) /\
     fst (do_loop ans w) = Ret (-1) /\
     exists (status : Z) (w' : world),
       run_and_shut_down ans c w = (Ret status, w') /\
       history w' =
         history w
           ++ (Setlocale ::
               (if setlocale_answer ans then []
                else [Log LOG_WARNING Msg_setlocale_failed])
               ++ [Unsetenv "LC_ALL"; Setenv "LC_NUMERIC" COLLECTD_LOCALE;
                   Plugin_init_all]
               ++ (if negb (plugin_init_all_status ans =? 0)
                   then [Log LOG_ERR Msg_init_failed] else []))
           ++ [Log LOG_INFO Msg_entering_read_loop]
           ++ trace s
           ++ [Log LOG_INFO Msg_exiting_normally; Plugin_shutdown_all]
           ++ (if negb (plugin_shutdown_all_status ans =? 0)
               then [Log LOG_ERR Msg_shutdown_failed] else [])
           ++ (if daemonize c
               then Enter_pidfile_remove ::
                    match options w !! "PIDFile" with
                    | Some file => [Unlink file]
                    | None => []
                    end
               else [])).
Proof.
  split; [| split].
  - intros s remaining Hpc. apply do_loop_sleep_interrupted. exact Hpc.
  - intros s errno remaining Hpc Hne.
    eexists. split; [apply do_loop_sleep_failed; assumption |].
    cbn [pc trace set_pc emit]. split; [reflexivity |]. split; [reflexivity |].
    intros es s2 Hrun.
    split; [eapply returned_stays; [| exact Hrun]; reflexivity |].
    assert (Hgen : forall es a b,
               (exists st, pc a = Returned st) -> do_loop_run es a = Some b ->
               count starts_work (trace b) = count starts_work (trace a)).
    { clear. induction es as [| e es IH]; intros a b [st Hpc] Hrun;
        cbn [do_loop_run] in Hrun.
      - injection Hrun as <-. reflexivity.
      - destruct (do_loop_step e a) as [a1 |] eqn:Hstep; [| discriminate Hrun].
        unfold do_loop_step in Hstep. rewrite Hpc in Hstep.
        destruct e as [sg thr | | | | r]; try discriminate Hstep;
          [| destruct r; discriminate Hstep].
        injection Hstep as <-.
        rewrite (IH (deliver sg thr a) b); [| | exact Hrun].
        + destruct sg; cbn [deliver set_loop sig_usr1_handler emit trace];
            rewrite ?count_app; cbn; lia.
        + exists st. destruct sg; exact Hpc. }
    erewrite Hgen; [| | exact Hrun]; [| exists (-1); reflexivity].
    cbn [trace set_pc emit]. rewrite count_app. cbn. lia.
  - intros ans c w s Hread Hrun Hret.
    split.
    { eapply do_loop_failure_is_logged; [| exact Hrun | exact Hret].
      intros status. discriminate. }
    split.
    { unfold do_loop. rewrite Hrun, Hret. reflexivity. }
    unfold run_and_shut_down. rewrite Hread.
    unfold do_init, do_shutdown, do_loop, log, act, unsetenv, setenv, bind, ret.
    cbn [fst snd].
    destruct (setlocale_answer ans);
      destruct (negb (plugin_init_all_status ans =? 0));
      cbn [stop_flag record with_environ];
      rewrite Hrun, Hret;
      destruct (negb (plugin_shutdown_all_status ans =? 0));
      destruct (daemonize c);
      try match goal with
          | |- context [pidfile_remove ans ?W] =>
              destruct (pidfile_remove_history ans W) as (r' & w2 & -> & Hh);
              cbn [options record with_environ with_stop_flag] in Hh
          end;
      eexists _, _; (split; [reflexivity |]);
      rewrite ?Hh;
      cbn [history record with_environ with_stop_flag];
      rewrite <- ?app_assoc; cbn [app]; rewrite <- ?app_assoc;
      reflexivity.
Qed.

Lemma sleep_interrupted_or_failed_witness :
  let evs := [Clock 0; Test; Read_returns 0; Clock 5; Test;
              Sleep_returns (Sleep_failed EINVAL 0)] in
  let c := {| configfile := CONFIGFILE; test_config := false;
              test_readall := false; daemonize := false |} in
  exists (status : Z) (w' : world),
    run_and_shut_down (calm evs) c (boot ∅ ∅ ∅ "/") = (Ret status, w') /\
    history w' =
      [Setlocale; Unsetenv "LC_ALL"; Setenv "LC_NUMERIC" "C"; Plugin_init_all;
       Log LOG_INFO Msg_entering_read_loop; Plugin_read_all; Nanosleep 5;
       Log LOG_ERR (Msg_nanosleep_failed EINVAL);
       Log LOG_INFO Msg_exiting_normally; Plugin_shutdown_all].
Proof.
  intros evs c.
  destruct sleep_interrupted_or_failed as (_ & _ & Hmain).
  destruct (Hmain (calm evs) c (boot ∅ ∅ ∅ "/")
              {| loop := 0; flush_threads := 0; pc := Returned (-1);
                 interval := 10; wait_until := 20; ts_wait := 5;
                 trace := [Plugin_read_all; Nanosleep 5;
                           Log LOG_ERR (Msg_nanosleep_failed EINVAL)] |}
              eq_refl eq_refl eq_refl)
    as (_ & _ & status & w' & Hrun & Hhist).
  exists status, w'. split; [exact Hrun | exact Hhist].
Defined.

(** ** The PID file *)


Lemma pidfile_create_failure (ans : answers) (w : world) (file : string) (e : Z) :
  options w !! "PIDFile" = Some file -> fopen_answer ans = Err e ->
  pidfile_create ans w =
    (Ret 1, record [Log LOG_ERR (Msg_fopen_failed file e)]
              (record [Fopen file] (record [Enter_pidfile_create] w))).
Proof.
  intros Hfile Hopen.
  unfold pidfile_create, bind, act, global_option_get, fopen_w, log, act, ret.
  cbn [options record]. rewrite Hfile, Hopen. reflexivity.
Qed.

Lemma pidfile_create_success (ans : answers) (w : world) (file : string) (v : Z) :
  options w !! "PIDFile" = Some file -> fopen_answer ans = Ok v ->
  exists w1,
    pidfile_create ans w = (Ret 0, w1) /\
    files w1 =
      <[file := (decimal (int_wrap (getpid_answer ans)) ++ newline)%string]> (files w) /\
    stream w1 = None /\
    history w1 =
      history w ++
        [Enter_pidfile_create; Fopen file;
         Fprintf (decimal (int_wrap (getpid_answer ans)) ++ newline)%string;
         Fclose] /\
    environ w1 = environ w /\ options w1 = options w /\ cwd w1 = cwd w /\
    stop_flag w1 = stop_flag w.
Proof.
  intros Hfile Hopen.
  unfold pidfile_create, bind, act, global_option_get, fopen_w, fprintf,
    fclose, ret.
  cbn [options record]. rewrite Hfile, Hopen.
  cbn [stream with_stream with_files record files].
  rewrite lookup_insert_eq. cbn [default].
  eexists. split; [reflexivity |].
  cbn [files stream history environ options cwd stop_flag
         record with_stream with_files].
  repeat split.
  - rewrite insert_insert_eq. reflexivity.
  - rewrite <- !app_assoc. reflexivity.
Qed.



(** The caller of [pidfile_create]: in the child, a PID file that cannot
    be opened ends the process with status 2. *)
Lemma fork_off_child_pidfile_failure (ans : answers) (w : world) (file : string) (e : Z) :
  ret_of (fork_answer ans) = 0 ->
  options w !! "PIDFile" = Some file -> fopen_answer ans = Err e ->
  fork_off_child ans w =
    (Exit 2, record [Log LOG_ERR (Msg_fopen_failed file e)]
               (record [Fopen file]
                  (record [Enter_pidfile_create]
                     (record [Setsid] (record [Fork] w))))).
Proof.
  intros Hfork Hfile Hopen.
  unfold fork_off_child. rewrite Hfork. cbn [Z.eqb negb].
  unfold bind at 1. unfold act at 1. unfold bind at 1. unfold act at 1.
  unfold bind at 1.
  rewrite (pidfile_create_failure ans _ file e); [reflexivity | | exact Hopen].
  cbn [options record]. exact Hfile.
Qed.



(** ** Readiness notification *)

(** C7.  [notify_upstart]: without UPSTART_JOB in the environment it
    reports not-handled (0) and does nothing.  With UPSTART_JOB equal to
    "collectd" it raises SIGSTOP against itself, then removes the variable
    from the environment and reports handled (1), so that [main] skips the
    fork.  With any other value it logs a warning and reports not-handled;
    the environment is untouched and [main] goes on to the systemd
    handshake exactly as it does when the variable is absent. *)
Theorem notify_upstart_handshake :
  forall (w : world),
    (environ w !! "UPSTART_JOB" = None ->
     notify_upstart w = (Ret 0, w) /\
     forall ans,
       not_supervised ans true w =
         bind (notify_systemd ans) (fun s => ret (s =? 0)) w) /\
    (environ w !! "UPSTART_JOB" = Some "collectd"%string ->
     exists w',
       notify_upstart w = (Ret 1, w') /\
       history w' =
         history w ++ [Log LOG_NOTICE Msg_upstart_detected; Raise SIGSTOP;
                       Unsetenv "UPSTART_JOB"] /\
       environ w' = delete "UPSTART_JOB" (environ w) /\
       environ w' !! "UPSTART_JOB" = None /\
       (forall ans, not_supervised ans true w = (Ret false, w'))) /\
    (forall v : string,
       environ w !! "UPSTART_JOB" = Some v -> v <> "collectd"%string ->
       notify_upstart w =
         (Ret 0, record [Log LOG_WARNING (Msg_unexpected_upstart_job v)] w) /\
       forall ans,
         not_supervised ans true w =
           bind (notify_systemd ans) (fun s => ret (s =? 0))
             (record [Log LOG_WARNING (Msg_unexpected_upstart_job v)] w)).
Proof.
  intros w. split; [| split].
  - intros Habsent.
    assert (Hrun : notify_upstart w = (Ret 0, w)).
    { unfold notify_upstart, bind, getenv, ret. rewrite Habsent. reflexivity. }
    split; [exact Hrun |].
    intros ans. unfold not_supervised. unfold bind at 1. rewrite Hrun.
    reflexivity.
  - intros Hmatch.
    assert (Hrun : notify_upstart w =
                   (Ret 1, record [Unsetenv "UPSTART_JOB"]
                             (with_environ (delete "UPSTART_JOB" (environ w))
                                (record [Raise SIGSTOP]
                                   (record [Log LOG_NOTICE Msg_upstart_detected] w))))).
    { unfold notify_upstart, bind, getenv, log, act, unsetenv, ret.
      rewrite Hmatch. reflexivity. }
    eexists. split; [exact Hrun |].
    cbn [history environ record with_environ]. repeat split.
    + rewrite <- !app_assoc. reflexivity.
    + apply lookup_delete_eq.
    + intros ans. unfold not_supervised. unfold bind at 1. rewrite Hrun.
      reflexivity.
  - intros v Hv Hne.
    assert (Hrun : notify_upstart w =
                   (Ret 0, record [Log LOG_WARNING (Msg_unexpected_upstart_job v)] w)).
    { unfold notify_upstart, bind, getenv, log, act, ret. rewrite Hv.
      apply String.eqb_neq in Hne. rewrite Hne. reflexivity. }
    split; [exact Hrun |].
    intros ans. unfold not_supervised. unfold bind at 1. rewrite Hrun.
    reflexivity.
Qed.

Lemma notify_upstart_handshake_witness :
  exists w',
    notify_upstart (boot (<["UPSTART_JOB" := "collectd"%string]> ∅) ∅ ∅ "/")
      = (Ret 1, w') /\
    history w' = [Log LOG_NOTICE Msg_upstart_detected; Raise SIGSTOP;
                  Unsetenv "UPSTART_JOB"] /\
    environ w' !! "UPSTART_JOB" = None.
Proof.
  destruct (notify_upstart_handshake
              (boot (<["UPSTART_JOB" := "collectd"%string]> ∅) ∅ ∅ "/"))
    as (_ & Hmatch & _).
  destruct Hmatch as (w' & Hrun & Hhist & _ & Hgone & _).
  - vm_compute. reflexivity.
  - exists w'. repeat split; assumption.
Defined.

Lemma length_list_ascii_of_string (s : string) :
  List.length (list_ascii_of_string s) = String.length s.
Proof. induction s as [| c s IH]; cbn; [reflexivity | now rewrite IH]. Qed.

Lemma sstrncpy_fits (src : string) (n : nat) :
  (String.length src <= n - 1)%nat ->
  sstrncpy src n =
    list_ascii_of_string src ++ replicate (n - String.length src)%nat zero.
Proof.
  intros Hfit. unfold sstrncpy.
  rewrite take_ge by (rewrite length_list_ascii_of_string; exact Hfit).
  rewrite length_list_ascii_of_string. reflexivity.
Qed.

(** The address of a path in the file system: the path, padded with null
    bytes to the size of [sun_path]; its length is the whole structure. *)
Lemma notify_address_path (v : string) :
  first_char_is "@" v = false -> (String.length v <= 107)%nat ->
  notify_address v =
    (list_ascii_of_string v ++ replicate (108 - String.length v)%nat zero,
     sizeof_sockaddr_un).
Proof.
  intros Hat Hlen. unfold notify_address. rewrite Hat. cbn [negb].
  unfold sizeof_sun_path. rewrite sstrncpy_fits by (cbn; lia). reflexivity.
Qed.

(** The address of a name in the abstract namespace: a null byte in the
    place of the '@', and a length that ends with the name. *)
Lemma notify_address_abstract (rest : string) :
  (String.length (String "@" rest) <= 107)%nat ->
  exists sun_path su_size,
    notify_address (String "@" rest) = (sun_path, su_size) /\
    sun_path =
      zero :: list_ascii_of_string rest
        ++ replicate (108 - String.length (String "@" rest))%nat zero /\
    su_size = sizeof_sa_family_t + Z.of_nat (String.length (String "@" rest)) /\
    take (Z.to_nat (su_size - sizeof_sa_family_t)) sun_path =
      zero :: list_ascii_of_string rest.
Proof.
  intros Hlen. unfold notify_address. cbn [first_char_is negb].
  rewrite Ascii.eqb_refl. cbn [negb].
  unfold sizeof_sun_path. rewrite sstrncpy_fits by (cbn in *; lia).
  unfold sizeof_sockaddr_un, sizeof_sa_family_t in *.
  destruct (Z.ltb_spec 110 (2 + Z.of_nat (String.length (String "@" rest))))
    as [Hbig | _]; [lia |].
  eexists. eexists. split; [reflexivity |].
  cbn [list_ascii_of_string app]. repeat split.
  replace (Z.to_nat (2 + Z.of_nat (String.length (String "@" rest)) - 2))
    with (S (String.length rest)) by (cbn [String.length]; lia).
  match goal with
  | |- take _ (<[0%nat:=zero]> (_ :: ?l)) = _ =>
      change (take (S (String.length rest)) (zero :: l)
              = zero :: list_ascii_of_string rest)
  end.
  cbn [take]. f_equal.
  apply take_app_length'. symmetry. apply length_list_ascii_of_string.
Qed.

(** NOTIFY_SOCKET=/ is present, not empty and begins with '/', yet no
    datagram is sent: the value is rejected as invalid, the handshake
    reports not-handled and the variable stays in the environment. *)
Lemma notify_systemd_rejects_single_slash :
  notify_systemd (calm []) (boot (<["NOTIFY_SOCKET" := "/"%string]> ∅) ∅ ∅ "/")
  = (Ret 0,
     record [Log LOG_ERR (Msg_invalid_notify_socket "/")]
       (boot (<["NOTIFY_SOCKET" := "/"%string]> ∅) ∅ ∅ "/")).
Proof. vm_compute. reflexivity. Qed.

(** C8 (amended).  [notify_systemd], for every value [v] of
    NOTIFY_SOCKET: if [v] is shorter than two characters or begins with
    neither '/' nor '@', it logs an error and reports not-handled without
    any socket call and without touching the environment.  Otherwise it
    removes NOTIFY_SOCKET from the environment and creates a datagram
    socket; if that fails it reports not-handled and nothing is sent;
    else it makes exactly one sendto call, with the eight bytes
    [READY=1\n] as payload, and reports handled if the call succeeded and
    not-handled (after an error line) if it failed.  For a value of at
    most 107 bytes the address is the path padded with null bytes, with
    the size of the whole structure as its length, or, for '@name', a null
    byte followed by [name] with a length that ends with the name. *)
Theorem notify_systemd_handshake :
  forall (ans : answers) (w : world) (v : string),
    environ w !! "NOTIFY_SOCKET" = Some v ->
    let valid := (2 <=? String.length v)%nat
                 && (first_char_is "/" v || first_char_is "@" v) in
    let fd := ret_of (socket_answer ans) in
    let datagram := Sendto fd ("READY=1" ++ newline)%string
                      (fst (notify_address v)) (snd (notify_address v)) in
    (valid = false ->
     notify_systemd ans w =
       (Ret 0, record [Log LOG_ERR (Msg_invalid_notify_socket v)] w)) /\
    (valid = true ->
     exists (r : Z) (w' : world),
       notify_systemd ans w = (Ret r, w') /\
       environ w' = delete "NOTIFY_SOCKET" (environ w) /\
       (fd < 0 ->
        r = 0 /\
        history w' =
          history w ++
            [Log LOG_NOTICE Msg_systemd_detected; Unsetenv "NOTIFY_SOCKET";
             Socket; Log LOG_ERR (Msg_socket_failed (errno_of (socket_answer ans)))]) /\
       (0 <= fd -> ret_of (sendto_answer ans) < 0 ->
        r = 0 /\
        history w' =
          history w ++
            [Log LOG_NOTICE Msg_systemd_detected; Unsetenv "NOTIFY_SOCKET";
             Socket; datagram;
             Log LOG_ERR (Msg_sendto_failed v (errno_of (sendto_answer ans)));
             Close fd]) /\
       (0 <= fd -> 0 <= ret_of (sendto_answer ans) ->
        r = 1 /\
        history w' =
          history w ++
            [Log LOG_NOTICE Msg_systemd_detected; Unsetenv "NOTIFY_SOCKET";
             Socket; datagram; Unsetenv "NOTIFY_SOCKET"; Close fd] /\
        count is_sendto (history w') = S (count is_sendto (history w)))) /\
    String.length ("READY=1" ++ newline) = 8%nat /\
    (first_char_is "/" v = true -> (String.length v <= 107)%nat ->
     notify_address v =
       (list_ascii_of_string v ++ replicate (108 - String.length v)%nat zero,
        sizeof_sockaddr_un)) /\
    (forall rest : string,
       v = String "@" rest -> (String.length v <= 107)%nat ->
       exists sun_path su_size,
         notify_address v = (sun_path, su_size) /\
         sun_path =
           zero :: list_ascii_of_string rest
             ++ replicate (108 - String.length v)%nat zero /\
         su_size = sizeof_sa_family_t + Z.of_nat (String.length v) /\
         take (Z.to_nat (su_size - sizeof_sa_family_t)) sun_path =
           zero :: list_ascii_of_string rest).
Proof.
  intros ans w v Hv valid fd datagram.
  assert (Hcond : (String.length v <? 2)%nat
                  || (negb (first_char_is "@" v) && negb (first_char_is "/" v))
                  = negb valid).
  { subst valid. rewrite Nat.leb_antisym.
    destruct (String.length v <? 2)%nat, (first_char_is "@" v),
      (first_char_is "/" v); reflexivity. }
  split; [| split; [| split; [| split]]].
  - intros Hinvalid.
    unfold notify_systemd, bind, getenv, log, act, ret.
    rewrite Hv, Hcond, Hinvalid. reflexivity.
  - intros Hvalid.
    unfold notify_systemd, bind, getenv, log, act, unsetenv, ret.
    rewrite Hv, Hcond, Hvalid. cbn [negb].
    fold fd. subst datagram.
    destruct (notify_address v) as [sun_path su_size]. cbn [fst snd].
    destruct (Z.ltb_spec fd 0) as [Hfd | Hfd].
    + eexists. eexists. split; [reflexivity |].
      cbn [environ history record with_environ].
      repeat split; try lia.
      rewrite <- !app_assoc. reflexivity.
    + destruct (Z.ltb_spec (ret_of (sendto_answer ans)) 0) as [Hs | Hs].
      * eexists. eexists. split; [reflexivity |].
        cbn [environ history record with_environ].
        repeat split; try lia.
        rewrite <- !app_assoc. reflexivity.
      * eexists. eexists. split; [reflexivity |].
        cbn [environ history record with_environ].
        repeat split; try lia.
        -- apply map_eq. intros k.
           destruct (decide (k = "NOTIFY_SOCKET"%string)) as [-> | Hk].
           ++ rewrite !lookup_delete_eq. reflexivity.
           ++ rewrite !lookup_delete_ne by congruence. reflexivity.
        -- rewrite <- !app_assoc. reflexivity.
        -- rewrite <- !app_assoc, count_app. cbn. lia.
  - reflexivity.
  - intros Hslash Hlen. apply notify_address_path; [| exact Hlen].
    destruct v as [| c v']; [discriminate |]. cbn in *.
    apply Ascii.eqb_eq in Hslash. subst c. reflexivity.
  - intros rest -> Hlen. apply notify_address_abstract. exact Hlen.
Qed.

Lemma notify_systemd_handshake_witness :
  exists w',
    notify_systemd (calm [])
      (boot (<["NOTIFY_SOCKET" := "@collectd"%string]> ∅) ∅ ∅ "/") = (Ret 1, w') /\
    environ w' !! "NOTIFY_SOCKET" = None.
Proof.
  destruct (notify_systemd_handshake (calm [])
              (boot (<["NOTIFY_SOCKET" := "@collectd"%string]> ∅) ∅ ∅ "/")
              "@collectd")
    as (_ & Hvalid & _).
  - vm_compute. reflexivity.
  - destruct Hvalid as (r & w' & Hrun & Henv & _ & _ & Hsent).
    + reflexivity.
    + destruct Hsent as (Hr & _); [cbn; lia | cbn; lia |].
      exists w'. subst r. split; [exact Hrun |].
      rewrite Henv. apply lookup_delete_eq.
Defined.

(** ** Daemonization *)

Lemma record_record (a b : list action) (w : world) :
  record b (record a w) = record (a ++ b) w.
Proof. unfold record. cbn. rewrite app_assoc. reflexivity. Qed.

(** The gate of line 734: the fork happens exactly when daemonizing was
    asked for and both handshakes reported 0. *)
Lemma daemonization_gate (ans : answers) (w : world) :
  let w0 := record [Sigaction SIGCHLD SIG_IGN] w in
  daemonization ans false w = (Ret tt, w0) /\
  (forall u w1,
     notify_upstart w0 = (Ret u, w1) -> u <> 0 ->
     daemonization ans true w = (Ret tt, w1)) /\
  (forall w1 n w2,
     notify_upstart w0 = (Ret 0, w1) ->
     notify_systemd ans w1 = (Ret n, w2) -> n <> 0 ->
     daemonization ans true w = (Ret tt, w2)) /\
  (forall w1 w2,
     notify_upstart w0 = (Ret 0, w1) ->
     notify_systemd ans w1 = (Ret 0, w2) ->
     daemonization ans true w = fork_off_child ans w2).
Proof.
  cbv zeta. unfold daemonization, not_supervised.
  split; [reflexivity | split; [| split]].
  - intros u w1 Hup Hu. unfold bind, act. rewrite Hup.
    apply Z.eqb_neq in Hu. rewrite Hu. reflexivity.
  - intros w1 n w2 Hup Hsd Hn. unfold bind, act. rewrite Hup. cbn [Z.eqb].
    rewrite Hsd. apply Z.eqb_neq in Hn. unfold ret. rewrite Hn. reflexivity.
  - intros w1 w2 Hup Hsd. unfold bind at 1 2 3, act at 1. unfold bind at 1.
    rewrite Hup. cbn [Z.eqb]. rewrite Hsd. reflexivity.
Qed.

(** The sequence of lines 742-789. *)
Lemma fork_off_child_sequence (ans : answers) (w : world) :
  let pid := ret_of (fork_answer ans) in
  let o := ret_of (open_answer ans) in
  let d1 := ret_of (dup_stdout_answer ans) in
  let d2 := ret_of (dup_stderr_answer ans) in
  (pid = -1 ->
   fork_off_child ans w =
     (Exit 1, record [Fork; Stderr (Err_fork (errno_of (fork_answer ans)))] w)) /\
  (pid <> -1 -> pid <> 0 ->
   fork_off_child ans w = (Exit 0, record [Fork] w)) /\
  (pid = 0 ->
   forall (c : Z) (w1 : world),
     pidfile_create ans (record [Fork; Setsid] w) = (Ret c, w1) ->
     (c <> 0 -> fork_off_child ans w = (Exit 2, w1)) /\
     (c = 0 -> o <> 0 ->
      fork_off_child ans w =
        (Exit 1,
         record [Close 2; Close 1; Close 0; Open "/dev/null";
                 Log LOG_ERR (Msg_stdin_not_connected o)] w1)) /\
     (c = 0 -> o = 0 -> d1 <> 1 ->
      fork_off_child ans w =
        (Exit 1,
         record [Close 2; Close 1; Close 0; Open "/dev/null"; Dup 0;
                 Log LOG_ERR (Msg_stdout_not_connected d1)] w1)) /\
     (c = 0 -> o = 0 -> d1 = 1 -> d2 <> 2 ->
      fork_off_child ans w =
        (Exit 1,
         record [Close 2; Close 1; Close 0; Open "/dev/null"; Dup 0; Dup 0;
                 Log LOG_ERR (Msg_stderr_not_connected d2)] w1)) /\
     (c = 0 -> o = 0 -> d1 = 1 -> d2 = 2 ->
      fork_off_child ans w =
        (Ret tt,
         record [Close 2; Close 1; Close 0; Open "/dev/null"; Dup 0; Dup 0] w1))).
Proof.
  cbv zeta. split; [| split].
  - intros Hpid. unfold fork_off_child. rewrite Hpid. cbn [Z.eqb Pos.eqb].
    unfold bind, act, exit_with. rewrite record_record. reflexivity.
  - intros Hm1 H0. unfold fork_off_child.
    apply Z.eqb_neq in Hm1, H0. rewrite Hm1, H0. cbn [negb].
    reflexivity.
  - intros Hpid c w1 Hcreate.
    assert (Hchild :
              fork_off_child ans w =
                (if negb (c =? 0)
                 then exit_with 2
                 else
                   act (Close 2) ;; act (Close 1) ;; act (Close 0) ;;
                   act (Open "/dev/null") ;;
                   if negb (ret_of (open_answer ans) =? 0)
                   then log LOG_ERR
                          (Msg_stdin_not_connected (ret_of (open_answer ans))) ;;
                        exit_with 1
                   else
                     act (Dup 0) ;;
                     if negb (ret_of (dup_stdout_answer ans) =? 1)
                     then log LOG_ERR
                            (Msg_stdout_not_connected
                               (ret_of (dup_stdout_answer ans))) ;;
                          exit_with 1
                     else
                       act (Dup 0) ;;
                       if negb (ret_of (dup_stderr_answer ans) =? 2)
                       then log LOG_ERR
                              (Msg_stderr_not_connected
                                 (ret_of (dup_stderr_answer ans))) ;;
                            exit_with 1
                       else ret tt) w1).
    { unfold fork_off_child. rewrite Hpid. cbn [Z.eqb negb].
      unfold bind at 1. unfold act at 1. unfold bind at 1. unfold act at 1.
      unfold bind at 1. rewrite record_record. cbn [app]. rewrite Hcreate.
      reflexivity. }
    rewrite Hchild. clear Hchild.
    repeat split.
    + intros Hc. apply Z.eqb_neq in Hc. rewrite Hc. reflexivity.
    + intros -> Ho. apply Z.eqb_neq in Ho. cbn [Z.eqb negb].
      unfold bind, act, log, act, exit_with. rewrite Ho. cbn [negb].
      rewrite !record_record. reflexivity.
    + intros -> Ho Hd1. apply Z.eqb_neq in Hd1. cbn [Z.eqb negb].
      unfold bind, act, log, act, exit_with. rewrite Ho, Hd1. cbn [Z.eqb negb].
      rewrite !record_record. reflexivity.
    + intros -> Ho Hd1 Hd2. apply Z.eqb_neq in Hd2. cbn [Z.eqb negb].
      unfold bind, act, log, act, exit_with. rewrite Ho, Hd1, Hd2.
      cbn [Z.eqb Pos.eqb negb].
      rewrite !record_record. reflexivity.
    + intros -> Ho Hd1 Hd2. cbn [Z.eqb negb].
      unfold bind, act, ret. rewrite Ho, Hd1, Hd2. cbn [Z.eqb Pos.eqb negb].
      rewrite !record_record. reflexivity.
Qed.

(** C9.  The daemonization sequence of [main] runs only when daemonizing
    was asked for and neither [notify_upstart] nor [notify_systemd]
    reported handled; otherwise nothing of it happens.  When it runs:
    a failed fork ends the process with status 1, the parent exits with
    status 0 right after the fork, and the child calls setsid, creates the
    PID file at the configured path with its process id in it (ending
    with status 2, the files left as they were, if it cannot be opened),
    closes descriptors 2, 1 and 0, opens /dev/null expecting descriptor 0
    and duplicates it twice expecting 1 and then 2; any other descriptor
    number is logged and ends the process with status 1. *)
Theorem daemonization_sequence :
  forall (ans : answers) (w : world),
    let w0 := record [Sigaction SIGCHLD SIG_IGN] w in
    let pid := ret_of (fork_answer ans) in
    let o := ret_of (open_answer ans) in
    let d1 := ret_of (dup_stdout_answer ans) in
    let d2 := ret_of (dup_stderr_answer ans) in
    let pid_line := (decimal (int_wrap (getpid_answer ans)) ++ newline)%string in
    (daemonization ans false w = (Ret tt, w0) /\
     (forall u w1,
        notify_upstart w0 = (Ret u, w1) -> u <> 0 ->
        daemonization ans true w = (Ret tt, w1)) /\
     (forall w1 n w2,
        notify_upstart w0 = (Ret 0, w1) ->
        notify_systemd ans w1 = (Ret n, w2) -> n <> 0 ->
        daemonization ans true w = (Ret tt, w2)) /\
     (forall w1 w2,
        notify_upstart w0 = (Ret 0, w1) ->
        notify_systemd ans w1 = (Ret 0, w2) ->
        daemonization ans true w = fork_off_child ans w2)) /\
    (forall w2 : world,
       (pid = -1 ->
        fork_off_child ans w2 =
          (Exit 1,
           record [Fork; Stderr (Err_fork (errno_of (fork_answer ans)))] w2)) /\
       (pid <> -1 -> pid <> 0 ->
        fork_off_child ans w2 = (Exit 0, record [Fork] w2)) /\
       (pid = 0 ->
        forall file : string,
          options w2 !! "PIDFile" = Some file ->
          (forall e, fopen_answer ans = Err e ->
             fork_off_child ans w2 =
               (Exit 2,
                record [Fork; Setsid; Enter_pidfile_create; Fopen file;
                        Log LOG_ERR (Msg_fopen_failed file e)] w2) /\
             files (snd (fork_off_child ans w2)) = files w2) /\
          (forall v, fopen_answer ans = Ok v ->
             exists w3 : world,
               pidfile_create ans (record [Fork; Setsid] w2) = (Ret 0, w3) /\
               files w3 = <[file := pid_line]> (files w2) /\
               files w3 !! file = Some pid_line /\
               stream w3 = None /\
               history w3 =
                 history w2 ++
                   [Fork; Setsid; Enter_pidfile_create; Fopen file;
                    Fprintf pid_line; Fclose] /\
               files (snd (fork_off_child ans w2)) !! file = Some pid_line /\
               (o <> 0 ->
                fork_off_child ans w2 =
                  (Exit 1,
                   record [Close 2; Close 1; Close 0; Open "/dev/null";
                           Log LOG_ERR (Msg_stdin_not_connected o)] w3)) /\
               (o = 0 -> d1 <> 1 ->
                fork_off_child ans w2 =
                  (Exit 1,
                   record [Close 2; Close 1; Close 0; Open "/dev/null"; Dup 0;
                           Log LOG_ERR (Msg_stdout_not_connected d1)] w3)) /\
               (o = 0 -> d1 = 1 -> d2 <> 2 ->
                fork_off_child ans w2 =
                  (Exit 1,
                   record [Close 2; Close 1; Close 0; Open "/dev/null"; Dup 0;
                           Dup 0; Log LOG_ERR (Msg_stderr_not_connected d2)] w3)) /\
               (o = 0 -> d1 = 1 -> d2 = 2 ->
                fork_off_child ans w2 =
                  (Ret tt,
                   record [Close 2; Close 1; Close 0; Open "/dev/null"; Dup 0;
                           Dup 0] w3) /\
                history (snd (fork_off_child ans w2)) =
                  history w2 ++
                    [Fork; Setsid; Enter_pidfile_create; Fopen file;
                     Fprintf pid_line; Fclose; Close 2; Close 1; Close 0;
                     Open "/dev/null"; Dup 0; Dup 0])))).
Proof.
  intros ans w. cbv zeta. split.
  - apply daemonization_gate.
  - intros w2.
    destruct (fork_off_child_sequence ans w2) as (Hfail & Hparent & Hchild).
    split; [exact Hfail |]. split; [exact Hparent |].
    intros Hpid file Hfile. split.
    + intros e Hopen.
      rewrite (fork_off_child_pidfile_failure ans w2 file e Hpid Hfile Hopen).
      rewrite !record_record. split; reflexivity.
    + intros v Hopen.
      destruct (pidfile_create_success ans (record [Fork; Setsid] w2) file v)
        as (w3 & Hrun & Hfiles & Hstream & Hhist & _ & _ & _ & _);
        [exact Hfile | exact Hopen |].
      cbn [files history record] in Hfiles, Hhist.
      rewrite <- app_assoc in Hhist. cbn [app] in Hhist.
      assert (Hlook : files w3 !! file =
                      Some (decimal (int_wrap (getpid_answer ans)) ++ newline)%string).
      { rewrite Hfiles. apply lookup_insert_eq. }
      destruct (Hchild Hpid 0 w3 Hrun) as (_ & Ho & Hd1 & Hd2 & Hgood).
      exists w3. split; [exact Hrun |]. split; [exact Hfiles |].
      split; [exact Hlook |]. split; [exact Hstream |]. split; [exact Hhist |].
      split.
      { destruct (Z.eq_dec (ret_of (open_answer ans)) 0) as [H0 | H0].
        2: { rewrite (Ho eq_refl H0). exact Hlook. }
        destruct (Z.eq_dec (ret_of (dup_stdout_answer ans)) 1) as [H1 | H1].
        2: { rewrite (Hd1 eq_refl H0 H1). exact Hlook. }
        destruct (Z.eq_dec (ret_of (dup_stderr_answer ans)) 2) as [H2 | H2].
        2: { rewrite (Hd2 eq_refl H0 H1 H2). exact Hlook. }
        rewrite (Hgood eq_refl H0 H1 H2). exact Hlook. }
      split; [apply Ho; reflexivity |].
      split; [apply Hd1; reflexivity |].
      split; [apply Hd2; reflexivity |].
      intros H0 H1 H2. rewrite (Hgood eq_refl H0 H1 H2).
      split; [reflexivity |].
      cbn [snd history record]. rewrite Hhist, <- app_assoc. reflexivity.
Qed.

Lemma daemonization_sequence_witness :
  fst (fork_off_child (calm []) (boot ∅ default_options ∅ "/")) = Ret tt /\
  files (snd (fork_off_child (calm []) (boot ∅ default_options ∅ "/")))
    !! "/var/run/collectd.pid"
  = Some (decimal (int_wrap 4711) ++ newline)%string.
Proof.
  destruct (daemonization_sequence (calm []) (boot ∅ default_options ∅ "/"))
    as [_ Hseq].
  destruct (Hseq (boot ∅ default_options ∅ "/")) as (_ & _ & Hchild).
  destruct (Hchild eq_refl "/var/run/collectd.pid"%string) as [_ Hok].
  - vm_compute. reflexivity.
  - destruct (Hok 0 eq_refl) as (w3 & _ & _ & _ & _ & _ & Hfile & _ & _ & _ & Hgood).
    destruct Hgood as [Hrun _]; [reflexivity | reflexivity | reflexivity |].
    split; [rewrite Hrun; reflexivity | exact Hfile].
Defined.

(** ** The working directory *)

Lemma strip_trailing_slashes_le (dir : list ascii) (m : nat) :
  (strip_trailing_slashes dir m <= m)%nat.
Proof.
  induction m as [| n IH]; cbn [strip_trailing_slashes]; [lia |].
  destruct (dir !! n) as [c |]; [| lia].
  destruct (Ascii.eqb c "/"); lia.
Qed.

(** What the loop cuts off is slashes only. *)
Lemma strip_trailing_slashes_suffix (dir : list ascii) (m : nat) :
  take m dir =
    take (strip_trailing_slashes dir m) dir
      ++ replicate (m - strip_trailing_slashes dir m)%nat "/"%char.
Proof.
  induction m as [| n IH]; cbn [strip_trailing_slashes].
  - cbn. reflexivity.
  - destruct (dir !! n) as [c |] eqn:Hc.
    + destruct (Ascii.eqb_spec c "/") as [-> | Hne].
      * rewrite (take_S_r dir n "/"%char Hc), IH at 1.
        pose proof (strip_trailing_slashes_le dir n) as Hle.
        replace (S n - strip_trailing_slashes dir n)%nat
          with (S (n - strip_trailing_slashes dir n)) by lia.
        rewrite replicate_S_end, app_assoc. reflexivity.
      * rewrite Nat.sub_diag. cbn [replicate]. rewrite app_nil_r. reflexivity.
    + rewrite Nat.sub_diag. cbn [replicate]. rewrite app_nil_r. reflexivity.
Qed.

(** Where the loop stops there is a character other than a slash. *)
Lemma strip_trailing_slashes_last (dir : list ascii) (m p : nat) :
  (m <= List.length dir)%nat -> strip_trailing_slashes dir m = S p ->
  exists c, dir !! p = Some c /\ c <> "/"%char.
Proof.
  induction m as [| n IH]; cbn [strip_trailing_slashes]; intros Hm Hs.
  - discriminate Hs.
  - destruct (dir !! n) as [c |] eqn:Hc.
    + destruct (Ascii.eqb_spec c "/") as [-> | Hne].
      * apply IH; [lia | exact Hs].
      * injection Hs as <-. exists c. split; [exact Hc | exact Hne].
    + apply lookup_ge_None in Hc. lia.
Qed.

Lemma strip_trailing_slashes_zero (dir : list ascii) :
  strip_trailing_slashes dir (List.length dir) = 0%nat <->
  Forall (fun c => c = "/"%char) dir.
Proof.
  split.
  - intros Hz.
    pose proof (strip_trailing_slashes_suffix dir (List.length dir)) as Hs.
    rewrite Hz, firstn_all in Hs. cbn [take app] in Hs. rewrite Hs.
    apply Forall_replicate. reflexivity.
  - intros Hall.
    destruct (strip_trailing_slashes dir (List.length dir)) as [| p] eqn:Hs;
      [reflexivity |].
    destruct (strip_trailing_slashes_last dir (List.length dir) p (le_n _) Hs)
      as (c & Hc & Hne).
    exfalso. apply Hne. exact (Forall_lookup_1 _ _ _ _ Hall Hc).
Qed.

(** C10.  [change_basedir], for every path: the trailing '/' characters
    are cut off before anything else is done with it; a path of slashes
    only (the root "/" among them) or an empty one is rejected with -1
    and no system call.  Otherwise the stripped path is passed to chdir:
    success returns 0 with the stripped path as the working directory; a
    failure other than ENOENT is logged and returns -1; on ENOENT the
    directory is created with mode 0777 and the chdir is tried again,
    where a failing mkdir or a failing second chdir is logged and returns
    -1, and success returns 0 with the stripped path as the working
    directory.  Whenever -1 is returned the working directory is the one
    before the call.  (A failing strdup is logged and returns -1.) *)
Theorem change_basedir_cases :
  forall (ans : answers) (w : world) (orig_dir : string),
    let chars := list_ascii_of_string orig_dir in
    let dirlen := strip_trailing_slashes chars (List.length chars) in
    let dir := string_of_list_ascii (take dirlen chars) in
    let run := change_basedir ans orig_dir w in
    chars = take dirlen chars ++ replicate (List.length chars - dirlen)%nat "/"%char /\
    (forall p, dirlen = S p -> exists c, chars !! p = Some c /\ c <> "/"%char) /\
    (Forall (fun c => c = "/"%char) chars <-> dirlen = 0%nat) /\
    S_IRWXUGO = 511 /\
    (forall e, strdup_answer ans = Err e ->
       run = (Ret (-1), record [Log LOG_ERR (Msg_strdup_failed e)] w) /\
       cwd (snd run) = cwd w /\
       history (snd run) = history w ++ [Log LOG_ERR (Msg_strdup_failed e)]) /\
    (forall v, strdup_answer ans = Ok v ->
       (dirlen = 0%nat ->
        run = (Ret (-1), w) /\
        cwd (snd run) = cwd w /\ history (snd run) = history w) /\
       (dirlen <> 0%nat ->
        (forall x, chdir_answer ans = Ok x ->
           run = (Ret 0, record [Chdir dir] (with_cwd dir w)) /\
           cwd (snd run) = dir /\
           history (snd run) = history w ++ [Chdir dir]) /\
        (forall e, chdir_answer ans = Err e -> e <> ENOENT ->
           run = (Ret (-1),
                  record [Chdir dir; Log LOG_ERR (Msg_chdir_failed dir e)] w) /\
           cwd (snd run) = cwd w /\
           history (snd run) =
             history w ++ [Chdir dir; Log LOG_ERR (Msg_chdir_failed dir e)]) /\
        (chdir_answer ans = Err ENOENT ->
         (forall e, mkdir_answer ans = Err e ->
            run = (Ret (-1),
                   record [Chdir dir; Mkdir dir 511;
                           Log LOG_ERR (Msg_mkdir_failed dir e)] w) /\
            cwd (snd run) = cwd w /\
            history (snd run) =
              history w ++ [Chdir dir; Mkdir dir 511;
                            Log LOG_ERR (Msg_mkdir_failed dir e)]) /\
         (forall x, mkdir_answer ans = Ok x ->
            (forall e, chdir_again_answer ans = Err e ->
               run = (Ret (-1),
                      record [Chdir dir; Mkdir dir 511; Chdir dir;
                              Log LOG_ERR (Msg_chdir_failed dir e)] w) /\
               cwd (snd run) = cwd w /\
               history (snd run) =
                 history w ++ [Chdir dir; Mkdir dir 511; Chdir dir;
                               Log LOG_ERR (Msg_chdir_failed dir e)]) /\
            (forall y, chdir_again_answer ans = Ok y ->
               run = (Ret 0,
                      record [Chdir dir; Mkdir dir 511; Chdir dir]
                        (with_cwd dir w)) /\
               cwd (snd run) = dir /\
               history (snd run) =
                 history w ++ [Chdir dir; Mkdir dir 511; Chdir dir]))))) /\
    (fst run = Ret 0 \/ fst run = Ret (-1)) /\
    (fst run = Ret 0 -> cwd (snd run) = dir) /\
    (fst run = Ret (-1) -> cwd (snd run) = cwd w) /\
    environ (snd run) = environ w /\ options (snd run) = options w /\
    files (snd run) = files w.
Proof.
  intros ans w orig_dir chars dirlen dir run.
  assert (Hcases :
    (forall e, strdup_answer ans = Err e ->
       run = (Ret (-1), record [Log LOG_ERR (Msg_strdup_failed e)] w)) /\
    (forall v, strdup_answer ans = Ok v ->
       (dirlen = 0%nat -> run = (Ret (-1), w)) /\
       (dirlen <> 0%nat ->
        (forall x, chdir_answer ans = Ok x ->
           run = (Ret 0, record [Chdir dir] (with_cwd dir w))) /\
        (forall e, chdir_answer ans = Err e -> e <> ENOENT ->
           run = (Ret (-1),
                  record [Chdir dir; Log LOG_ERR (Msg_chdir_failed dir e)] w)) /\
        (chdir_answer ans = Err ENOENT ->
         (forall e, mkdir_answer ans = Err e ->
            run = (Ret (-1),
                   record [Chdir dir; Mkdir dir 511;
                           Log LOG_ERR (Msg_mkdir_failed dir e)] w)) /\
         (forall x, mkdir_answer ans = Ok x ->
            (forall e, chdir_again_answer ans = Err e ->
               run = (Ret (-1),
                      record [Chdir dir; Mkdir dir 511; Chdir dir;
                              Log LOG_ERR (Msg_chdir_failed dir e)] w)) /\
            (forall y, chdir_again_answer ans = Ok y ->
               run = (Ret 0,
                      record [Chdir dir; Mkdir dir 511; Chdir dir]
                        (with_cwd dir w)))))))).
  { subst run. split.
    - intros e Hdup. unfold change_basedir. rewrite Hdup. reflexivity.
    - intros v Hdup. unfold change_basedir. rewrite Hdup.
      fold chars. fold dirlen. fold dir. split.
      + intros Hz. rewrite Hz. reflexivity.
      + intros Hnz. apply Nat.eqb_neq in Hnz. rewrite Hnz.
        split; [| split].
        * intros x Hcd. rewrite Hcd. reflexivity.
        * intros e Hcd Hne. rewrite Hcd. apply Z.eqb_neq in Hne.
          unfold bind, chdir, log, act, ret. cbn [Z.eqb errno_of].
          rewrite Hne. cbn [negb]. rewrite record_record. reflexivity.
        * intros Hcd. rewrite Hcd. split.
          -- intros e Hmk. unfold bind, chdir, mkdir, bind, log, act, ret.
             rewrite Hmk. cbn. rewrite !record_record. reflexivity.
          -- intros x Hmk. split.
             ++ intros e Hagain.
                unfold bind, chdir, mkdir, bind, log, act, ret.
                rewrite Hmk, Hagain. cbn. rewrite !record_record. reflexivity.
             ++ intros y Hagain.
                unfold bind, chdir, mkdir, bind, log, act, ret.
                rewrite Hmk, Hagain. cbn.
                unfold record, with_cwd. cbn. rewrite <- !app_assoc. reflexivity. }
  destruct Hcases as [Hdup Hgo].
  split; [| split; [| split; [| split; [| split; [| split]]]]].
  - pose proof (strip_trailing_slashes_suffix chars (List.length chars)) as Hs.
    rewrite firstn_all in Hs. exact Hs.
  - intros p Hp.
    exact (strip_trailing_slashes_last chars (List.length chars) p (le_n _) Hp).
  - symmetry. apply strip_trailing_slashes_zero.
  - reflexivity.
  - intros e He. rewrite (Hdup e He). repeat split.
  - intros v Hv. destruct (Hgo v Hv) as [Hzero Hnz]. split.
    + intros Hz. rewrite (Hzero Hz). repeat split.
    + intros Hn. destruct (Hnz Hn) as (Hok & Herr & Hnoent).
      split; [| split].
      * intros x Hx. rewrite (Hok x Hx). repeat split.
      * intros e He Hne. rewrite (Herr e He Hne). repeat split.
      * intros Hcd. destruct (Hnoent Hcd) as [Hmk Hmade]. split.
        -- intros e He. rewrite (Hmk e He). repeat split.
        -- intros x Hx. destruct (Hmade x Hx) as [Hagain Hthere]. split.
           ++ intros e He. rewrite (Hagain e He). repeat split.
           ++ intros y Hy. rewrite (Hthere y Hy). repeat split.
  - destruct (strdup_answer ans) as [v | e] eqn:Hd.
    2: { rewrite (Hdup e eq_refl). cbn. repeat split; auto; discriminate. }
    destruct (Hgo v eq_refl) as [Hzero Hnz].
    destruct (Nat.eq_dec dirlen 0%nat) as [Hz | Hn].
    { rewrite (Hzero Hz). cbn. repeat split; auto; discriminate. }
    destruct (Hnz Hn) as (Hok & Herr & Hnoent).
    destruct (chdir_answer ans) as [x | e] eqn:Hcd.
    { rewrite (Hok x eq_refl). cbn. repeat split; auto; discriminate. }
    destruct (Z.eq_dec e ENOENT) as [-> | Hne].
    2: { rewrite (Herr e eq_refl Hne). cbn. repeat split; auto; discriminate. }
    destruct (Hnoent eq_refl) as [Hmk Hmade].
    destruct (mkdir_answer ans) as [x | e] eqn:Hm.
    2: { rewrite (Hmk e eq_refl). cbn. repeat split; auto; discriminate. }
    destruct (Hmade x eq_refl) as [Hagain Hthere].
    destruct (chdir_again_answer ans) as [y | e] eqn:Ha.
    + rewrite (Hthere y eq_refl). cbn. repeat split; auto; discriminate.
    + rewrite (Hagain e eq_refl). cbn. repeat split; auto; discriminate.
Qed.

Lemma change_basedir_cases_witness :
  change_basedir (calm []) "/var/lib/collectd///" (boot ∅ ∅ ∅ "/")
  = (Ret 0, record [Chdir "/var/lib/collectd"]
              (with_cwd "/var/lib/collectd" (boot ∅ ∅ ∅ "/"))) /\
  cwd (snd (change_basedir (calm []) "/var/lib/collectd///" (boot ∅ ∅ ∅ "/")))
  = "/var/lib/collectd"%string.
Proof.
  destruct (change_basedir_cases (calm []) (boot ∅ ∅ ∅ "/") "/var/lib/collectd///")
    as (_ & _ & _ & _ & _ & Hok & _).
  destruct (Hok 0 eq_refl) as [_ Hgo].
  destruct Hgo as (Hcd & _).
  - vm_compute. discriminate.
  - destruct (Hcd 0 eq_refl) as (Hrun & Hcwd & _). split; assumption.
Defined.

(** ** One create, one remove? *)

(** C6 (the code at the failing input).  A run that asks for
    daemonization (no [-f]) under upstart: the handshake reports handled,
    so the fork and with it [pidfile_create] are skipped, but [daemonize]
    is still 1 at line 917 and [pidfile_remove] runs.  The process, which
    never called [pidfile_create], unlinks the PID file that was there
    (here that of another instance, process 1). *)
Theorem main_removes_pidfile_it_did_not_create :
  let env : gmap string string := <["UPSTART_JOB" := "collectd"%string]> ∅ in
  let fs : gmap string string :=
    <["/var/run/collectd.pid" := ("1" ++ newline)%string]> ∅ in
  let evs := [Clock 0; Test; Deliver SIGTERM (Ok 0); Read_returns 0; Clock 5;
              Test; Test] in
  let run := main (calm evs) [] false (boot env ∅ fs "/") in
  fst run = Exit 0 /\
  history (snd run) =
    [Plugin_init_ctx; Cf_read "/etc/collectd.conf"; Chdir "/var/lib/collectd";
     Init_global_variables; Sigaction SIGCHLD SIG_IGN;
     Log LOG_NOTICE Msg_upstart_detected; Raise SIGSTOP; Unsetenv "UPSTART_JOB";
     Sigaction SIGPIPE SIG_IGN; Sigaction SIGINT Handler_sig_int;
     Sigaction SIGTERM Handler_sig_term; Sigaction SIGUSR1 Handler_sig_usr1;
     Setlocale; Unsetenv "LC_ALL"; Setenv "LC_NUMERIC" "C"; Plugin_init_all;
     Log LOG_INFO Msg_entering_read_loop; Plugin_read_all;
     Log LOG_INFO Msg_exiting_normally; Plugin_shutdown_all;
     Enter_pidfile_remove; Unlink "/var/run/collectd.pid"] /\
  count is_pidfile_create (history (snd run)) = 0%nat /\
  count is_pidfile_remove (history (snd run)) = 1%nat /\
  fs !! "/var/run/collectd.pid" = Some ("1" ++ newline)%string /\
  files (snd run) !! "/var/run/collectd.pid" = None.
Proof.
  cbv zeta. repeat split; vm_compute; reflexivity.
Qed.

(** What holds of C6: in every run each of the two functions is entered at
    most once. *)

Lemma calls_at_most_weaken {A : Type} (c r c' r' : nat) (m : M A) :
  calls_at_most c r m -> (c <= c')%nat -> (r <= r')%nat -> calls_at_most c' r' m.
Proof.
  intros Hm Hc Hr w. destruct (Hm w) as (t & Ht & Hct & Hrt).
  exists t. repeat split; [exact Ht | lia | lia].
Qed.

Lemma calls_at_most_bind {A B : Type} (c1 r1 c2 r2 : nat) (m : M A) (k : A -> M B) :
  calls_at_most c1 r1 m -> (forall a, calls_at_most c2 r2 (k a)) ->
  calls_at_most (c1 + c2) (r1 + r2) (bind m k).
Proof.
  intros Hm Hk w. unfold bind.
  destruct (Hm w) as (t1 & Ht1 & Hc1 & Hr1).
  destruct (m w) as [[a | st | | |] w1]; cbn [snd] in *.
  - destruct (Hk a w1) as (t2 & Ht2 & Hc2 & Hr2).
    exists (t1 ++ t2). rewrite Ht2, Ht1, <- app_assoc, !count_app.
    repeat split; lia.
  - exists t1. repeat split; [exact Ht1 | lia | lia].
  - exists t1. repeat split; [exact Ht1 | lia | lia].
  - exists t1. repeat split; [exact Ht1 | lia | lia].
  - exists t1. repeat split; [exact Ht1 | lia | lia].
Qed.

Lemma quiet_bind {A B : Type} (m : M A) (k : A -> M B) :
  calls_at_most 0 0 m -> (forall a, calls_at_most 0 0 (k a)) ->
  calls_at_most 0 0 (bind m k).
Proof. intros Hm Hk. exact (calls_at_most_bind 0 0 0 0 m k Hm Hk). Qed.

Lemma quiet_pure {A : Type} (f : world -> outcome A * world) :
  (forall w, history (snd (f w)) = history w) -> calls_at_most 0 0 f.
Proof.
  intros Hf w. exists []. rewrite app_nil_r. repeat split; [apply Hf | |]; cbn; lia.
Qed.

Lemma quiet_act {c r : nat} (a : action) :
  is_pidfile_create a = false -> is_pidfile_remove a = false ->
  calls_at_most c r (act a).
Proof.
  intros Hc Hr w. exists [a]. unfold count. cbn. rewrite Hc, Hr. cbn.
  repeat split; lia.
Qed.

Lemma quiet_ret {A : Type} {c r : nat} (a : A) : calls_at_most c r (ret a).
Proof.
  apply (calls_at_most_weaken 0 0); [| lia | lia].
  apply quiet_pure. reflexivity.
Qed.

Lemma quiet_exit_with {A : Type} {c r : nat} (st : Z) :
  calls_at_most c r (@exit_with A st).
Proof.
  apply (calls_at_most_weaken 0 0); [| lia | lia].
  apply quiet_pure. reflexivity.
Qed.

Lemma do_loop_step_markers (e : event) (s s' : sched) :
  do_loop_step e s = Some s' ->
  exists t, trace s' = trace s ++ t /\
            count is_pidfile_create t = 0%nat /\ count is_pidfile_remove t = 0%nat.
Proof.
  unfold do_loop_step.
  destruct e as [sg | t | | st | [| errno rem]]; destruct (pc s);
    try discriminate;
    repeat match goal with
           | |- context [if ?b then _ else _] => destruct b
           end;
    intros H; injection H as <-;
    try (destruct sg);
    cbn [trace set_pc set_wait_until set_ts_wait emit deliver set_loop
           sig_usr1_handler];
    first [ exists []; rewrite app_nil_r; repeat split; reflexivity
          | eexists; split; [reflexivity | split; reflexivity] ].
Qed.

Lemma do_loop_run_markers (es : list event) :
  forall s s' : sched,
    do_loop_run es s = Some s' ->
    exists t, trace s' = trace s ++ t /\
              count is_pidfile_create t = 0%nat /\ count is_pidfile_remove t = 0%nat.
Proof.
  induction es as [| e es IH]; intros s s' Hrun; cbn [do_loop_run] in Hrun.
  - injection Hrun as <-. exists []. rewrite app_nil_r. repeat split; reflexivity.
  - destruct (do_loop_step e s) as [s1 |] eqn:Hstep; [| discriminate].
    destruct (do_loop_step_markers e s s1 Hstep) as (t1 & Ht1 & Hc1 & Hr1).
    destruct (IH s1 s' Hrun) as (t2 & Ht2 & Hc2 & Hr2).
    exists (t1 ++ t2). rewrite Ht2, Ht1, <- app_assoc, !count_app.
    repeat split; lia.
Qed.

Lemma quiet_do_loop (ans : answers) : calls_at_most 0 0 (do_loop ans).
Proof.
  intros w. unfold do_loop.
  destruct (do_loop_run (loop_events ans) _) as [s |] eqn:Hrun.
  - destruct (do_loop_run_markers _ _ _ Hrun) as (t & Ht & Hc & Hr).
    cbn [trace do_loop_enter app] in Ht.
    exists t. cbn [snd history record]. rewrite Ht.
    repeat split; lia.
  - exists []. rewrite app_nil_r. repeat split; cbn; lia.
Qed.

Lemma quiet_bind_l {A B : Type} (c r : nat) (m : M A) (k : A -> M B) :
  calls_at_most 0 0 m -> (forall a, calls_at_most c r (k a)) ->
  calls_at_most c r (bind m k).
Proof. intros Hm Hk. exact (calls_at_most_bind 0 0 c r m k Hm Hk). Qed.

Lemma quiet_bind_r {A B : Type} (c r : nat) (m : M A) (k : A -> M B) :
  calls_at_most c r m -> (forall a, calls_at_most 0 0 (k a)) ->
  calls_at_most c r (bind m k).
Proof.
  intros Hm Hk.
  apply (calls_at_most_weaken (c + 0) (r + 0)); [| lia | lia].
  exact (calls_at_most_bind c r 0 0 m k Hm Hk).
Qed.

(** A primitive that adds nothing, or actions other than the two markers. *)
Ltac quiet_primitive :=
  let w := fresh "w" in
  intros w; cbn;
  repeat match goal with
         | |- context [match ?x with _ => _ end] => destruct x; cbn
         end;
  first [ exists []; rewrite app_nil_r; repeat split; cbn; lia
        | eexists; split; [reflexivity | split; cbn; lia] ].

Lemma quiet_getenv (name : string) : calls_at_most 0 0 (getenv name).
Proof. quiet_primitive. Qed.

Lemma quiet_unsetenv (name : string) : calls_at_most 0 0 (unsetenv name).
Proof. quiet_primitive. Qed.

Lemma quiet_setenv (name value : string) : calls_at_most 0 0 (setenv name value).
Proof. quiet_primitive. Qed.

Lemma quiet_global_option_get (key : string) :
  calls_at_most 0 0 (global_option_get key).
Proof. quiet_primitive. Qed.

Lemma quiet_global_option_set (key value : string) :
  calls_at_most 0 0 (global_option_set key value).
Proof. quiet_primitive. Qed.

Lemma quiet_fopen_w (ans : answers) (file : string) :
  calls_at_most 0 0 (fopen_w ans file).
Proof. unfold fopen_w. quiet_primitive. Qed.

Lemma quiet_fprintf (text : string) : calls_at_most 0 0 (fprintf text).
Proof. unfold fprintf. quiet_primitive. Qed.

Lemma quiet_fclose : calls_at_most 0 0 fclose.
Proof. quiet_primitive. Qed.

Lemma quiet_unlink (ans : answers) (file : string) :
  calls_at_most 0 0 (unlink ans file).
Proof. unfold unlink. quiet_primitive. Qed.

Lemma quiet_chdir (dir : string) (a : answer) : calls_at_most 0 0 (chdir dir a).
Proof. unfold chdir. quiet_primitive. Qed.

Lemma quiet_cf_read (ans : answers) (file : string) :
  calls_at_most 0 0 (cf_read ans file).
Proof. unfold cf_read. quiet_primitive. Qed.

Lemma quiet_undefined {A : Type} : calls_at_most 0 0 (@undefined A).
Proof. quiet_primitive. Qed.

Lemma quiet_log (sev : severity) (m : message) : calls_at_most 0 0 (log sev m).
Proof. apply quiet_act; reflexivity. Qed.

Create HintDb quiet discriminated.

#[local] Hint Resolve quiet_getenv quiet_unsetenv quiet_setenv
  quiet_global_option_get quiet_global_option_set quiet_fopen_w quiet_fprintf
  quiet_fclose quiet_unlink quiet_chdir quiet_cf_read quiet_log quiet_do_loop
  : quiet.

(** Computations put together from quiet ones with bind, if and match. *)
Ltac quiet :=
  repeat first
    [ apply quiet_ret
    | apply quiet_exit_with
    | apply quiet_undefined
    | apply quiet_act; reflexivity
    | solve [auto with quiet]
    | apply quiet_bind; [| intros ?]
    | match goal with
      | |- calls_at_most _ _ (if ?b then _ else _) => destruct b
      | |- calls_at_most _ _ (match ?x with _ => _ end) => destruct x
      end ].

Lemma quiet_mkdir (ans : answers) (dir : string) (mode : Z) :
  calls_at_most 0 0 (mkdir ans dir mode).
Proof. unfold mkdir. quiet. Qed.

Lemma quiet_sigaction (sig : signal) (h : handler) (a : answer) :
  calls_at_most 0 0 (sigaction sig h a).
Proof. unfold sigaction. quiet. Qed.

(** [init_global_variables] as [main] calls it: what it adds to the
    history are its own calls and messages; it returns 0 or -1, or ends in
    the failed assertion, which it does exactly when the default interval
    is not positive. *)
Lemma init_global_variables_run (ans : answers) (w : world) :
  exists t : list Globals.call,
    snd (init_global_variables ans w) =
      record (Init_global_variables :: map action_of_call t) w /\
    match fst (init_global_variables ans w) with
    | Ret status => (status = 0 \/ status = -1) /\ 0 < default_interval ans
    | Aborted => default_interval ans <= 0
    | _ => False
    end.
Proof.
  unfold init_global_variables, Globals.init_global_variables.
  cbn [Globals.interval_g Globals.timeout_g Globals.hostname_g
         Globals.cf_get_default_interval].
  destruct (Z.ltb_spec 0 (default_interval ans)) as [Hi | Hi]; cbn [negb].
  - destruct (_ <=? 1).
    + eexists. cbn [fst snd]. split; [reflexivity | auto].
    + destruct (Globals.init_hostname _ _ _ _ _) as [[st g3] t].
      destruct (negb (st =? 0)); exists t; cbn [fst snd];
        (split; [reflexivity | auto]).
  - exists []. cbn [fst snd]. split; [reflexivity | exact Hi].
Qed.

Lemma count_action_of_call (p : action -> bool) (t : list Globals.call) :
  (forall c, p (action_of_call c) = false) ->
  count p (map action_of_call t) = 0%nat.
Proof.
  intros Hp. unfold count. induction t as [| c t IH]; [reflexivity |].
  cbn [map List.filter]. rewrite Hp. exact IH.
Qed.

Lemma forallb_action_of_call (P : action -> bool) (t : list Globals.call) :
  (forall c, P (action_of_call c) = true) ->
  forallb P (map action_of_call t) = true.
Proof.
  intros Hp. induction t as [| c t IH]; [reflexivity |].
  cbn [map forallb]. rewrite Hp. exact IH.
Qed.

Lemma quiet_init_global_variables (ans : answers) :
  calls_at_most 0 0 (init_global_variables ans).
Proof.
  intros w. destruct (init_global_variables_run ans w) as (t & Hw & _).
  exists (Init_global_variables :: map action_of_call t).
  rewrite Hw. cbn [history record]. split; [reflexivity |].
  change (Init_global_variables :: map action_of_call t)
    with ([Init_global_variables] ++ map action_of_call t).
  rewrite !count_app, !count_action_of_call by (intros c; destruct c; reflexivity).
  cbn. lia.
Qed.

Lemma quiet_do_init (ans : answers) : calls_at_most 0 0 (do_init ans).
Proof. unfold do_init. quiet. Qed.

Lemma quiet_do_shutdown (ans : answers) : calls_at_most 0 0 (do_shutdown ans).
Proof. unfold do_shutdown. quiet. Qed.

#[local] Hint Resolve quiet_mkdir quiet_sigaction quiet_init_global_variables
  quiet_do_init quiet_do_shutdown : quiet.

Lemma quiet_change_basedir (ans : answers) (dir : string) :
  calls_at_most 0 0 (change_basedir ans dir).
Proof. unfold change_basedir. quiet. Qed.

Lemma quiet_notify_upstart : calls_at_most 0 0 notify_upstart.
Proof. unfold notify_upstart. quiet. Qed.

Lemma quiet_notify_systemd (ans : answers) : calls_at_most 0 0 (notify_systemd ans).
Proof. unfold notify_systemd. quiet. Qed.

Lemma quiet_exit_usage {A : Type} (status : Z) :
  calls_at_most 0 0 (@exit_usage A status).
Proof. unfold exit_usage. quiet. Qed.

#[local] Hint Resolve quiet_change_basedir quiet_notify_upstart
  quiet_notify_systemd quiet_exit_usage : quiet.

Lemma quiet_read_options (opts : list cli_option) :
  forall c : cli, calls_at_most 0 0 (read_options opts c).
Proof.
  induction opts as [| o opts IH]; intros c; cbn [read_options].
  - quiet.
  - destruct o; quiet; apply IH.
Qed.

Lemma quiet_not_supervised (ans : answers) (d : bool) :
  calls_at_most 0 0 (not_supervised ans d).
Proof. unfold not_supervised. quiet. Qed.

Lemma quiet_install_signal_handlers (ans : answers) :
  calls_at_most 0 0 (install_signal_handlers ans).
Proof. unfold install_signal_handlers. quiet. Qed.

#[local] Hint Resolve quiet_read_options quiet_not_supervised
  quiet_install_signal_handlers : quiet.

Lemma pidfile_create_calls (ans : answers) :
  calls_at_most 1 0 (pidfile_create ans).
Proof.
  unfold pidfile_create. apply quiet_bind_r.
  - intros w. exists [Enter_pidfile_create]. repeat split; cbn; lia.
  - intros _. quiet.
Qed.

Lemma pidfile_remove_calls (ans : answers) :
  calls_at_most 0 1 (pidfile_remove ans).
Proof.
  unfold pidfile_remove. apply quiet_bind_r.
  - intros w. exists [Enter_pidfile_remove]. repeat split; cbn; lia.
  - intros _. quiet.
Qed.

Lemma fork_off_child_calls (ans : answers) :
  calls_at_most 1 0 (fork_off_child ans).
Proof.
  unfold fork_off_child. apply quiet_bind_l; [quiet | intros _].
  cbv zeta.
  destruct (ret_of (fork_answer ans) =? -1).
  { apply (calls_at_most_weaken 0 0); [quiet | lia | lia]. }
  destruct (negb (ret_of (fork_answer ans) =? 0)).
  { apply quiet_exit_with. }
  apply quiet_bind_l; [quiet | intros _].
  apply quiet_bind_r; [apply pidfile_create_calls | intros created].
  quiet.
Qed.

Lemma daemonization_calls (ans : answers) (d : bool) :
  calls_at_most 1 0 (daemonization ans d).
Proof.
  unfold daemonization. apply quiet_bind_l; [quiet | intros _].
  apply quiet_bind_l; [quiet | intros go].
  destruct go; [apply fork_off_child_calls | apply quiet_ret].
Qed.

Lemma run_and_shut_down_calls (ans : answers) (c : cli) :
  calls_at_most 0 1 (run_and_shut_down ans c).
Proof.
  unfold run_and_shut_down.
  apply quiet_bind_l; [quiet | intros i].
  apply quiet_bind_l; [quiet | intros st1].
  apply quiet_bind_l; [quiet | intros st2].
  apply quiet_bind_l; [quiet | intros _].
  apply quiet_bind_l; [quiet | intros d].
  apply quiet_bind_l; [quiet | intros st3].
  apply quiet_bind_r; [| intros _; quiet].
  destruct (daemonize c); [| apply quiet_ret].
  apply quiet_bind_r; [apply pidfile_remove_calls | intros _; quiet].
Qed.

(** In every run of [main], whatever the command line and the answers of
    the outside, [pidfile_create] and [pidfile_remove] are entered at most
    once each. *)
Lemma main_pidfile_calls_at_most_once
    (ans : answers) (opts : list cli_option) (extra : bool) :
  calls_at_most 1 1 (main ans opts extra).
Proof.
  unfold main.
  apply quiet_bind_l; [quiet | intros c].
  apply quiet_bind_l; [quiet | intros _].
  apply quiet_bind_l; [quiet | intros _].
  apply quiet_bind_l; [quiet | intros r].
  destruct (negb (r =? 0)).
  { apply (calls_at_most_weaken 0 0); [quiet | lia | lia]. }
  apply quiet_bind_l; [quiet | intros basedir].
  destruct basedir as [dir |].
  2: { apply (calls_at_most_weaken 0 0); [quiet | lia | lia]. }
  apply quiet_bind_l; [quiet | intros r1].
  destruct (negb (r1 =? 0)).
  { apply (calls_at_most_weaken 0 0); [quiet | lia | lia]. }
  apply quiet_bind_l; [quiet | intros r2].
  destruct (negb (r2 =? 0)); [apply quiet_exit_with |].
  destruct (test_config c); [apply quiet_exit_with |].
  apply (calls_at_most_bind 1 0 0 1); [apply daemonization_calls | intros _].
  apply quiet_bind_l; [quiet | intros _].
  apply quiet_bind_r; [apply run_and_shut_down_calls | intros st; quiet].
Qed.

(** * Further properties of the code *)

(** ** The scheduler once a stop is requested *)

Lemma program_steps_cons (e : event) (es : list event) :
  program_steps (e :: es) =
    match e with Deliver _ _ => program_steps es | _ => S (program_steps es) end.
Proof. unfold program_steps. cbn [List.filter]. destruct e; reflexivity. Qed.

(** One event with the stop flag set: no read-all and no sleep is started,
    the loop gets closer to its return with every instruction, and only a
    terminate signal changes the flag. *)
Lemma stopped_step (e : event) (s s' : sched) :
  loop s <> 0 -> do_loop_step e s = Some s' ->
  (exists t, trace s' = trace s ++ t /\ count starts_work t = 0%nat) /\
  (steps_to_return (pc s')
     + (if is_program_step e then 1 else 0) <= steps_to_return (pc s))%nat /\
  loop s' = (if is_termination e then int_wrap (loop s + 1) else loop s).
Proof.
  intros Hloop Hstep. apply Z.eqb_neq in Hloop. unfold do_loop_step in Hstep.
  destruct e as [sg thr | t | | st | [| errno rem]]; destruct (pc s) eqn:Hpc;
    try discriminate Hstep; rewrite ?Hloop in Hstep;
    repeat match type of Hstep with
           | context [if ?b then _ else _] => destruct b
           end;
    injection Hstep as <-;
    try (destruct sg);
    cbn [trace pc loop set_pc set_wait_until set_ts_wait emit deliver set_loop
           sig_usr1_handler sig_int_handler sig_term_handler is_terminate
           is_termination is_program_step];
    rewrite ?Hpc; cbn [steps_to_return];
    (split; [| split; [lia | reflexivity]]);
    first [ exists []; rewrite app_nil_r; split; reflexivity
          | eexists; split; [reflexivity | reflexivity] ].
Qed.

Lemma stopped_run (es : list event) :
  forall s s' : sched,
    0 < loop s -> loop s + Z.of_nat (terminations es) <= INT_MAX ->
    do_loop_run es s = Some s' ->
    (exists t, trace s' = trace s ++ t /\ count starts_work t = 0%nat) /\
    (steps_to_return (pc s') + program_steps es <= steps_to_return (pc s))%nat /\
    0 < loop s'.
Proof.
  induction es as [| e es IH]; intros s s' Hpos Hmax Hrun;
    cbn [do_loop_run] in Hrun.
  - injection Hrun as <-. split; [| split; [cbn; lia | exact Hpos]].
    exists []. rewrite app_nil_r. split; reflexivity.
  - destruct (do_loop_step e s) as [s1 |] eqn:Hstep; [| discriminate].
    destruct (stopped_step e s s1 ltac:(lia) Hstep)
      as ((t1 & Ht1 & Hw1) & Hd1 & Hl1).
    rewrite terminations_cons in Hmax.
    assert (Hs1 : 0 < loop s1 /\ loop s1 + Z.of_nat (terminations es) <= INT_MAX).
    { rewrite Hl1. unfold INT_MAX in *.
      destruct (is_termination e); [| lia].
      rewrite int_wrap_small by (unfold INT_MIN, INT_MAX; lia). lia. }
    destruct (IH s1 s' (proj1 Hs1) (proj2 Hs1) Hrun)
      as ((t2 & Ht2 & Hw2) & Hd2 & Hl2).
    split; [| split; [| exact Hl2]].
    + exists (t1 ++ t2). rewrite Ht2, Ht1, <- app_assoc, count_app.
      split; [reflexivity | lia].
    + rewrite program_steps_cons. destruct e; cbn [is_program_step] in Hd1; lia.
Qed.

(** X1.  Once the stop flag is set (and as long as [loop] does not
    overflow: the deliveries of SIGINT and SIGTERM still to come keep it at
    or below INT_MAX), [do_loop] starts no further work: whatever happens
    next, whatever else is delivered, no new read-all call and no new
    nanosleep call is made. *)
Theorem do_loop_starts_no_work_after_stop :
  forall (es : list event) (s s' : sched),
    0 < loop s -> loop s + Z.of_nat (terminations es) <= INT_MAX ->
    do_loop_run es s = Some s' ->
    exists t, trace s' = trace s ++ t /\ count starts_work t = 0%nat.
Proof.
  intros es s s' Hpos Hmax Hrun.
  exact (proj1 (stopped_run es s s' Hpos Hmax Hrun)).
Qed.

Lemma do_loop_starts_no_work_after_stop_witness :
  exists t,
    trace {| loop := 2; flush_threads := 1; pc := Returned 0; interval := 10;
             wait_until := 20; ts_wait := 5;
             trace := [Plugin_read_all; Pthread_create_do_flush] |}
      = [Plugin_read_all] ++ t /\
    count starts_work t = 0%nat.
Proof.
  apply (do_loop_starts_no_work_after_stop
           [Deliver SIGUSR1 (Ok 0); Read_returns 0; Deliver SIGTERM (Ok 0);
            Clock 5; Test; Test]
           {| loop := 1; flush_threads := 0; pc := In_read_all; interval := 10;
              wait_until := 10; ts_wait := 0; trace := [Plugin_read_all] |}).
  - cbn. lia.
  - unfold INT_MAX. cbn. lia.
  - reflexivity.
Defined.

(** X2.  A stop request is honoured within the current iteration: with
    the stop flag set (and as long as [loop] does not overflow: the
    deliveries of SIGINT and SIGTERM still to come keep it at or below
    INT_MAX), [do_loop] has returned after four more of its instructions
    at the latest (fewer from most program points), however many other
    signals arrive in between; it returns 0, or -1 if a nanosleep that was
    under way failed. *)
Theorem do_loop_returns_soon_after_stop :
  forall (es : list event) (s s' : sched),
    0 < loop s -> loop s + Z.of_nat (terminations es) <= INT_MAX ->
    (forall status, pc s <> Returned status) ->
    do_loop_run es s = Some s' ->
    (steps_to_return (pc s) <= program_steps es)%nat ->
    (steps_to_return (pc s) <= 4)%nat /\
    (pc s' = Returned 0 \/ pc s' = Returned (-1)).
Proof.
  intros es. induction es as [| e es IH]; intros s s' Hpos Hmax Hnot Hrun Hsteps.
  - exfalso. cbn in Hsteps. destruct (pc s) eqn:Hpc; cbn in Hsteps; try lia.
    eapply Hnot. reflexivity.
  - split; [destruct (pc s); cbn; lia |].
    cbn [do_loop_run] in Hrun.
    destruct (do_loop_step e s) as [s1 |] eqn:Hstep; [| discriminate].
    destruct (stopped_step e s s1 ltac:(lia) Hstep) as (_ & Hd1 & Hl1).
    rewrite terminations_cons in Hmax. rewrite program_steps_cons in Hsteps.
    assert (Hs1 : 0 < loop s1 /\ loop s1 + Z.of_nat (terminations es) <= INT_MAX).
    { rewrite Hl1. unfold INT_MAX in *.
      destruct (is_termination e); [| lia].
      rewrite int_wrap_small by (unfold INT_MIN, INT_MAX; lia). lia. }
    destruct (pc s1) as [| | | | | | status1] eqn:Hpc1.
    7: { destruct (do_loop_return_points e s s1 status1 Hstep Hnot Hpc1)
           as [(-> & _) | (-> & _)];
           rewrite (returned_stays es s1 s' _ Hpc1 Hrun); auto. }
    all: apply (IH s1 s' (proj1 Hs1) (proj2 Hs1));
      [ intros status0; rewrite Hpc1; discriminate
      | exact Hrun
      | rewrite Hpc1 in *; destruct e; cbn [is_program_step] in Hd1; lia ].
Qed.

Lemma do_loop_returns_soon_after_stop_witness :
  exists s',
    do_loop_run
      [Deliver SIGUSR1 (Err 11); Read_returns 0; Deliver SIGCHLD (Ok 0);
       Clock 5; Test; Deliver SIGTERM (Ok 0); Test]
      {| loop := 1; flush_threads := 0; pc := In_read_all; interval := 10;
         wait_until := 10; ts_wait := 0; trace := [Plugin_read_all] |}
    = Some s' /\
    (pc s' = Returned 0 \/ pc s' = Returned (-1)).
Proof.
  eexists. split; [reflexivity |].
  apply (do_loop_returns_soon_after_stop
           [Deliver SIGUSR1 (Err 11); Read_returns 0; Deliver SIGCHLD (Ok 0);
            Clock 5; Test; Deliver SIGTERM (Ok 0); Test]
           {| loop := 1; flush_threads := 0; pc := In_read_all; interval := 10;
              wait_until := 10; ts_wait := 0; trace := [Plugin_read_all] |}).
  - cbn. lia.
  - unfold INT_MAX. cbn. lia.
  - intros status. discriminate.
  - reflexivity.
  - cbn. lia.
Defined.

(** ** Flush signals and ignored signals *)

Lemma count_snoc (p : action -> bool) (t : list action) (a : action) :
  count p (t ++ [a]) = (count p t + (if p a then 1 else 0))%nat.
Proof. rewrite count_app. unfold count. cbn. destruct (p a); reflexivity. Qed.

(** One event from two states that differ in flush matters only: an event
    that bears on the schedule takes both the same way; any other delivery
    leaves the schedule where it is. *)
Lemma flush_step (e : event) (a a' b : sched) :
  same_but_flush a b -> do_loop_step e a = Some a' ->
  (if bears_on_schedule e
   then exists b', do_loop_step e b = Some b' /\ same_but_flush a' b'
   else same_but_flush a' b) /\
  count is_pthread_create (trace a') =
    (count is_pthread_create (trace a) + (if is_flush_request e then 1 else 0))%nat /\
  flush_threads a' =
    (flush_threads a + (if is_flush_start e then 1 else 0))%nat.
Proof.
  destruct a as [la fa pa ia wa ta tra], b as [lb fb pb ib wb tb trb].
  unfold same_but_flush. cbn [loop pc interval wait_until ts_wait trace].
  intros (<- & <- & <- & <- & <- & Htr) Hstep.
  unfold do_loop_step in *. cbn [pc loop wait_until interval ts_wait] in *.
  destruct e as [sg thr | t | | st | [| errno rem]]; destruct pa;
    try discriminate Hstep;
    repeat match type of Hstep with
           | context [if ?c then _ else _] => destruct c
           end;
    injection Hstep as <-;
    try (destruct sg); try (destruct thr);
    cbn [bears_on_schedule is_terminate is_flush_request is_flush_start
           is_success deliver set_loop set_pc set_wait_until set_ts_wait emit
           sig_usr1_handler loop pc interval wait_until ts_wait trace
           flush_threads];
    rewrite ?count_snoc; cbn [is_pthread_create];
    (split; [| split; lia]);
    try (eexists; split; [reflexivity |]);
    cbn [loop pc interval wait_until ts_wait trace set_loop set_pc
           set_wait_until set_ts_wait emit];
    rewrite ?List.filter_app, ?Htr; cbn [List.filter is_pthread_create negb];
    rewrite ?app_nil_r;
    repeat split; reflexivity.
Qed.

(** X3.  A SIGUSR1 does nothing but call pthread_create for a flush
    thread: over any run of [do_loop], the pthread_create calls made are
    as many as the deliveries of SIGUSR1 and the threads that came to run
    as many as those calls that succeeded (the handler drops the result of
    the call), and the schedule is the one of the same script without
    SIGUSR1 and without the ignored signals: same stop flag, program
    point, interval, deadline and sleep request, and the same actions but
    for the pthread_create calls. *)
Theorem flush_signals_leave_the_schedule_alone :
  forall (es : list event) (s s' : sched),
    do_loop_run es s = Some s' ->
    count is_pthread_create (trace s') =
      (count is_pthread_create (trace s)
       + List.length (List.filter is_flush_request es))%nat /\
    flush_threads s' =
      (flush_threads s + List.length (List.filter is_flush_start es))%nat /\
    (List.length (List.filter is_flush_start es)
     <= List.length (List.filter is_flush_request es))%nat /\
    exists s'',
      do_loop_run (List.filter bears_on_schedule es) s = Some s'' /\
      same_but_flush s' s'' /\
      count is_pthread_create (trace s'') = count is_pthread_create (trace s) /\
      flush_threads s'' = flush_threads s.
Proof.
  intros es s s' Hrun.
  assert (Hgen : forall es a a' b,
             same_but_flush a b -> do_loop_run es a = Some a' ->
             count is_pthread_create (trace a') =
               (count is_pthread_create (trace a)
                + List.length (List.filter is_flush_request es))%nat /\
             flush_threads a' =
               (flush_threads a + List.length (List.filter is_flush_start es))%nat /\
             exists b',
               do_loop_run (List.filter bears_on_schedule es) b = Some b' /\
               same_but_flush a' b' /\
               count is_pthread_create (trace b') =
                 count is_pthread_create (trace b) /\
               flush_threads b' = flush_threads b).
  { clear. induction es as [| e es IH]; intros a a' b Hab Hrun;
      cbn [do_loop_run List.filter] in *.
    - injection Hrun as <-. cbn [List.length]. rewrite !Nat.add_0_r.
      split; [reflexivity |]. split; [reflexivity |]. exists b. auto.
    - destruct (do_loop_step e a) as [a1 |] eqn:Hstep; [| discriminate Hrun].
      destruct (flush_step e a a1 b Hab Hstep) as (Hsim & Hc & Hf).
      destruct (bears_on_schedule e) eqn:Hbears.
      + destruct Hsim as (b1 & Hstepb & Hab1).
        destruct (IH a1 a' b1 Hab1 Hrun) as (Hc' & Hf' & b' & Hrunb & Hab' & Hcb & Hfb).
        assert (Hquiet : is_flush_request e = false /\ is_flush_start e = false).
        { destruct e as [[] thr | | | |]; try discriminate Hbears; auto. }
        destruct Hquiet as [Hq1 Hq2]. rewrite Hq1, Hq2 in *.
        rewrite Hc', Hf', Hc, Hf. split; [lia |]. split; [lia |].
        exists b'. cbn [do_loop_run]. rewrite Hstepb.
        split; [exact Hrunb |]. split; [exact Hab' |].
        destruct (flush_step e b b1 b) as (_ & Hcb1 & Hfb1).
        { repeat split. }
        { exact Hstepb. }
        rewrite Hq1, Hq2 in *. split; lia.
      + destruct (IH a1 a' b Hsim Hrun) as (Hc' & Hf' & b' & Hrunb & Hab' & Hcb & Hfb).
        rewrite Hc', Hf', Hc, Hf.
        destruct (is_flush_request e), (is_flush_start e); cbn [List.length];
          (split; [lia |]); (split; [lia |]); exists b'; auto. }
  destruct (Hgen es s s' s ltac:(repeat split) Hrun) as (Hc & Hf & s'' & Hr & Hs & Hc' & Hf').
  split; [exact Hc |]. split; [exact Hf |]. split.
  - clear. induction es as [| e es IH]; [cbn; lia |].
    cbn [List.filter].
    destruct e as [[] [] | | | |]; cbn [is_flush_request is_flush_start is_success
                                         List.length]; lia.
  - exists s''. auto.
Qed.

Lemma flush_signals_leave_the_schedule_alone_witness :
  let es := [Clock 0; Deliver SIGUSR1 (Ok 0); Test; Deliver SIGUSR1 (Err 11);
             Read_returns 0; Deliver SIGPIPE (Ok 0); Clock 5; Test] in
  exists s' s'',
    do_loop_run es (do_loop_enter 0 10) = Some s' /\
    do_loop_run [Clock 0; Test; Read_returns 0; Clock 5; Test]
      (do_loop_enter 0 10) = Some s'' /\
    count is_pthread_create (trace s') = 2%nat /\
    flush_threads s' = 1%nat /\
    same_but_flush s' s''.
Proof.
  intros es.
  destruct (flush_signals_leave_the_schedule_alone es (do_loop_enter 0 10)
              {| loop := 0; flush_threads := 1; pc := In_nanosleep;
                 interval := 10; wait_until := 20; ts_wait := 5;
                 trace := [Pthread_create_do_flush; Plugin_read_all;
                           Pthread_create_do_flush; Nanosleep 5] |} eq_refl)
    as (Hc & Hf & _ & s'' & Hrun & Hsame & _).
  eexists _, s''. split; [reflexivity |]. split; [exact Hrun |].
  split; [exact Hc |]. split; [exact Hf | exact Hsame].
Defined.

(** ** Invariants of the loop *)

(** X4.  From its entry on, [do_loop] never changes the interval it read
    at entry, and the deadline it keeps is always a value of cdtime_t
    (the sums that set it are taken modulo 2^64), whatever the clock
    returns and whatever signals arrive. *)
Theorem do_loop_keeps_interval_and_deadline :
  forall (es : list event) (l i : Z) (s : sched),
    do_loop_run es (do_loop_enter l i) = Some s ->
    interval s = i /\ (pc s <> At_entry -> is_cdtime (wait_until s)).
Proof.
  intros es l i.
  assert (Hinv : forall es s0 s,
             interval s0 = i ->
             (pc s0 <> At_entry -> is_cdtime (wait_until s0)) ->
             do_loop_run es s0 = Some s ->
             interval s = i /\ (pc s <> At_entry -> is_cdtime (wait_until s))).
  { clear es. intros es. induction es as [| e es IH]; intros s0 s Hi Hw Hrun;
      cbn [do_loop_run] in Hrun.
    - injection Hrun as <-. split; assumption.
    - destruct (do_loop_step e s0) as [s1 |] eqn:Hstep; [| discriminate].
      apply (IH s1 s); [| | exact Hrun];
        unfold do_loop_step in Hstep;
        destruct e as [sg | t | | st | [| errno rem]];
        destruct (pc s0) eqn:Hpc; try discriminate Hstep;
        repeat match type of Hstep with
               | context [if ?b then _ else _] => destruct b
               end;
        injection Hstep as <-; try (destruct sg);
        cbn [interval wait_until pc set_pc set_wait_until set_ts_wait emit
               deliver set_loop sig_usr1_handler];
        try exact Hi; intros Hne;
        try (apply cdtime_wrap_is_cdtime);
        try (apply Hw; rewrite ?Hpc; discriminate);
        try (exfalso; apply Hne; rewrite ?Hpc; reflexivity). }
  intros s Hrun. apply (Hinv es (do_loop_enter l i) s); [reflexivity | | exact Hrun].
  intros Hne. exfalso. apply Hne. reflexivity.
Qed.

Lemma do_loop_keeps_interval_and_deadline_witness :
  interval {| loop := 0; flush_threads := 0; pc := At_sleep_test; interval := 10;
              wait_until := 20; ts_wait := 5; trace := [Plugin_read_all] |} = 10.
Proof.
  apply (do_loop_keeps_interval_and_deadline
           [Clock 0; Test; Read_returns 0; Clock 5] 0 10).
  reflexivity.
Defined.

(** X5.  Interruptions do not move the schedule: after a sleep that was
    interrupted any number of times and then ran to its end, with the stop
    flag clear throughout, the deadline is the one set before the sleep;
    the nanosleep calls made are the first request followed, call by
    call, by the remainders the interrupted calls reported. *)
Theorem sleep_interruptions_keep_deadline :
  forall (remainders : list Z) (s : sched),
    pc s = At_sleep_test -> loop s = 0 ->
    exists s',
      do_loop_run (interrupted_sleep remainders) s = Some s' /\
      pc s' = At_loop_test /\
      wait_until s' = wait_until s /\
      nanosleep_requests (trace s') =
        nanosleep_requests (trace s) ++ ts_wait s :: remainders.
Proof.
  intros remainders s Hpc Hloop.
  destruct (interrupted_sleep_run remainders s Hpc Hloop)
    as (s' & Hrun & Hpc' & _ & Hwait & Hreq).
  exists s'. repeat split; assumption.
Qed.

Lemma sleep_interruptions_keep_deadline_witness :
  exists s',
    do_loop_run (interrupted_sleep [3; 1])
      {| loop := 0; flush_threads := 0; pc := At_sleep_test; interval := 10;
         wait_until := 20; ts_wait := 5; trace := [Plugin_read_all] |} = Some s' /\
    wait_until s' = 20 /\
    nanosleep_requests (trace s') = [5; 3; 1].
Proof.
  destruct (sleep_interruptions_keep_deadline [3; 1]
              {| loop := 0; flush_threads := 0; pc := At_sleep_test; interval := 10;
                 wait_until := 20; ts_wait := 5; trace := [Plugin_read_all] |}
              eq_refl eq_refl)
    as (s' & Hrun & _ & Hwait & Hreq).
  exists s'. repeat split; assumption.
Defined.

(** ** Pacing *)

Lemma pace_snoc (t : list action) (a : action) :
  pace (t ++ [a]) = pace_step (pace t) a.
Proof. unfold pace. rewrite fold_left_app. reflexivity. Qed.

Lemma paced_at_step (e : event) (s s' : sched) :
  paced_at s ->
  loop s + (if is_termination e then 1 else 0) <= INT_MAX ->
  do_loop_step e s = Some s' ->
  paced_at s' /\
  loop s' <= loop s + (if is_termination e then 1 else 0).
Proof.
  unfold paced_at. intros [Hpos Hpace] Hmax Hstep.
  destruct e as [sg thr | t | | st | r]; cbn [is_termination] in *.
  - (* a delivery *)
    cbn in Hstep. injection Hstep as <-.
    assert (Hpcd : pc (deliver sg thr s) = pc s) by (destruct sg; reflexivity).
    assert (Hp : pace (trace (deliver sg thr s)) = pace (trace s)).
    { destruct sg; cbn [deliver set_loop sig_usr1_handler emit trace];
        rewrite ?pace_snoc; try reflexivity.
      destruct (pace (trace s)) as [armed |]; reflexivity. }
    assert (Hl : loop s <= loop (deliver sg thr s)
                 <= loop s + (if is_terminate sg then 1 else 0)).
    { rewrite loop_deliver. destruct (is_terminate sg); [| lia].
      rewrite int_wrap_small by (unfold INT_MIN, INT_MAX in *; lia). lia. }
    rewrite Hpcd, Hp. split; [split; [lia |] | lia].
    destruct (pc s); try exact Hpace.
    destruct Hpace as (armed & Ha & Harmed). exists armed.
    split; [exact Ha | intros H0; apply Harmed; lia].
  - (* a clock reading *)
    unfold do_loop_step in Hstep.
    destruct (pc s) eqn:Hpc; try discriminate Hstep.
    + injection Hstep as <-. cbn. split; [split; [lia |] | lia].
      exists true. split; [exact Hpace | reflexivity].
    + destruct Hpace as (armed & Ha).
      destruct (wait_until s <=? t); injection Hstep as <-;
        cbn [loop pc trace set_pc set_wait_until set_ts_wait emit];
        (split; [split; [lia |] | lia]).
      * rewrite pace_snoc, Ha. cbn. exists true. split; reflexivity.
      * exists armed. exact Ha.
  - (* a loop test *)
    unfold do_loop_step in Hstep.
    destruct (pc s) eqn:Hpc; try discriminate Hstep.
    + destruct Hpace as (armed & Ha & Harmed).
      destruct (Z.eqb_spec (loop s) 0) as [H0 | Hne]; injection Hstep as <-;
        cbn [loop pc trace set_pc emit]; (split; [split; [lia |] | lia]).
      * rewrite pace_snoc, Ha, (Harmed H0). cbn. exists false. reflexivity.
      * exists armed. exact Ha.
    + destruct Hpace as (armed & Ha).
      destruct (Z.eqb_spec (loop s) 0) as [H0 | Hne]; injection Hstep as <-;
        cbn [loop pc trace set_pc emit]; (split; [split; [lia |] | lia]).
      * rewrite pace_snoc, Ha. reflexivity.
      * exists armed. split; [exact Ha | intros H0; contradiction].
  - (* the read-all returns *)
    unfold do_loop_step in Hstep.
    destruct (pc s) eqn:Hpc; try discriminate Hstep.
    injection Hstep as <-. cbn. split; [split; [lia |] | lia]. exact Hpace.
  - (* nanosleep returns *)
    unfold do_loop_step in Hstep.
    destruct (pc s) eqn:Hpc; try (destruct r; discriminate Hstep).
    destruct r as [| errno rem].
    + injection Hstep as <-. cbn. split; [split; [lia |] | lia].
      exists true. split; [exact Hpace | reflexivity].
    + destruct (errno =? EINTR); injection Hstep as <-;
        cbn [loop pc trace set_pc set_ts_wait emit];
        (split; [split; [lia |] | lia]).
      * exists true. exact Hpace.
      * rewrite pace_snoc, Hpace. cbn. exists true. reflexivity.
Qed.

(** X6.  [do_loop] never runs two read-alls in a row silently: in the
    trace of every run from its entry (as long as [loop] does not
    overflow: the deliveries of SIGINT and SIGTERM keep it at or below
    INT_MAX, whatever else is delivered), between one read-all call and the
    next there is a nanosleep call or a warning that it is not sleeping. *)
Theorem do_loop_reads_are_paced :
  forall (es : list event) (l i : Z) (s : sched),
    0 <= l -> l + Z.of_nat (terminations es) <= INT_MAX ->
    do_loop_run es (do_loop_enter l i) = Some s ->
    exists armed, pace (trace s) = Some armed.
Proof.
  intros es l i s Hl Hmax Hrun.
  assert (Hinv : forall es s0 s,
             paced_at s0 -> loop s0 + Z.of_nat (terminations es) <= INT_MAX ->
             do_loop_run es s0 = Some s -> paced_at s).
  { clear. intros es. induction es as [| e es IH]; intros s0 s Hp Hmax Hrun;
      cbn [do_loop_run] in Hrun.
    - injection Hrun as <-. exact Hp.
    - destruct (do_loop_step e s0) as [s1 |] eqn:Hstep; [| discriminate].
      rewrite terminations_cons in Hmax.
      destruct (paced_at_step e s0 s1 Hp) as [Hp1 Hl1];
        [destruct (is_termination e); lia | exact Hstep |].
      apply (IH s1 s Hp1); [destruct (is_termination e); lia | exact Hrun]. }
  assert (Hp : paced_at s).
  { apply (Hinv es (do_loop_enter l i) s); [| exact Hmax | exact Hrun].
    split; [exact Hl | reflexivity]. }
  destruct Hp as [_ Hp]. destruct (pc s); eauto.
  destruct Hp as (armed & Hp & _). eauto.
Qed.

Lemma do_loop_reads_are_paced_witness :
  exists armed,
    pace [Plugin_read_all; Nanosleep 5; Plugin_read_all;
          Log LOG_WARNING (Msg_not_sleeping 11); Plugin_read_all]
      = Some armed.
Proof.
  apply (do_loop_reads_are_paced
           [Clock 0; Test; Read_returns 0; Clock 5; Test;
            Sleep_returns Sleep_done; Test; Read_returns 0; Clock 31; Test]
           0 10
           {| loop := 0; flush_threads := 0; pc := In_read_all; interval := 10;
              wait_until := 41; ts_wait := 5;
              trace := [Plugin_read_all; Nanosleep 5; Plugin_read_all;
                        Log LOG_WARNING (Msg_not_sleeping 11);
                        Plugin_read_all] |}).
  - lia.
  - unfold INT_MAX. cbn. lia.
  - reflexivity.
Defined.

(** ** The notification socket *)

Lemma length_sstrncpy (src : string) (n : nat) :
  List.length (sstrncpy src n) = Nat.max n (Nat.min (n - 1) (String.length src)).
Proof.
  unfold sstrncpy. rewrite length_app, length_replicate, length_take.
  rewrite length_list_ascii_of_string. lia.
Qed.

Lemma sstrncpy_terminated (src : string) (n : nat) :
  (1 <= n)%nat -> sstrncpy src n !! (n - 1)%nat = Some zero.
Proof.
  intros Hn. unfold sstrncpy.
  set (body := take (n - 1)%nat (list_ascii_of_string src)).
  assert (Hlen : (List.length body <= n - 1)%nat).
  { subst body. rewrite length_take. lia. }
  rewrite lookup_app_r by exact Hlen.
  apply lookup_replicate_2. lia.
Qed.

(** X7.  The address handed to sendto stays inside [struct sockaddr_un]
    whatever NOTIFY_SOCKET holds: [sun_path] is filled to exactly its 108
    bytes and ends in a null byte (a longer value is cut, not written past
    the end), and the address length is at least the size of the family
    field and never more than the size of the structure. *)
Theorem notify_address_within_bounds :
  forall v : string,
    List.length (fst (notify_address v)) = sizeof_sun_path /\
    fst (notify_address v) !! 107%nat = Some zero /\
    sizeof_sa_family_t <= snd (notify_address v) <= sizeof_sockaddr_un /\
    (first_char_is "@" v = true ->
     fst (notify_address v) !! 0%nat = Some zero /\
     snd (notify_address v) =
       Z.min sizeof_sockaddr_un (sizeof_sa_family_t + Z.of_nat (String.length v))).
Proof.
  intros v. unfold notify_address, sizeof_sun_path, sizeof_sockaddr_un,
    sizeof_sa_family_t.
  pose proof (length_sstrncpy v 108) as Hlen.
  pose proof (sstrncpy_terminated v 108 ltac:(lia)) as Hterm.
  cbn [Nat.sub] in Hterm.
  destruct (first_char_is "@" v); cbn [negb fst snd].
  - rewrite length_insert.
    rewrite list_lookup_insert_ne by lia.
    destruct (Z.ltb_spec 110 (2 + Z.of_nat (String.length v))).
    + repeat split; try lia; try exact Hterm.
      apply list_lookup_insert_eq. lia.
    + repeat split; try lia; try exact Hterm.
      apply list_lookup_insert_eq. lia.
  - repeat split; try lia; try exact Hterm.
Qed.

(** What [notify_systemd] adds to the history, path by path. *)
Lemma notify_systemd_trace :
  forall (ans : answers) (w : world),
    exists (r : Z) (w' : world) (t : list action),
      notify_systemd ans w = (Ret r, w') /\
      (r = 0 \/ r = 1) /\
      history w' = history w ++ t /\
      (count is_socket t <= 1)%nat /\
      (count is_sendto t <= 1)%nat /\
      count is_close t =
        (if (0 <? count is_socket t)%nat && (0 <=? ret_of (socket_answer ans))
         then 1%nat else 0%nat) /\
      (count is_sendto t = 1%nat -> count is_close t = 1%nat) /\
      count is_raise t = 0%nat /\
      (r = 0 -> count is_sendto t = 0%nat \/ ret_of (sendto_answer ans) < 0) /\
      options w' = options w /\ files w' = files w /\ cwd w' = cwd w.
Proof.
  intros ans w.
  unfold notify_systemd, bind, getenv, log, act, unsetenv, ret.
  destruct (environ w !! "NOTIFY_SOCKET") as [v |].
  2: { exists 0, w, []. rewrite app_nil_r. cbn. repeat split; auto. }
  destruct ((String.length v <? 2)%nat
            || negb (first_char_is "@" v) && negb (first_char_is "/" v)).
  { eexists _, _, _. split; [reflexivity |]. cbn. repeat split; auto. }
  destruct (notify_address v) as [sun_path su_size].
  destruct (Z.ltb_spec (ret_of (socket_answer ans)) 0) as [Hfd | Hfd].
  { eexists _, _, _. split; [reflexivity |].
    cbn [history options files cwd record with_environ].
    rewrite <- !app_assoc.
    split; [auto |]. split; [reflexivity |]. cbn.
    destruct (Z.leb_spec 0 (ret_of (socket_answer ans))); [lia |].
    repeat split; auto; discriminate. }
  destruct (Z.ltb_spec (ret_of (sendto_answer ans)) 0) as [Hs | Hs].
  - eexists _, _, _. split; [reflexivity |].
    cbn [history options files cwd record with_environ].
    rewrite <- !app_assoc.
    split; [auto |]. split; [reflexivity |]. cbn.
    destruct (Z.leb_spec 0 (ret_of (socket_answer ans))); [| lia].
    repeat split; auto.
  - eexists _, _, _. split; [reflexivity |].
    cbn [history options files cwd record with_environ].
    rewrite <- !app_assoc.
    split; [auto |]. split; [reflexivity |]. cbn.
    destruct (Z.leb_spec 0 (ret_of (socket_answer ans))); [| lia].
    repeat split; auto. discriminate.
Qed.


(** X8.  [notify_systemd] never leaks its socket and never ends the
    process: it always returns 0 or 1, it creates at most one socket and
    makes at most one sendto call, and it closes a descriptor exactly when
    socket creation succeeded, once, on the failure path of sendto as on
    the success path. *)
Theorem notify_systemd_closes_its_socket :
  forall (ans : answers) (w : world),
    exists (r : Z) (w' : world) (t : list action),
      notify_systemd ans w = (Ret r, w') /\
      (r = 0 \/ r = 1) /\
      history w' = history w ++ t /\
      (count is_socket t <= 1)%nat /\
      (count is_sendto t <= 1)%nat /\
      count is_close t =
        (if (0 <? count is_socket t)%nat && (0 <=? ret_of (socket_answer ans))
         then 1%nat else 0%nat) /\
      (count is_sendto t = 1%nat -> count is_close t = 1%nat) /\
      options w' = options w /\ files w' = files w /\ cwd w' = cwd w.
Proof.
  intros ans w.
  destruct (notify_systemd_trace ans w)
    as (r & w' & t & Hrun & Hr & Hhist & Hsock & Hsend & Hclose & Hsc & _ & _ & Hframe).
  exists r, w', t. repeat split; try assumption; apply Hframe.
Qed.

(** X9.  The two handshakes exclude each other and gate the fork: the
    condition of line 734 performs at most one of them (never both
    SIGSTOP and a socket), performs none when daemonizing was not asked
    for, and lets the fork happen only if no SIGSTOP was raised and no
    datagram was sent successfully. *)
Theorem handshakes_are_exclusive :
  forall (ans : answers) (d : bool) (w : world),
    exists (go : bool) (w' : world) (t : list action),
      not_supervised ans d w = (Ret go, w') /\
      history w' = history w ++ t /\
      (count is_raise t + count is_socket t <= 1)%nat /\
      (d = false -> go = false /\ w' = w) /\
      (go = true ->
       d = true /\ count is_raise t = 0%nat /\
       (count is_sendto t = 0%nat \/ ret_of (sendto_answer ans) < 0)).
Proof.
  intros ans d w. unfold not_supervised.
  destruct d.
  2: { exists false, w, []. rewrite app_nil_r. cbn. repeat split; auto;
       discriminate. }
  unfold bind at 1.
  unfold notify_upstart, bind at 1, getenv, log, act, unsetenv, ret.
  destruct (environ w !! "UPSTART_JOB") as [job |].
  - destruct (negb (String.eqb job "collectd")).
    + unfold bind. change (0 =? 0) with true. cbv beta iota.
      destruct (notify_systemd_trace ans
                  (record [Log LOG_WARNING (Msg_unexpected_upstart_job job)] w))
        as (r & w' & t & Hrun & Hr & Hhist & Hsock & Hsend & Hclose & _
            & Hraise & Hsent & _).
      rewrite Hrun.
      exists (r =? 0), w', ([Log LOG_WARNING (Msg_unexpected_upstart_job job)] ++ t).
      split; [reflexivity |]. split.
      { rewrite Hhist. cbn [history record]. rewrite <- app_assoc. reflexivity. }
      rewrite !count_app.
      cbn [count List.filter is_raise is_socket is_sendto List.length Nat.add].
      fold (count is_raise t). fold (count is_socket t). fold (count is_sendto t).
      split; [lia |]. split; [discriminate |].
      intros Hgo. apply Z.eqb_eq in Hgo. auto.
    + cbn. eexists false, _, _. split; [reflexivity |].
      cbn [history record with_environ]. rewrite <- !app_assoc.
      split; [reflexivity |]. cbn. repeat split; try lia; discriminate.
  - unfold bind. change (0 =? 0) with true. cbv beta iota.
    destruct (notify_systemd_trace ans w)
      as (r & w' & t & Hrun & Hr & Hhist & Hsock & Hsend & Hclose & _
          & Hraise & Hsent & _).
    rewrite Hrun.
    exists (r =? 0), w', t.
    split; [reflexivity |]. split; [exact Hhist |].
    split; [lia |]. split; [discriminate |].
    intros Hgo. apply Z.eqb_eq in Hgo. auto.
Qed.

(** ** The PID file and the file table *)

(** X10.  Creating and then removing the PID file is a round trip on the
    file table: [pidfile_create] touches no file but the one at the
    configured path (whose earlier content it replaces) and leaves no
    stream open, and after [pidfile_remove] the table is the initial one
    without that path, hence exactly the initial one if the file did not
    exist before. *)
Theorem pidfile_roundtrip_on_files :
  forall (ans : answers) (w : world) (file : string) (v : Z),
    options w !! "PIDFile" = Some file ->
    fopen_answer ans = Ok v -> unlink_fault ans = None ->
    exists (w1 w2 : world),
      pidfile_create ans w = (Ret 0, w1) /\
      pidfile_remove ans w1 = (Ret 0, w2) /\
      (forall other, other <> file -> files w1 !! other = files w !! other) /\
      stream w1 = None /\
      files w2 = delete file (files w) /\
      (files w !! file = None -> files w2 = files w) /\
      environ w2 = environ w /\ options w2 = options w /\ cwd w2 = cwd w.
Proof.
  intros ans w file v Hfile Hopen Hfault.
  destruct (pidfile_create_success ans w file v Hfile Hopen)
    as (w1 & Hc & Hfiles & Hstream & _ & Henv & Hopts & Hcwd & _).
  assert (Hr : pidfile_remove ans w1 =
               (Ret 0, record [Unlink file]
                         (with_files (delete file (files w1))
                            (record [Enter_pidfile_remove] w1)))).
  { unfold pidfile_remove, bind, act, global_option_get, unlink, ret.
    cbn [options record files]. rewrite Hopts, Hfile, Hfault. cbn [record files].
    rewrite Hfiles, lookup_insert_eq. reflexivity. }
  eexists w1, _. split; [exact Hc |]. split; [exact Hr |].
  cbn [files environ options cwd record with_files].
  rewrite Hfiles, delete_insert_eq.
  repeat split; try assumption.
  - intros other Hne. apply lookup_insert_ne. congruence.
  - intros Hnone. apply delete_id. exact Hnone.
Qed.

Lemma pidfile_roundtrip_on_files_witness :
  exists (w1 w2 : world),
    pidfile_create (calm []) (boot ∅ default_options ∅ "/") = (Ret 0, w1) /\
    pidfile_remove (calm []) w1 = (Ret 0, w2) /\
    files w2 = files (boot ∅ default_options ∅ "/").
Proof.
  destruct (pidfile_roundtrip_on_files (calm []) (boot ∅ default_options ∅ "/")
              "/var/run/collectd.pid" 0)
    as (w1 & w2 & Hc & Hr & _ & _ & _ & Hsame & _).
  - vm_compute. reflexivity.
  - reflexivity.
  - reflexivity.
  - exists w1, w2. repeat split; try assumption. apply Hsame. reflexivity.
Defined.

(** ** More on the working directory *)

Lemma list_ascii_of_string_app (a b : string) :
  list_ascii_of_string (a ++ b) = list_ascii_of_string a ++ list_ascii_of_string b.
Proof.
  induction a as [| c a IH]; simpl; [reflexivity | f_equal; exact IH].
Qed.

Lemma strip_trailing_slashes_prefix (dir extra : list ascii) (m : nat) :
  (m <= List.length dir)%nat ->
  strip_trailing_slashes (dir ++ extra) m = strip_trailing_slashes dir m.
Proof.
  induction m as [| n IH]; intros Hm; cbn [strip_trailing_slashes];
    [reflexivity |].
  rewrite lookup_app_l by lia.
  destruct (dir !! n) as [c |]; [| reflexivity].
  destruct (Ascii.eqb c "/"); [apply IH; lia | reflexivity].
Qed.

(** X11.  Trailing slashes do not matter: [change_basedir] on a path and
    on the same path with one more '/' at its end (hence with any number
    more) do exactly the same. *)
Theorem change_basedir_ignores_trailing_slash :
  forall (ans : answers) (dir : string) (w : world),
    change_basedir ans (dir ++ "/") w = change_basedir ans dir w.
Proof.
  intros ans dir w. unfold change_basedir.
  rewrite list_ascii_of_string_app.
  change (list_ascii_of_string "/") with ["/"%char].
  set (chars := list_ascii_of_string dir).
  assert (Hstrip : strip_trailing_slashes (chars ++ ["/"%char])
                     (List.length (chars ++ ["/"%char]))
                   = strip_trailing_slashes chars (List.length chars)).
  { rewrite length_app. cbn [List.length]. rewrite Nat.add_1_r.
    cbn [strip_trailing_slashes].
    rewrite lookup_app_r by lia. rewrite Nat.sub_diag. cbn.
    apply strip_trailing_slashes_prefix. lia. }
  rewrite Hstrip.
  rewrite take_app_le by apply strip_trailing_slashes_le.
  reflexivity.
Qed.

(** X12.  [change_basedir] is all or nothing: it always returns 0 or -1;
    after -1 the working directory is the one before the call, after 0 it
    is the stripped path; environment, options and files are never
    touched; and mkdir is called at most once, and only after the first
    chdir failed with ENOENT. *)
Theorem change_basedir_all_or_nothing :
  forall (ans : answers) (orig_dir : string) (w : world),
    let chars := list_ascii_of_string orig_dir in
    let dir :=
      string_of_list_ascii
        (take (strip_trailing_slashes chars (List.length chars)) chars) in
    exists (r : Z) (w' : world) (t : list action),
      change_basedir ans orig_dir w = (Ret r, w') /\
      (r = 0 \/ r = -1) /\
      (r = -1 -> cwd w' = cwd w) /\
      (r = 0 -> cwd w' = dir) /\
      history w' = history w ++ t /\
      (count is_mkdir t <= 1)%nat /\
      (count is_mkdir t = 1%nat -> chdir_answer ans = Err ENOENT) /\
      environ w' = environ w /\ options w' = options w /\ files w' = files w.
Proof.
  intros ans orig_dir w chars dir. unfold change_basedir.
  fold chars. fold dir.
  destruct (strdup_answer ans) as [v | e].
  2: { eexists _, _, _. split; [reflexivity |]. cbn.
       repeat split; auto; try discriminate; lia. }
  destruct (strip_trailing_slashes chars (List.length chars) =? 0)%nat.
  { exists (-1), w, []. rewrite app_nil_r. cbn.
    repeat split; auto; try discriminate; lia. }
  unfold bind, chdir, mkdir, bind, log, act, ret.
  destruct (chdir_answer ans) as [x | e] eqn:Hcd; cbn [Z.eqb errno_of].
  { eexists _, _, _. split; [reflexivity |]. cbn.
    repeat split; auto; try discriminate; lia. }
  destruct (Z.eqb_spec e ENOENT) as [-> | Hne]; cbn [negb].
  2: { eexists _, _, _. split; [reflexivity |].
       cbn [history cwd environ options files record]. rewrite <- !app_assoc.
       cbn. repeat split; auto; try discriminate; lia. }
  destruct (mkdir_answer ans) as [x | e]; cbn [Z.eqb negb].
  2: { eexists _, _, _. split; [reflexivity |].
       cbn [history cwd environ options files record]. rewrite <- !app_assoc.
       cbn. repeat split; auto; try discriminate; lia. }
  destruct (chdir_again_answer ans) as [y | e]; cbn [Z.eqb negb].
  - eexists _, _, _. split; [reflexivity |].
    cbn [history cwd environ options files record with_cwd].
    rewrite <- !app_assoc.
    cbn. repeat split; auto; try discriminate; lia.
  - eexists _, _, _. split; [reflexivity |].
    cbn [history cwd environ options files record with_cwd].
    rewrite <- !app_assoc.
    cbn. repeat split; auto; try discriminate; lia.
Qed.

(** ** Plugin initialisation *)

(** X13.  [do_init] pins the numeric locale in the environment whatever
    else happens: it returns the status of [plugin_init_all], and
    afterwards LC_ALL is unset and LC_NUMERIC is "C", also when setlocale
    failed (which only costs a warning); no other variable changes. *)
Theorem do_init_pins_numeric_locale :
  forall (ans : answers) (w : world),
    exists w',
      do_init ans w = (Ret (plugin_init_all_status ans), w') /\
      environ w' !! "LC_ALL" = None /\
      environ w' !! "LC_NUMERIC" = Some COLLECTD_LOCALE /\
      (forall name, name <> "LC_ALL"%string -> name <> "LC_NUMERIC"%string ->
         environ w' !! name = environ w !! name) /\
      count (fun a => match a with Plugin_init_all => true | _ => false end)
        (history w')
      = S (count (fun a => match a with Plugin_init_all => true | _ => false end)
             (history w)).
Proof.
  intros ans w. unfold do_init, bind, act, log, act, unsetenv, setenv, ret.
  destruct (setlocale_answer ans);
    (eexists; split; [reflexivity |]);
    cbn [environ history record with_environ];
    (split; [| split; [| split]]).
  all: try (rewrite lookup_insert_ne by discriminate; apply lookup_delete_eq).
  all: try apply lookup_insert_eq.
  all: try (intros name H1 H2; rewrite lookup_insert_ne by congruence;
            apply lookup_delete_ne; congruence).
  all: rewrite !count_app; cbn; lia.
Qed.

(** ** The option loop *)

(** The option loop, option by option. *)
Lemma read_options_effect :
  forall (opts : list cli_option) (c : cli) (w : world),
    match usage_exit opts with
    | Some status =>
        exists w', read_options opts c w = (Exit status, w') /\
                   history w' = history w ++ [Print_usage]
    | None =>
        exists c' w',
          read_options opts c w = (Ret c', w') /\
          test_config c' = test_config c || existsb is_Opt_t opts /\
          test_readall c' = test_readall c || existsb is_Opt_T opts /\
          daemonize c' =
            daemonize c && negb (existsb is_Opt_f opts || existsb is_Opt_T opts) /\
          configfile c' = last_configfile opts (configfile c) /\
          options w' !! "PIDFile" = last_pidfile opts (options w !! "PIDFile") /\
          history w' = history w /\ environ w' = environ w /\
          files w' = files w /\ cwd w' = cwd w
    end.
Proof.
  intros opts. induction opts as [| o opts IH]; intros c w.
  - cbn. exists c, w. rewrite !orb_false_r, andb_true_r. repeat split.
  - destruct o; cbn [usage_exit read_options].
    + (* -C *)
      specialize (IH {| configfile := file; test_config := test_config c;
                        test_readall := test_readall c;
                        daemonize := daemonize c |} w).
      destruct (usage_exit opts); [exact IH |].
      destruct IH as (c' & w' & Hrun & H1 & H2 & H3 & H4 & H5 & H6).
      exists c', w'. cbn in *. repeat split; try assumption; apply H6.
    + (* -t *)
      specialize (IH {| configfile := configfile c; test_config := true;
                        test_readall := test_readall c;
                        daemonize := daemonize c |} w).
      destruct (usage_exit opts); [exact IH |].
      destruct IH as (c' & w' & Hrun & H1 & H2 & H3 & H4 & H5 & H6).
      exists c', w'. cbn in *. rewrite orb_true_r.
      repeat split; try assumption; apply H6.
    + (* -T *)
      unfold bind, global_option_set.
      specialize (IH {| configfile := configfile c; test_config := test_config c;
                        test_readall := true; daemonize := false |}
                    (with_options (<["ReadThreads" := "-1"%string]> (options w)) w)).
      destruct (usage_exit opts); [exact IH |].
      destruct IH as (c' & w' & Hrun & H1 & H2 & H3 & H4 & H5 & H6).
      exists c', w'. cbn in *.
      rewrite lookup_insert_ne in H5 by discriminate.
      rewrite !orb_true_r. cbn [negb]. rewrite andb_false_r.
      repeat split; try assumption; apply H6.
    + (* -P *)
      unfold bind, global_option_set.
      specialize (IH c (with_options (<["PIDFile" := file]> (options w)) w)).
      destruct (usage_exit opts); [exact IH |].
      destruct IH as (c' & w' & Hrun & H1 & H2 & H3 & H4 & H5 & H6).
      exists c', w'. cbn in *. rewrite lookup_insert_eq in H5.
      repeat split; try assumption; apply H6.
    + (* -f *)
      specialize (IH {| configfile := configfile c; test_config := test_config c;
                        test_readall := test_readall c; daemonize := false |} w).
      destruct (usage_exit opts); [exact IH |].
      destruct IH as (c' & w' & Hrun & H1 & H2 & H3 & H4 & H5 & H6).
      exists c', w'. cbn in *. rewrite andb_false_r.
      repeat split; try assumption; apply H6.
    + eexists. split; reflexivity.
    + eexists. split; reflexivity.
Qed.

(** X14.  The option loop of [main]: it ends in the usage text and an
    exit exactly when [-h] or an unknown option occurs, with status 0 if
    [-h] is the first of them and 1 otherwise, whatever else was given.
    Otherwise the flags add up: the configuration test is on iff [-t]
    occurs, the read test iff [-T] occurs, the process daemonizes iff
    neither [-f] nor [-T] occurs; the last [-C] and the last [-P] win; and
    nothing but the option store is touched. *)
Theorem read_options_outcome :
  forall (opts : list cli_option) (c : cli) (w : world),
    match usage_exit opts with
    | Some status =>
        exists w', read_options opts c w = (Exit status, w') /\
                   history w' = history w ++ [Print_usage]
    | None =>
        exists c' w',
          read_options opts c w = (Ret c', w') /\
          test_config c' = test_config c || existsb is_Opt_t opts /\
          test_readall c' = test_readall c || existsb is_Opt_T opts /\
          daemonize c' =
            daemonize c && negb (existsb is_Opt_f opts || existsb is_Opt_T opts) /\
          configfile c' = last_configfile opts (configfile c) /\
          options w' !! "PIDFile" = last_pidfile opts (options w !! "PIDFile") /\
          history w' = history w /\ environ w' = environ w /\
          files w' = files w /\ cwd w' = cwd w
    end.
Proof. exact read_options_effect. Qed.

(** ** Reasoning about what a run adds to the history *)

Section AddsOnly.

Variable P : action -> bool.
Variable Qexit : Z -> Prop.
Variable Qabort Qother : Prop.

Lemma only_bind {A B : Type} (Qr : A -> Prop) (Rr : B -> Prop)
    (m : M A) (k : A -> M B) :
  adds_only P (post Qr Qexit Qabort Qother) m ->
  (forall a, Qr a -> adds_only P (post Rr Qexit Qabort Qother) (k a)) ->
  adds_only P (post Rr Qexit Qabort Qother) (bind m k).
Proof.
  intros Hm Hk w. destruct (Hm w) as (t1 & Ht1 & Hp1 & Hq1). unfold bind.
  destruct (m w) as [[a | st | | |] w1]; cbn [fst snd post] in *.
  - destruct (Hk a Hq1 w1) as (t2 & Ht2 & Hp2 & Hq2).
    exists (t1 ++ t2). rewrite Ht2, Ht1, <- app_assoc, forallb_app, Hp1, Hp2.
    repeat split. exact Hq2.
  - exists t1. repeat split; assumption.
  - exists t1. repeat split; assumption.
  - exists t1. repeat split; assumption.
  - exists t1. repeat split; assumption.
Qed.

Lemma only_weaken {A : Type} (Qr Qr' : A -> Prop) (m : M A) :
  adds_only P (post Qr Qexit Qabort Qother) m -> (forall a, Qr a -> Qr' a) ->
  adds_only P (post Qr' Qexit Qabort Qother) m.
Proof.
  intros Hm Himp w. destruct (Hm w) as (t & Ht & Hp & Hq).
  exists t. repeat split; try assumption.
  destruct (fst (m w)); cbn [post] in *; auto.
Qed.

Lemma only_ret {A : Type} (Rr : A -> Prop) (a : A) :
  Rr a -> adds_only P (post Rr Qexit Qabort Qother) (ret a).
Proof. intros Hr w. exists []. rewrite app_nil_r. repeat split. exact Hr. Qed.

Lemma only_exit_with {A : Type} (Rr : A -> Prop) (status : Z) :
  Qexit status -> adds_only P (post Rr Qexit Qabort Qother) (@exit_with A status).
Proof. intros Hq w. exists []. rewrite app_nil_r. repeat split. exact Hq. Qed.

Lemma only_undefined {A : Type} (Rr : A -> Prop) :
  Qother -> adds_only P (post Rr Qexit Qabort Qother) (@undefined A).
Proof. intros Hq w. exists []. rewrite app_nil_r. repeat split. exact Hq. Qed.

Lemma only_act (a : action) :
  P a = true -> adds_only P (post (fun _ => True) Qexit Qabort Qother) (act a).
Proof.
  intros Ha w. exists [a]. cbn. rewrite Ha. repeat split.
Qed.

Lemma only_log (sev : severity) (m : message) :
  P (Log sev m) = true ->
  adds_only P (post (fun _ => True) Qexit Qabort Qother) (log sev m).
Proof. apply only_act. Qed.

Lemma only_getenv (name : string) :
  adds_only P (post (fun _ => True) Qexit Qabort Qother) (getenv name).
Proof. intros w. exists []. rewrite app_nil_r. repeat split. Qed.

Lemma only_global_option_get (key : string) :
  adds_only P (post (fun _ => True) Qexit Qabort Qother) (global_option_get key).
Proof. intros w. exists []. rewrite app_nil_r. repeat split. Qed.

Lemma only_global_option_set (key value : string) :
  adds_only P (post (fun _ => True) Qexit Qabort Qother) (global_option_set key value).
Proof. intros w. exists []. cbn. rewrite app_nil_r. repeat split. Qed.

Lemma only_unsetenv (name : string) :
  P (Unsetenv name) = true ->
  adds_only P (post (fun _ => True) Qexit Qabort Qother) (unsetenv name).
Proof. intros Ha w. exists [Unsetenv name]. cbn. rewrite Ha. repeat split. Qed.

Lemma only_setenv (name value : string) :
  P (Setenv name value) = true ->
  adds_only P (post (fun _ => True) Qexit Qabort Qother) (setenv name value).
Proof. intros Ha w. exists [Setenv name value]. cbn. rewrite Ha. repeat split. Qed.

Lemma only_chdir (dir : string) (a : answer) :
  P (Chdir dir) = true ->
  adds_only P (post (fun _ => True) Qexit Qabort Qother) (chdir dir a).
Proof.
  intros Ha w. exists [Chdir dir]. unfold chdir.
  destruct a; cbn; rewrite Ha; repeat split.
Qed.

Lemma only_cf_read (ans : answers) (file : string) :
  P (Cf_read file) = true ->
  adds_only P (post (fun _ => True) Qexit Qabort Qother) (cf_read ans file).
Proof.
  intros Ha w. exists [Cf_read file]. unfold cf_read.
  destruct (cf_read_answer ans file (options w)). cbn. rewrite Ha. repeat split.
Qed.

Lemma only_fopen_w (ans : answers) (file : string) :
  P (Fopen file) = true ->
  adds_only P (post (fun _ => True) Qexit Qabort Qother) (fopen_w ans file).
Proof.
  intros Ha w. exists [Fopen file]. unfold fopen_w.
  destruct (fopen_answer ans); cbn; rewrite Ha; repeat split.
Qed.

Lemma only_fprintf (text : string) :
  P (Fprintf text) = true -> Qother ->
  adds_only P (post (fun _ => True) Qexit Qabort Qother) (fprintf text).
Proof.
  intros Ha Hq w. unfold fprintf. destruct (stream w).
  - exists [Fprintf text]. cbn. rewrite Ha. repeat split.
  - exists []. rewrite app_nil_r. repeat split. exact Hq.
Qed.

Lemma only_fclose :
  P Fclose = true -> adds_only P (post (fun _ => True) Qexit Qabort Qother) fclose.
Proof. intros Ha w. exists [Fclose]. cbn. rewrite Ha. repeat split. Qed.

End AddsOnly.

(** Computations put together with bind, if and match from the primitives
    above, for a concrete [P]. *)
Ltac only_step :=
  first
    [ apply only_ret; solve [trivial | auto]
    | apply only_exit_with; solve [trivial | auto]
    | apply only_undefined; solve [trivial]
    | apply only_act; reflexivity
    | apply only_log; reflexivity
    | apply only_getenv
    | apply only_global_option_get
    | apply only_global_option_set
    | apply only_unsetenv; reflexivity
    | apply only_setenv; reflexivity
    | apply only_chdir; reflexivity
    | apply only_cf_read; reflexivity
    | apply only_fopen_w; reflexivity
    | apply only_fprintf; [reflexivity | solve [trivial]]
    | apply only_fclose; reflexivity
    | apply (only_bind _ _ _ _ (fun _ => True)); [| intros ? _]
    | progress cbv zeta
    | match goal with
      | |- adds_only _ _ (if ?b then _ else _) => destruct b
      | |- adds_only _ _ (match ?x with _ => _ end) => destruct x
      end ].

Ltac only_steps := repeat only_step.

Lemma usage_exit_status (opts : list cli_option) (status : Z) :
  usage_exit opts = Some status -> status = 0 \/ status = 1.
Proof.
  induction opts as [| o opts IH]; cbn; [discriminate |].
  destruct o; try exact IH; intros H; injection H as <-; auto.
Qed.

Lemma only_read_options (P : action -> bool) (Qexit : Z -> Prop) (Qabort Qother : Prop)
    (opts : list cli_option) (c : cli) :
  P Print_usage = true -> Qexit 0 -> Qexit 1 ->
  adds_only P
    (post (fun c' =>
             test_config c' = test_config c || existsb is_Opt_t opts /\
             test_readall c' = test_readall c || existsb is_Opt_T opts /\
             daemonize c' =
               daemonize c
               && negb (existsb is_Opt_f opts || existsb is_Opt_T opts))
          Qexit Qabort Qother)
    (read_options opts c).
Proof.
  intros Hp H0 H1 w. pose proof (read_options_effect opts c w) as Heff.
  destruct (usage_exit opts) as [status |] eqn:Hu.
  - destruct Heff as (w' & -> & Hh). exists [Print_usage]. cbn [fst snd post].
    split; [exact Hh |]. split; [cbn; rewrite Hp; reflexivity |].
    destruct (usage_exit_status opts status Hu) as [-> | ->]; assumption.
  - destruct Heff as (c' & w' & -> & Ht & HT & Hd & _ & _ & Hh & _).
    exists []. rewrite app_nil_r. cbn [fst snd post]. repeat split; assumption.
Qed.

Lemma only_change_basedir (P : action -> bool) (Qexit : Z -> Prop) (Qabort Qother : Prop)
    (ans : answers) (dir : string) :
  (forall a, is_before_init a = true -> P a = true) ->
  adds_only P (post (fun _ => True) Qexit Qabort Qother) (change_basedir ans dir).
Proof.
  intros HP. unfold change_basedir, mkdir.
  repeat first
    [ apply only_ret; solve [trivial]
    | apply only_act; apply HP; reflexivity
    | apply only_log; apply HP; reflexivity
    | apply only_chdir; apply HP; reflexivity
    | apply (only_bind _ _ _ _ (fun _ => True)); [| intros ? _]
    | match goal with
      | |- adds_only _ _ (if ?b then _ else _) => destruct b
      | |- adds_only _ _ (match ?x with _ => _ end) => destruct x
      end ].
Qed.

(** ** Runs that only test *)

Lemma only_startup (P : action -> bool) (Qexit : Z -> Prop) (Qabort Qother : Prop)
    (ans : answers) (opts : list cli_option) (extra : bool)
    (K : cli -> M Z) :
  (forall a, is_startup_action a = true -> P a = true) ->
  Qexit 0 -> Qexit 1 ->
  (default_interval ans <= 0 -> Qabort) ->
  (forall c,
     test_config c = existsb is_Opt_t opts ->
     test_readall c = existsb is_Opt_T opts ->
     daemonize c = negb (existsb is_Opt_f opts || existsb is_Opt_T opts) ->
     test_config c = false ->
     adds_only P (post (fun _ => False) Qexit Qabort Qother) (K c)) ->
  adds_only P (post (fun _ => False) Qexit Qabort Qother)
    (c <- read_options opts
            {| configfile := CONFIGFILE; test_config := false;
               test_readall := false; daemonize := true |} ;;
     (if extra : bool then exit_usage 1 else ret tt) ;;
     act Plugin_init_ctx ;;
     r <- cf_read ans (configfile c) ;;
     if negb (r =? 0)
     then act (Stderr Err_config_failed) ;; exit_with 1
     else
       basedir <- global_option_get "BaseDir" ;;
       match basedir with
       | None => act (Stderr Err_no_basedir) ;; exit_with 1
       | Some dir =>
           r <- change_basedir ans dir ;;
           if negb (r =? 0)
           then act (Stderr (Err_change_basedir dir)) ;; exit_with 1
           else
             r <- init_global_variables ans ;;
             if negb (r =? 0)
             then exit_with 1
             else if test_config c
             then exit_with 0
             else K c
       end).
Proof.
  intros HP H0 H1 Hab HK.
  eapply only_bind; [apply only_read_options; auto; apply HP; reflexivity |].
  cbn [test_config test_readall daemonize orb andb].
  intros c (Ht & HT & Hd).
  apply (only_bind _ _ _ _ (fun _ => True)).
  { destruct extra; [| apply only_ret; trivial].
    unfold exit_usage. apply (only_bind _ _ _ _ (fun _ => True)).
    - apply only_act. apply HP. reflexivity.
    - intros _ _. apply only_exit_with. exact H1. }
  intros _ _.
  apply (only_bind _ _ _ _ (fun _ => True));
    [apply only_act; apply HP; reflexivity | intros _ _].
  apply (only_bind _ _ _ _ (fun _ => True));
    [apply only_cf_read; apply HP; reflexivity | intros r _].
  destruct (negb (r =? 0)).
  { apply (only_bind _ _ _ _ (fun _ => True));
      [apply only_act; apply HP; reflexivity | intros _ _].
    apply only_exit_with. exact H1. }
  apply (only_bind _ _ _ _ (fun _ => True));
    [apply only_global_option_get | intros basedir _].
  destruct basedir as [dir |].
  2: { apply (only_bind _ _ _ _ (fun _ => True));
         [apply only_act; apply HP; reflexivity | intros _ _].
       apply only_exit_with. exact H1. }
  apply (only_bind _ _ _ _ (fun _ => True));
    [apply only_change_basedir; intros a Ha; apply HP;
     destruct a; try discriminate Ha; reflexivity
    | intros r1 _].
  destruct (negb (r1 =? 0)).
  { apply (only_bind _ _ _ _ (fun _ => True));
      [apply only_act; apply HP; reflexivity | intros _ _].
    apply only_exit_with. exact H1. }
  apply (only_bind _ _ _ _ (fun _ => True)).
  { intros w. destruct (init_global_variables_run ans w) as (t & Hw & Hout).
    exists (Init_global_variables :: map action_of_call t).
    rewrite Hw. cbn [history record]. split; [reflexivity |]. split.
    - cbn [forallb]. rewrite (HP Init_global_variables eq_refl).
      apply forallb_action_of_call. intros x. apply HP.
      destruct x; reflexivity.
    - destruct (fst (init_global_variables ans w)); cbn [post];
        try contradiction; auto. }
  intros r2 _.
  destruct (negb (r2 =? 0)); [apply only_exit_with; exact H1 |].
  destruct (test_config c) eqn:Htc; [apply only_exit_with; exact H0 |].
  apply HK; auto. rewrite Htc. exact Ht.
Qed.

(** ** The assertion on the interval *)

Lemma reaches_init_bind {A : Type} (ans : answers) (m : M A) (k : A -> M Z) :
  adds_only is_before_init (post (fun _ => True) (fun _ => True) False False) m ->
  (forall a, exits_or_reaches_init ans (k a)) ->
  exits_or_reaches_init ans (bind m k).
Proof.
  intros Hm Hk w. destruct (Hm w) as (t1 & Ht1 & Hp1 & Hq1). unfold bind.
  destruct (m w) as [[a | st | | |] w1]; cbn [fst snd post] in *;
    try contradiction.
  - destruct (Hk a w1) as [(status & w2 & t2 & Hrun & Ht2 & Hp2)
                          | (k' & w2 & t2 & Ht2 & Hp2 & Hrun)].
    + left. exists status, w2, (t1 ++ t2). split; [exact Hrun |].
      rewrite Ht2, Ht1, <- app_assoc, forallb_app, Hp1, Hp2. split; reflexivity.
    + right. exists k', w2, (t1 ++ t2).
      rewrite Ht2, Ht1, <- app_assoc, forallb_app, Hp1, Hp2.
      repeat split. exact Hrun.
  - left. exists st, w1, t1. repeat split; assumption.
Qed.

Lemma reaches_init_exit (ans : answers) (status : Z) :
  exits_or_reaches_init ans (exit_with status).
Proof.
  intros w. left. exists status, w, []. rewrite app_nil_r. repeat split.
Qed.

(** [main] up to the call of [init_global_variables]. *)
Lemma main_up_to_init (ans : answers) (opts : list cli_option) (extra : bool) :
  exits_or_reaches_init ans (main ans opts extra).
Proof.
  unfold main.
  apply reaches_init_bind.
  { eapply only_weaken; [apply only_read_options; auto | auto]. }
  intros c.
  apply reaches_init_bind.
  { destruct extra; [unfold exit_usage |]; only_steps. }
  intros _.
  apply reaches_init_bind; [only_steps | intros _].
  apply reaches_init_bind; [only_steps | intros r].
  destruct (negb (r =? 0)).
  { apply reaches_init_bind; [only_steps | intros _]. apply reaches_init_exit. }
  apply reaches_init_bind; [only_steps | intros basedir].
  destruct basedir as [dir |].
  2: { apply reaches_init_bind; [only_steps | intros _]. apply reaches_init_exit. }
  apply reaches_init_bind; [apply only_change_basedir; auto | intros r1].
  destruct (negb (r1 =? 0)).
  { apply reaches_init_bind; [only_steps | intros _]. apply reaches_init_exit. }
  intros w. right. eexists _, w, []. rewrite app_nil_r.
  split; [reflexivity |]. split; reflexivity.
Qed.

(** With a default interval that is not positive, [main] ends in the
    failed assertion exactly when it comes to call
    [init_global_variables]. *)
Lemma main_assertion (ans : answers) (opts : list cli_option) (extra : bool)
    (w : world) (t : list action) :
  history (snd (main ans opts extra w)) = history w ++ t ->
  default_interval ans <= 0 ->
  (In Init_global_variables t <-> fst (main ans opts extra w) = Aborted).
Proof.
  intros Ht Hi.
  destruct (main_up_to_init ans opts extra w)
    as [(status & w1 & t1 & Hrun & Ht1 & Hp1) | (k & w1 & t1 & Ht1 & Hp1 & Hrun)].
  - rewrite Hrun in *. cbn [fst snd] in *.
    rewrite Ht1 in Ht. apply app_inv_head in Ht. subst t1.
    split; [| discriminate].
    intros Hin. exfalso.
    rewrite forallb_forall in Hp1. specialize (Hp1 _ Hin). discriminate Hp1.
  - destruct (init_global_variables_run ans w1) as (calls & Hw & Hout).
    assert (Hab : init_global_variables ans w1 =
                  (Aborted,
                   record (Init_global_variables :: map action_of_call calls) w1)).
    { destruct (init_global_variables ans w1) as [o w2]. cbn [fst snd] in *.
      subst w2. destruct o; try contradiction; [lia | reflexivity]. }
    unfold bind in Hrun. rewrite Hab in Hrun. rewrite Hrun in *.
    cbn [fst snd history record] in *.
    rewrite Ht1, <- app_assoc in Ht. apply app_inv_head in Ht. subst t.
    split; [reflexivity |].
    intros _. apply in_or_app. right. left. reflexivity.
Qed.

(** X15.  A configuration test ([-t] anywhere on the command line) has no
    side effect beyond start-up: the run ends with exit status 0 or 1, or
    in the failed assertion of [init_global_variables], which it does
    exactly when it comes to call that function with a default interval
    that is not positive, and all it does is
    print usage, read the configuration, change (and perhaps create) the
    base directory, set the global variables and write messages; it never
    forks, never installs a signal handler, never touches a PID file and
    never calls into the plugins' init, read or shutdown. *)
Theorem test_config_run_only_starts_up :
  forall (ans : answers) (opts : list cli_option) (extra : bool) (w : world),
    existsb is_Opt_t opts = true ->
    exists t : list action,
      history (snd (main ans opts extra w)) = history w ++ t /\
      forallb is_startup_action t = true /\
      match fst (main ans opts extra w) with
      | Exit status => status = 0 \/ status = 1
      | Aborted => default_interval ans <= 0
      | _ => False
      end /\
      (0 < default_interval ans ->
       exists status, fst (main ans opts extra w) = Exit status /\
                      (status = 0 \/ status = 1)) /\
      (default_interval ans <= 0 ->
       (In Init_global_variables t <-> fst (main ans opts extra w) = Aborted)).
Proof.
  intros ans opts extra w Ht.
  assert (Hmain : adds_only is_startup_action
                    (post (fun _ => False) (fun st => st = 0 \/ st = 1)
                       (default_interval ans <= 0) False)
                    (main ans opts extra)).
  { unfold main. apply only_startup; auto.
    intros c Hc _ _ Hfalse. rewrite Ht in Hc. congruence. }
  destruct (Hmain w) as (t & Hh & Hp & Hq).
  exists t. split; [exact Hh |]. split; [exact Hp |].
  pose proof (main_assertion ans opts extra w t Hh) as Hassert.
  destruct (fst (main ans opts extra w)) as [a | status | | |]; cbn [post] in Hq;
    try contradiction; (split; [exact Hq |]); (split; [intros Hi | exact Hassert]).
  - exists status. split; [reflexivity | exact Hq].
  - lia.
Qed.

Lemma test_config_run_only_starts_up_witness :
  exists status : Z,
    fst (main (calm []) [Opt_P "/tmp/pid"; Opt_t] false (boot ∅ ∅ ∅ "/"))
      = Exit status /\
    (status = 0 \/ status = 1).
Proof.
  destruct (test_config_run_only_starts_up (calm []) [Opt_P "/tmp/pid"; Opt_t]
              false (boot ∅ ∅ ∅ "/") eq_refl)
    as (t & _ & _ & _ & Hexit & _).
  apply Hexit. reflexivity.
Defined.

Lemma only_install_signal_handlers (P : action -> bool) (Qexit : Z -> Prop)
    (Qabort Qother : Prop) (ans : answers) :
  (forall sig h, P (Sigaction sig h) = true) ->
  (forall sev m, P (Log sev m) = true) -> Qexit 1 ->
  adds_only P (post (fun _ => True) Qexit Qabort Qother) (install_signal_handlers ans).
Proof.
  intros Hs Hl H1. unfold install_signal_handlers, sigaction.
  repeat first
    [ apply only_ret; solve [trivial]
    | apply only_exit_with; exact H1
    | apply only_act; apply Hs
    | apply only_log; apply Hl
    | apply (only_bind _ _ _ _ (fun _ => True)); [| intros ? _]
    | match goal with
      | |- adds_only _ _ (if ?b then _ else _) => destruct b
      | |- adds_only _ _ (match ?x with _ => _ end) => destruct x
      end ].
Qed.

Lemma only_do_init (Qexit : Z -> Prop) (Qabort Qother : Prop) (ans : answers) :
  adds_only is_foreground_test_action (post (fun _ => True) Qexit Qabort Qother)
    (do_init ans).
Proof. unfold do_init. only_steps. Qed.

(** X16.  A read test ([-T] anywhere on the command line) stays in the
    foreground: the run ends with exit status 0 or 1, or in the failed
    assertion of [init_global_variables], which it does exactly when it
    comes to call that function with a default interval that is not
    positive, and never forks, never performs a
    supervisor handshake, never creates or removes a PID file, never
    redirects its descriptors and never enters the scheduler loop (no
    read-all of the loop, no nanosleep). *)
Theorem test_readall_run_stays_in_foreground :
  forall (ans : answers) (opts : list cli_option) (extra : bool) (w : world),
    existsb is_Opt_T opts = true ->
    exists t : list action,
      history (snd (main ans opts extra w)) = history w ++ t /\
      forallb is_foreground_test_action t = true /\
      match fst (main ans opts extra w) with
      | Exit status => status = 0 \/ status = 1
      | Aborted => default_interval ans <= 0
      | _ => False
      end /\
      (0 < default_interval ans ->
       exists status, fst (main ans opts extra w) = Exit status /\
                      (status = 0 \/ status = 1)) /\
      (default_interval ans <= 0 ->
       (In Init_global_variables t <-> fst (main ans opts extra w) = Aborted)).
Proof.
  intros ans opts extra w HT.
  assert (Hmain : adds_only is_foreground_test_action
                    (post (fun _ => False) (fun st => st = 0 \/ st = 1)
                       (default_interval ans <= 0) False)
                    (main ans opts extra)).
  { unfold main. apply only_startup; auto.
    { intros a Ha. destruct a; try discriminate Ha; reflexivity. }
    intros c _ Hread Hd _. rewrite HT in Hread. rewrite HT, orb_true_r in Hd.
    cbn [negb] in Hd.
    apply (only_bind _ _ _ _ (fun _ => True)).
    { rewrite Hd. unfold daemonization, not_supervised. only_steps. }
    intros _ _.
    apply (only_bind _ _ _ _ (fun _ => True)).
    { apply only_install_signal_handlers; auto. }
    intros _ _.
    apply (only_bind _ _ _ _ (fun st => st = 0 \/ st = 1)).
    2: { intros st Hst. apply only_exit_with. exact Hst. }
    unfold run_and_shut_down. rewrite Hread, Hd.
    apply (only_bind _ _ _ _ (fun _ => True)); [apply only_do_init | intros i _].
    apply (only_bind _ _ _ _ (fun st => st = 0 \/ st = 1)).
    { destruct (negb (i =? 0)); [| apply only_ret; auto].
      apply (only_bind _ _ _ _ (fun _ => True));
        [apply only_log; reflexivity | intros _ _].
      apply only_ret. auto. }
    intros st1 Hst1.
    apply (only_bind _ _ _ _ (fun st => st = 0 \/ st = 1)).
    { apply (only_bind _ _ _ _ (fun _ => True));
        [apply only_act; reflexivity | intros _ _].
      destruct (negb (plugin_read_all_once_status ans =? 0));
        [| apply only_ret; exact Hst1].
      apply (only_bind _ _ _ _ (fun _ => True));
        [apply only_log; reflexivity | intros _ _].
      apply only_ret. auto. }
    intros st2 Hst2.
    apply (only_bind _ _ _ _ (fun _ => True));
      [apply only_log; reflexivity | intros _ _].
    apply (only_bind _ _ _ _ (fun _ => True)).
    { unfold do_shutdown. only_steps. }
    intros d _.
    apply (only_bind _ _ _ _ (fun st => st = 0 \/ st = 1)).
    { destruct (negb (d =? 0)); [| apply only_ret; exact Hst2].
      apply (only_bind _ _ _ _ (fun _ => True));
        [apply only_log; reflexivity | intros _ _].
      apply only_ret. auto. }
    intros st3 Hst3.
    apply (only_bind _ _ _ _ (fun _ => True)); [apply only_ret; trivial |].
    intros _ _. apply only_ret. exact Hst3. }
  destruct (Hmain w) as (t & Hh & Hp & Hq).
  exists t. split; [exact Hh |]. split; [exact Hp |].
  pose proof (main_assertion ans opts extra w t Hh) as Hassert.
  destruct (fst (main ans opts extra w)) as [a | status | | |]; cbn [post] in Hq;
    try contradiction; (split; [exact Hq |]); (split; [intros Hi | exact Hassert]).
  - exists status. split; [reflexivity | exact Hq].
  - lia.
Qed.

Lemma test_readall_run_stays_in_foreground_witness :
  exists status : Z,
    fst (main (calm []) [Opt_T] false (boot ∅ ∅ ∅ "/")) = Exit status /\
    (status = 0 \/ status = 1).
Proof.
  destruct (test_readall_run_stays_in_foreground (calm []) [Opt_T] false
              (boot ∅ ∅ ∅ "/") eq_refl)
    as (t & _ & _ & _ & Hexit & _).
  apply Hexit. reflexivity.
Defined.

(** ** Handlers before plugins *)

Lemma install_signal_handlers_failure (ans : answers) (w : world) :
  is_failure (sigaction_int_answer ans)
  || is_failure (sigaction_term_answer ans)
  || is_failure (sigaction_usr1_answer ans) = true ->
  exists t,
    install_signal_handlers ans w = (Exit 1, record t w) /\
    forallb (fun a => negb (is_plugin_work a)) t = true.
Proof.
  intros Hfail.
  unfold install_signal_handlers, sigaction, bind, act, log, act, ret, exit_with.
  destruct (sigaction_int_answer ans) as [x | e].
  2: { eexists. cbn. rewrite !record_record. split; reflexivity. }
  destruct (sigaction_term_answer ans) as [y | e].
  2: { eexists. cbn. rewrite !record_record. split; reflexivity. }
  destruct (sigaction_usr1_answer ans) as [z | e]; [discriminate Hfail |].
  eexists. cbn. rewrite !record_record. split; reflexivity.
Qed.

(** X17.  No plugin work before the signal handlers are in place: if the
    installation of the handler for SIGINT, SIGTERM or SIGUSR1 fails, the
    run never calls the plugins' init, read or shutdown, whatever the
    command line and the rest of the environment. *)
Theorem no_plugin_work_without_signal_handlers :
  forall (ans : answers) (opts : list cli_option) (extra : bool) (w : world),
    is_failure (sigaction_int_answer ans)
    || is_failure (sigaction_term_answer ans)
    || is_failure (sigaction_usr1_answer ans) = true ->
    exists t : list action,
      history (snd (main ans opts extra w)) = history w ++ t /\
      forallb (fun a => negb (is_plugin_work a)) t = true /\
      (forall status, fst (main ans opts extra w) = Exit status ->
         status = 0 \/ status = 1 \/ status = 2).
Proof.
  intros ans opts extra w Hfail.
  assert (Hmain : adds_only (fun a => negb (is_plugin_work a))
                    (post (fun _ => False)
                       (fun st => st = 0 \/ st = 1 \/ st = 2) True True)
                    (main ans opts extra)).
  { unfold main. apply only_startup; auto.
    { intros a Ha. destruct a; try discriminate Ha; reflexivity. }
    intros c _ _ _ _.
    apply (only_bind _ _ _ _ (fun _ => True)).
    { unfold daemonization, not_supervised, notify_upstart, notify_systemd,
        fork_off_child, pidfile_create.
      only_steps. }
    intros _ _.
    apply (only_bind _ _ _ _ (fun _ => False)).
    2: { intros a []. }
    intros w1. destruct (install_signal_handlers_failure ans w1 Hfail)
      as (t & -> & Hp).
    exists t. cbn [fst snd history record post]. repeat split; auto. }
  destruct (Hmain w) as (t & Hh & Hp & Hq).
  exists t. repeat split; try assumption.
  intros status Hst. rewrite Hst in Hq. exact Hq.
Qed.

Lemma no_plugin_work_without_signal_handlers_witness :
  exists t : list action,
    history (snd (main (with_failing_term (calm [])) [Opt_f] false
                    (boot ∅ ∅ ∅ "/"))) = [] ++ t /\
    forallb (fun a => negb (is_plugin_work a)) t = true.
Proof.
  destruct (no_plugin_work_without_signal_handlers (with_failing_term (calm []))
              [Opt_f] false (boot ∅ ∅ ∅ "/") eq_refl)
    as (t & Hh & Hp & _).
  exists t. split; assumption.
Defined.

(** ** The exit status of a complete run *)

(** [do_loop] returns or is still running; it never ends the process, and
    it keeps what is in the history. *)
Lemma do_loop_keeps_history (ans : answers) (w : world) :
  (forall a, In a (history w) -> In a (history (snd (do_loop ans w)))) /\
  match fst (do_loop ans w) with
  | Ret _ | Blocked => True
  | Exit _ | Undefined | Aborted => False
  end.
Proof.
  unfold do_loop.
  destruct (do_loop_run (loop_events ans) _) as [s |]; cbn [fst snd].
  - split.
    + intros a Ha. cbn [history record]. apply in_app_iff. left. exact Ha.
    + destruct (pc s); exact I.
  - split; [auto | exact I].
Qed.

Lemma pidfile_remove_returns (ans : answers) (w : world) :
  exists (r : Z) (w' : world),
    pidfile_remove ans w = (Ret r, w') /\
    (forall a, In a (history w) -> In a (history w')).
Proof.
  unfold pidfile_remove, bind, act, global_option_get, unlink, ret.
  cbn [options record files].
  destruct (options w !! "PIDFile") as [f |]; cbn [record files].
  - destruct (unlink_fault ans), (files w !! f);
      eexists _, _; (split; [reflexivity |]);
      intros a Ha; cbn [history record with_files]; rewrite !in_app_iff; auto.
  - eexists _, _. split; [reflexivity |].
    intros a Ha. cbn [history record]. rewrite in_app_iff. auto.
Qed.

Lemma in_history_record (x : action) (a : list action) (w : world) :
  In x (history w) \/ In x a -> In x (history (record a w)).
Proof. intros H. cbn [history record]. apply in_or_app. exact H. Qed.

(** Membership in a history that was extended step by step. *)
Ltac in_history :=
  repeat match goal with
         | |- In _ (history (record _ _)) =>
             apply in_history_record;
             first [ right; cbn [In]; solve [auto] | left ]
         | |- In ?x (history (with_environ ?e ?W)) => change (In x (history W))
         | H : forall a, In a (history ?W) -> In a (history ?w)
           |- In _ (history ?w) => apply H
         end.

(** X18.  Once start-up is over, [main] always goes through plugin
    initialisation and plugin shutdown and never exits early, let alone
    aborts: the part from [do_init] to the final [return] yields an exit
    status (or is still in the scheduler loop), and that status is 1
    exactly when the
    plugin initialisation failed, or the single read of a read test
    failed, or the plugin shutdown failed, and 0 otherwise; what
    [do_loop] returned plays no part. *)
Theorem exit_status_of_a_complete_run :
  forall (ans : answers) (c : cli) (w : world),
    (forall status, fst (run_and_shut_down ans c w) <> Exit status) /\
    fst (run_and_shut_down ans c w) <> Undefined /\
    fst (run_and_shut_down ans c w) <> Aborted /\
    (fst (run_and_shut_down ans c w) = Blocked -> test_readall c = false) /\
    (forall status w',
       run_and_shut_down ans c w = (Ret status, w') ->
       status =
         (if negb (plugin_init_all_status ans =? 0)
             || (test_readall c && negb (plugin_read_all_once_status ans =? 0))
             || negb (plugin_shutdown_all_status ans =? 0)
          then 1 else 0) /\
       In Plugin_init_all (history w') /\
       In Plugin_shutdown_all (history w')).
Proof.
  intros ans c w.
  unfold run_and_shut_down, do_init, do_shutdown, log, act, unsetenv, setenv,
    bind, ret.
  cbn [fst snd].
  destruct (setlocale_answer ans);
    destruct (negb (plugin_init_all_status ans =? 0));
    destruct (test_readall c); cbn [andb orb];
    try destruct (negb (plugin_read_all_once_status ans =? 0));
    try match goal with
        | |- context [do_loop ans ?W] =>
            pose proof (do_loop_keeps_history ans W) as Hloop;
            destruct (do_loop ans W) as [[r | r | | |] w1];
            cbn [fst snd] in Hloop; destruct Hloop as [Hkeep Hout];
            try contradiction
        end;
    destruct (negb (plugin_shutdown_all_status ans =? 0));
    destruct (daemonize c);
    try match goal with
        | |- context [pidfile_remove ans ?W] =>
            destruct (pidfile_remove_returns ans W) as (r' & w2 & -> & Hkeep')
        end;
    cbn [fst snd];
    (split; [intros st0 H; discriminate H |]);
    (split; [intros H; discriminate H |]);
    (split; [intros H; discriminate H |]);
    (split; [intros H; first [reflexivity | discriminate H] |]);
    intros st0 w0 H; inversion H; subst;
    (split; [reflexivity |]); split; in_history.
Qed.

(** ** The global variables *)

Section GlobalsProperties.

Import Globals.

Variable DATA_MAX_NAME_LEN : nat.
Variable IS_FALSE : option string -> bool.
Variable atoi : string -> Z.

Lemma scan_ai_list_without_names (l : list (option string)) (h : list ascii) :
  Forall (fun c => c = None) l ->
  scan_ai_list DATA_MAX_NAME_LEN l h = h.
Proof.
  induction 1 as [|c l Hc _ IH]; [reflexivity|].
  subst c. exact IH.
Qed.

Lemma scan_ai_list_first_name (l1 l2 : list (option string)) (c : string)
    (h : list ascii) :
  Forall (fun c => c = None) l1 ->
  scan_ai_list DATA_MAX_NAME_LEN (l1 ++ Some c :: l2) h =
  sstrncpy c DATA_MAX_NAME_LEN.
Proof.
  induction 1 as [|c' l Hc _ IH]; [reflexivity|].
  subst c'. exact IH.
Qed.

(** X19.  Without a configured Hostname and with the lookup enabled, the
    host name becomes the first canonical name of the address list,
    whatever follows it in the list; a list without any canonical name
    leaves the name that gethostname gave, and the function still
    succeeds. *)
Theorem init_hostname_takes_first_canonical_name
    (look : lookups) (options : gmap string string) (g : globals)
    (name : string) (ai_list : list (option string)) :
  options !! "Hostname" = None ->
  gethostname_answer look = Some name ->
  IS_FALSE (options !! "FQDNLookup") = false ->
  getaddrinfo_answer look = Some ai_list ->
  let '(status, g', _) := init_hostname DATA_MAX_NAME_LEN IS_FALSE look options g in
  status = 0 /\
  (forall l1 c l2,
      ai_list = l1 ++ Some c :: l2 -> Forall (fun x => x = None) l1 ->
      hostname_g g' = sstrncpy c DATA_MAX_NAME_LEN) /\
  (Forall (fun x => x = None) ai_list ->
   hostname_g g' = gethostname_fill DATA_MAX_NAME_LEN name).
Proof.
  intros Hh Hg Hf Ha. unfold init_hostname. rewrite Hh, Hg, Hf, Ha.
  cbn [hostname_g]. split; [reflexivity|]. split.
  - intros l1 c l2 -> Hl. apply scan_ai_list_first_name. exact Hl.
  - intros Hl. apply scan_ai_list_without_names. exact Hl.
Qed.

(** X20.  Whatever the lookups answer, [hostname_g] keeps its size; a name
    taken from the Hostname option is cut to the array and
    null-terminated, however long it is. *)
Theorem init_hostname_keeps_the_array
    (look : lookups) (options : gmap string string) (g : globals) :
  (1 <= DATA_MAX_NAME_LEN)%nat ->
  List.length (hostname_g g) = DATA_MAX_NAME_LEN ->
  let '(status, g', _) := init_hostname DATA_MAX_NAME_LEN IS_FALSE look options g in
  List.length (hostname_g g') = DATA_MAX_NAME_LEN /\
  (forall str, options !! "Hostname" = Some str ->
     status = 0 /\
     hostname_g g' !! (DATA_MAX_NAME_LEN - 1)%nat = Some zero /\
     take (DATA_MAX_NAME_LEN - 1) (hostname_g g') =
     take (DATA_MAX_NAME_LEN - 1)
       (list_ascii_of_string str ++ replicate DATA_MAX_NAME_LEN zero)).
Proof.
  intros HN Hlen.
  assert (Hcopy : forall s, List.length (sstrncpy s DATA_MAX_NAME_LEN) = DATA_MAX_NAME_LEN).
  { intros s. rewrite length_sstrncpy. lia. }
  assert (Hfill : forall s, List.length (gethostname_fill DATA_MAX_NAME_LEN s) = DATA_MAX_NAME_LEN).
  { intros s. unfold gethostname_fill.
    rewrite length_take, length_app, length_replicate. lia. }
  assert (Hscan : forall l h, List.length h = DATA_MAX_NAME_LEN ->
            List.length (scan_ai_list DATA_MAX_NAME_LEN l h) = DATA_MAX_NAME_LEN).
  { induction l as [|[c|] l IH]; intros h Hh; cbn [scan_ai_list]; auto. }
  unfold init_hostname.
  destruct (options !! "Hostname") as [str|] eqn:Hh.
  - cbn [hostname_g]. split; [apply Hcopy|].
    intros str' [= <-]. split; [reflexivity|]. split.
    + apply sstrncpy_terminated. exact HN.
    + unfold sstrncpy.
      set (body := take (DATA_MAX_NAME_LEN - 1) (list_ascii_of_string str)).
      assert (Hb : (List.length body <= DATA_MAX_NAME_LEN - 1)%nat).
      { unfold body. rewrite length_take. lia. }
      destruct (Nat.le_gt_cases (DATA_MAX_NAME_LEN - 1)
                  (List.length (list_ascii_of_string str))) as [Hlong|Hshort].
      * rewrite !take_app_le by (try (unfold body; rewrite length_take); lia).
        unfold body. rewrite take_take. f_equal. lia.
      * assert (Hbody : body = list_ascii_of_string str).
        { unfold body. apply take_ge. lia. }
        rewrite Hbody.
        rewrite !take_app_ge by lia.
        f_equal. rewrite !take_replicate. f_equal. lia.
  - destruct (gethostname_answer look) as [name|].
    + destruct (IS_FALSE (options !! "FQDNLookup")).
      * cbn [hostname_g]. split; [apply Hfill | discriminate].
      * destruct (getaddrinfo_answer look) as [l|]; cbn [hostname_g].
        -- split; [apply Hscan, Hfill | discriminate].
        -- split; [apply Hfill | discriminate].
    + split; [exact Hlen | discriminate].
Qed.

(** X21.  [init_hostname] looks a name up at most once, frees the address
    list exactly when getaddrinfo gave one, asks nothing at all when a
    Hostname is configured, and fails exactly when it complains. *)
Theorem init_hostname_lookups
    (look : lookups) (options : gmap string string) (g : globals) :
  let '(status, _, t) := init_hostname DATA_MAX_NAME_LEN IS_FALSE look options g in
  (status = 0 \/ status = -1) /\
  (status = -1 <-> existsb is_complaint t = true) /\
  (List.length (filter (fun c => is_Gethostname c = true) t) <= 1)%nat /\
  (List.length (filter (fun c => is_Getaddrinfo c = true) t) <= 1)%nat /\
  (existsb is_Freeaddrinfo t = true <->
   existsb is_Getaddrinfo t = true /\ getaddrinfo_answer look <> None) /\
  (existsb is_Getaddrinfo t = true ->
   options !! "Hostname" = None /\ IS_FALSE (options !! "FQDNLookup") = false /\
   gethostname_answer look <> None) /\
  (options !! "Hostname" <> None -> t = []).
Proof.
  unfold init_hostname.
  destruct (options !! "Hostname") as [str|];
    [| destruct (gethostname_answer look) as [name|];
       [ destruct (IS_FALSE (options !! "FQDNLookup"));
         [| destruct (getaddrinfo_answer look) as [l|] ] |] ];
    cbn; repeat split; auto; try lia; try discriminate; try congruence;
    intros; try discriminate; try lia;
    repeat match goal with H : _ /\ _ |- _ => destruct H end;
    try discriminate; try congruence.
Qed.

(** X22.  When [init_global_variables] returns 0, the interval is the
    configured default and positive and the timeout is at least 2; with a
    timeout of 1 or less it returns -1 without looking any name up. *)
Theorem init_global_variables_invariants
    (look : lookups) (options : gmap string string) (g : globals) :
  let '(e, g', t) :=
    init_global_variables DATA_MAX_NAME_LEN IS_FALSE atoi look options g in
  (e = Return 0 ->
   interval_g g' = cf_get_default_interval look /\ 0 < interval_g g' /\
   2 <= timeout_g g' <= INT_MAX) /\
  (e = Return 0 \/ e = Return (-1) \/ e = Assertion_failed) /\
  (e = Assertion_failed <-> cf_get_default_interval look <= 0) /\
  (0 < cf_get_default_interval look ->
   int_wrap (atoi (default "2"%string (options !! "Timeout"))) <= 1 ->
   e = Return (-1) /\ t = [Stderr_bad_timeout] /\
   hostname_g g' = hostname_g g).
Proof.
  unfold init_global_variables. cbn [interval_g timeout_g hostname_g].
  assert (Hstr : match options !! "Timeout" with Some s => s | None => "2"%string end
                 = default "2"%string (options !! "Timeout")).
  { destruct (options !! "Timeout"); reflexivity. }
  rewrite Hstr. clear Hstr.
  set (tm := int_wrap (atoi (default "2"%string (options !! "Timeout")))).
  assert (Htm : tm <= INT_MAX).
  { pose proof (int_wrap_range (atoi (default "2"%string (options !! "Timeout")))).
    unfold tm. lia. }
  destruct (0 <? cf_get_default_interval look) eqn:Hi; cbn [negb].
  - apply Z.ltb_lt in Hi.
    destruct (tm <=? 1) eqn:Ht.
    + apply Z.leb_le in Ht. repeat split; auto; try discriminate; try lia.
    + apply Z.leb_gt in Ht.
      destruct (init_hostname _ _ _ _ _) as [[status g3] t] eqn:Hih.
      assert (Hg3 : interval_g g3 = cf_get_default_interval look /\ timeout_g g3 = tm).
      { unfold init_hostname in Hih.
        repeat match type of Hih with
               | context [match ?x with _ => _ end] => destruct x
               end; injection Hih as <- <- <-; split; reflexivity. }
      destruct Hg3 as [Hg3i Hg3t].
      destruct (status =? 0); cbn [negb];
        repeat split; auto; try discriminate; try lia.
  - apply Z.ltb_ge in Hi.
    repeat split; auto; try discriminate; try lia.
Qed.

End GlobalsProperties.

Lemma init_hostname_takes_first_canonical_name_witness :
  let look := {| Globals.gethostname_answer := Some "box"%string;
                 Globals.getaddrinfo_answer :=
                   Some [None; Some "box.example.org"%string; Some "alias"%string];
                 Globals.cf_get_default_interval := 10 |} in
  let g := {| Globals.hostname_g := replicate 64 zero;
              Globals.interval_g := 0; Globals.timeout_g := 0 |} in
  let '(status, g', _) :=
    Globals.init_hostname 64 (fun _ => false) look (∅ : gmap string string) g in
  status = 0 /\
  (forall l1 c l2,
      [None; Some "box.example.org"%string; Some "alias"%string] = l1 ++ Some c :: l2 ->
      Forall (fun x => x = None) l1 ->
      Globals.hostname_g g' = sstrncpy c 64) /\
  (Forall (fun x => x = None)
     [None; Some "box.example.org"%string; Some "alias"%string] ->
   Globals.hostname_g g' = Globals.gethostname_fill 64 "box").
Proof.
  intros look g.
  apply (init_hostname_takes_first_canonical_name 64 (fun _ => false) look
           (∅ : gmap string string) g "box"
           [None; Some "box.example.org"%string; Some "alias"%string]);
    reflexivity.
Defined.

Lemma init_hostname_keeps_the_array_witness :
  let look := {| Globals.gethostname_answer := None;
                 Globals.getaddrinfo_answer := None;
                 Globals.cf_get_default_interval := 10 |} in
  let g := {| Globals.hostname_g := replicate 8 zero;
              Globals.interval_g := 0; Globals.timeout_g := 0 |} in
  let options : gmap string string := {[ "Hostname"%string := "a-long-host-name"%string ]} in
  let '(status, g', _) :=
    Globals.init_hostname 8 (fun _ => false) look options g in
  List.length (Globals.hostname_g g') = 8%nat /\
  (forall str, options !! "Hostname"%string = Some str ->
     status = 0 /\
     Globals.hostname_g g' !! (8 - 1)%nat = Some zero /\
     take (8 - 1) (Globals.hostname_g g') =
     take (8 - 1) (list_ascii_of_string str ++ replicate 8 zero)).
Proof.
  intros look g options.
  apply (init_hostname_keeps_the_array 8 (fun _ => false) look options g);
    [lia | reflexivity].
Defined.

(** ** The keepalive variant *)

Section KeepaliveProperties.

Import Keepalive.

Variable under_one_second : Z -> bool.

Lemma last_cons_default (l : list Z) (a d : Z) :
  List.last (a :: l) d = List.last l a.
Proof.
  revert a d. induction l as [|b l IH]; intros a d; [reflexivity|].
  change (List.last (a :: b :: l) d) with (List.last (b :: l) d).
  rewrite (IH b d), (IH b a). reflexivity.
Qed.

(** X23.  Over any sequence of calls of [do_shot], the clock values at
    which the plugins are read increase strictly, each is later than the
    read before it by no less than a second, and [last_call] ends as the
    last of them. *)
Theorem do_shots_reads_are_spaced (nows : list Z) (last_call : Z) :
  let '(reads, final) := do_shots under_one_second nows last_call in
  spaced under_one_second last_call reads /\
  final = List.last reads last_call /\
  last_call <= final /\
  (forall t, In t reads -> In t nows).
Proof.
  revert last_call. induction nows as [|now rest IH]; intros last_call.
  - cbn. repeat split; auto; lia.
  - cbn [do_shots]. unfold do_shot.
    destruct (now <=? last_call) eqn:Hle; cbn [orb].
    + specialize (IH last_call).
      destruct (do_shots under_one_second rest last_call) as [reads final].
      cbn [existsb orb]. destruct IH as (H1 & H2 & H3 & H4).
      repeat split; auto. intros t Ht. right. auto.
    + apply Z.leb_gt in Hle.
      destruct (under_one_second (cdtime_sub now last_call)) eqn:Hu.
      * specialize (IH last_call).
        destruct (do_shots under_one_second rest last_call) as [reads final].
        cbn [existsb orb]. destruct IH as (H1 & H2 & H3 & H4).
        repeat split; auto. intros t Ht. right. auto.
      * specialize (IH now).
        destruct (do_shots under_one_second rest now) as [reads final].
        cbn [existsb orb]. destruct IH as (H1 & H2 & H3 & H4).
        cbn [spaced]. repeat split; auto.
        -- rewrite H2. symmetry. apply last_cons_default.
        -- lia.
        -- intros t [<-|Ht]; [left; reflexivity | right; auto].
Qed.

(** X24.  As long as the clock has not advanced, [do_shot] does not read
    the plugins again: a call at a clock value that is not later than the
    one of the call before it is skipped and leaves [last_call] alone,
    whatever the call before it did (a shorter duration being under one
    second whenever a longer one is). *)
Theorem do_shot_skips_without_progress (now now' last_call : Z) :
  (forall d d', 0 <= d' <= d ->
     under_one_second d = true -> under_one_second d' = true) ->
  is_cdtime now -> is_cdtime now' -> is_cdtime last_call ->
  now' <= now ->
  do_shot under_one_second now' (snd (do_shot under_one_second now last_call)) =
  ([Info_called; Info_skipped], snd (do_shot under_one_second now last_call)).
Proof.
  intros Hmono Hn Hn' Hl Hle. unfold do_shot at 2 3.
  assert (Hskip : forall lc, now' <= lc ->
            do_shot under_one_second now' lc = ([Info_called; Info_skipped], lc)).
  { intros lc H. unfold do_shot. apply Z.leb_le in H. rewrite H. reflexivity. }
  destruct (now <=? last_call) eqn:H1; cbn [orb snd].
  - apply Z.leb_le in H1. apply Hskip. lia.
  - apply Z.leb_gt in H1.
    destruct (under_one_second (cdtime_sub now last_call)) eqn:Hu; cbn [snd].
    + destruct (Z.le_gt_cases now' last_call) as [H|H]; [apply Hskip; exact H|].
      unfold do_shot.
      unfold cdtime_sub in Hu |- *. unfold is_cdtime in *.
      rewrite cdtime_wrap_small in Hu by (unfold is_cdtime; lia).
      rewrite cdtime_wrap_small by (unfold is_cdtime; lia).
      rewrite (Hmono (now - last_call) (now' - last_call)) by (lia || exact Hu).
      rewrite orb_true_r. reflexivity.
    + apply Hskip. exact Hle.
Qed.

End KeepaliveProperties.

Lemma do_shot_skips_without_progress_witness :
  let under := fun d => d <? 2 ^ 30 in
  Keepalive.do_shot under (7 * 2 ^ 30)
    (snd (Keepalive.do_shot under (7 * 2 ^ 30 + 5) (7 * 2 ^ 30))) =
  ([Keepalive.Info_called; Keepalive.Info_skipped],
   snd (Keepalive.do_shot under (7 * 2 ^ 30 + 5) (7 * 2 ^ 30))).
Proof.
  intros under.
  apply (do_shot_skips_without_progress under (7 * 2 ^ 30 + 5) (7 * 2 ^ 30)
           (7 * 2 ^ 30)).
  - intros d d' Hd H. unfold under in *.
    apply Z.ltb_lt in H. apply Z.ltb_lt. lia.
  - unfold is_cdtime, cdtime_modulus. lia.
  - unfold is_cdtime, cdtime_modulus. lia.
  - unfold is_cdtime, cdtime_modulus. lia.
  - lia.
Defined.
